(** * Smart meeting scheduler: the slot search, its scoring, the request guard
    and the service around them

    A shallow embedding of

    - [pkg/algorithm/scheduler.go]: [FindOptimalSlot], [findAvailableSlots],
      [isSlotAvailable], [scoreSlots], [calculateSlotScore] and the four
      sub-scores;
    - [internal/service] (service.go): [validateScheduleRequest], [Schedule]
      and [GetUserCalendar], over the [Repository] interface;
    - [internal/service/service_test.go]: the [MockRepository] of the tests;
    - [internal/endpoint/endpoints.go]: the two endpoints;
    - [internal/transport/http.go]: [encodeError];
    - [internal/domain/models.go]: the records the packages exchange;
    - [cmd/server/main.go], [scripts/migrate.go]: [getEnv];

    together with the parts of Go's runtime and standard library that this code
    is written against: [int64] arithmetic, [float64] (IEEE 754 binary64, every
    operation rounded on its own, which is what the gc compiler emits on
    amd64), [time.Time] and [time.Duration], the iteration order of a [map],
    and [sort.Slice]. *)

From Stdlib Require Import ZArith Lia List Bool.
From Stdlib Require Import Floats.PrimFloat Floats.SpecFloat Floats.FloatOps Floats.FloatAxioms.
From Stdlib Require Import Numbers.Cyclic.Int63.Uint63.
From stdpp Require Import base list gmap strings sorting.

Set Warnings "-inexact-float".
Local Open Scope Z_scope.

(** ** Go values *)

(** *** [int64] *)

Definition wrap64 (z : Z) : Z := (z + 2 ^ 63) mod 2 ^ 64 - 2 ^ 63.

Definition minInt64 : Z := - 2 ^ 63.
Definition maxInt64 : Z := 2 ^ 63 - 1.

(** *** [float64] *)

(** [float64(n)] for an integer [n] of the [int64] range. *)
Definition float64 (n : Z) : float :=
  if n =? minInt64 then (-0x1p63)%float
  else if n <? 0 then (- PrimFloat.of_uint63 (Uint63.of_Z (- n)))%float
  else PrimFloat.of_uint63 (Uint63.of_Z n).

(** *** [time.Duration]: a count of nanoseconds in an [int64] *)

Definition Duration := Z.

Definition Nanosecond : Duration := 1.
Definition Second : Duration := 1000000000.
Definition Minute : Duration := 60 * Second.
Definition Hour_ : Duration := 60 * Minute.

Definition minDuration : Duration := minInt64.
Definition maxDuration : Duration := maxInt64.

(** [func (d Duration) Minutes() float64]:
    [min := d / Minute; nsec := d % Minute;
     return float64(min) + float64(nsec)/(60*1e9)]. Go's [/] and [%] on
    integers truncate towards zero. *)
Definition Minutes (d : Duration) : float :=
  let min := Z.quot d Minute in
  let nsec := Z.rem d Minute in
  (float64 min + float64 nsec / 60000000000)%float.

(** *** [time.Time] *)

(** A [Location] gives, for an instant in seconds, the zone's offset in
    seconds east of UTC. *)
Definition Location := Z -> Z.

Definition UTC : Location := fun _ => 0.

(** An instant is counted in nanoseconds since January 1, year 1, 00:00:00
    UTC, the zero value of [time.Time]; the range of the representation and
    the monotonic clock reading are left out. *)
Record Time := mkTime { instant : Z; loc : Location }.

Definition Before (t u : Time) : bool := instant t <? instant u.
Definition After (t u : Time) : bool := instant u <? instant t.
Definition Equal (t u : Time) : bool := instant t =? instant u.
Definition IsZero (t : Time) : bool := instant t =? 0.

Definition Add (t : Time) (d : Duration) : Time :=
  {| instant := instant t + d; loc := loc t |}.

(** [t.Sub(u)] is the duration [t-u], or the largest or smallest [Duration]
    when [t-u] does not fit. *)
Definition Sub (t u : Time) : Duration :=
  let d := instant t - instant u in
  if d <? minDuration then minDuration
  else if maxDuration <? d then maxDuration
  else d.

(** [t.Hour()]: the hour of the day, in [t]'s location. *)
Definition Hour (t : Time) : Z :=
  let sec := instant t / Second in
  ((sec + loc t sec) mod 86400) / 3600.

(** ** [sort.Slice]

    [sort.Slice(x, less)] is [pdqsort_func(lessSwap{less, swap}, 0, n,
    bits.Len(n))] (Go 1.19 and later, sort/zsortfunc.go; the README asks for
    Go 1.21). [data.Less(i, j)] applies the caller's [less] to the elements
    that are at [i] and [j] at that moment, and [data.Swap(i, j)] exchanges
    them in place. The functions below keep the library's names, with the
    slice threaded through them. *)

Module sort.
Section lessSwap.

Context {A : Type} (less : A -> A -> bool).

Definition index (data : list A) (i : Z) : option A :=
  if i <? 0 then None else data !! Z.to_nat i.

Definition Less (data : list A) (i j : Z) : bool :=
  match index data i, index data j with
  | Some x, Some y => less x y
  | _, _ => false
  end.

Definition Swap (data : list A) (i j : Z) : list A :=
  match index data i, index data j with
  | Some x, Some y => <[Z.to_nat i := y]> (<[Z.to_nat j := x]> data)
  | _, _ => data
  end.

(** [for j := i; j > a && data.Less(j, j-1); j-- { data.Swap(j, j-1) }],
    with [j = a + n]. *)
Fixpoint insertionShift (data : list A) (a : Z) (n : nat) : list A :=
  match n with
  | O => data
  | S n' =>
      let j := a + Z.of_nat n in
      if Less data j (j - 1) then insertionShift (Swap data j (j - 1)) a n'
      else data
  end.

(** [for i := a + 1; i < b; i++ { ... }] *)
Definition insertionSort_func (data : list A) (a b : Z) : list A :=
  fold_left (fun data i => insertionShift data a (Z.to_nat (i - a)))
            (seqZ (a + 1) (b - a - 1)) data.

(** [siftDown_func(data, lo, hi, first)]; [root] only grows and stays below
    [hi], which bounds the number of rounds. *)
Fixpoint siftDown_loop (rounds : nat) (data : list A) (root hi first : Z) : list A :=
  match rounds with
  | O => data
  | S rounds' =>
      let child := 2 * root + 1 in
      if hi <=? child then data
      else
        let child :=
          if (child + 1 <? hi) && Less data (first + child) (first + child + 1)
          then child + 1 else child in
        if negb (Less data (first + root) (first + child)) then data
        else siftDown_loop rounds' (Swap data (first + root) (first + child)) child hi first
  end.

Definition siftDown_func (data : list A) (lo hi first : Z) : list A :=
  siftDown_loop (Z.to_nat hi) data lo hi first.

Definition heapSort_func (data : list A) (a b : Z) : list A :=
  let first := a in
  let lo := 0 in
  let hi := b - a in
  (* for i := (hi - 1) / 2; i >= 0; i-- *)
  let data :=
    fold_left (fun data i => siftDown_func data i hi first)
              (rev (seqZ 0 (Z.quot (hi - 1) 2 + 1))) data in
  (* for i := hi - 1; i >= 0; i-- *)
  fold_left (fun data i => siftDown_func (Swap data first (first + i)) lo i first)
            (rev (seqZ 0 hi)) data.

Inductive sortedHint := unknownHint | increasingHint | decreasingHint.

(** [order2_func(data, a, b, swaps)] returns the indices and the new count. *)
Definition order2_func (data : list A) (a b : Z) (swaps : Z) : Z * Z * Z :=
  if Less data b a then (b, a, swaps + 1) else (a, b, swaps).

Definition median_func (data : list A) (a b c : Z) (swaps : Z) : Z * Z :=
  let '(a, b, swaps) := order2_func data a b swaps in
  let '(b, c, swaps) := order2_func data b c swaps in
  let '(a, b, swaps) := order2_func data a b swaps in
  (b, swaps).

Definition medianAdjacent_func (data : list A) (a : Z) (swaps : Z) : Z * Z :=
  median_func data (a - 1) a (a + 1) swaps.

Definition choosePivot_func (data : list A) (a b : Z) : Z * sortedHint :=
  let shortestNinther := 50 in
  let maxSwaps := 4 * 3 in
  let l := b - a in
  let swaps := 0 in
  let i := a + Z.quot l 4 * 1 in
  let j := a + Z.quot l 4 * 2 in
  let k := a + Z.quot l 4 * 3 in
  let '(j, swaps) :=
    if 8 <=? l then
      let '(i, j, k, swaps) :=
        if shortestNinther <=? l then
          let '(i, swaps) := medianAdjacent_func data i swaps in
          let '(j, swaps) := medianAdjacent_func data j swaps in
          let '(k, swaps) := medianAdjacent_func data k swaps in
          (i, j, k, swaps)
        else (i, j, k, swaps) in
      median_func data i j k swaps
    else (j, swaps) in
  if swaps =? 0 then (j, increasingHint)
  else if swaps =? maxSwaps then (j, decreasingHint)
  else (j, unknownHint).

(** [for i < j { data.Swap(i, j); i++; j-- }], from [i = a], [j = b - 1]. *)
Fixpoint reverseRange_loop (rounds : nat) (data : list A) (i j : Z) : list A :=
  match rounds with
  | O => data
  | S rounds' =>
      if i <? j then reverseRange_loop rounds' (Swap data i j) (i + 1) (j - 1)
      else data
  end.

Definition reverseRange_func (data : list A) (a b : Z) : list A :=
  reverseRange_loop (Z.to_nat (b - a)) data a (b - 1).

(** [for i <= j && data.Less(i, a) { i++ }], with [n = j + 1 - i]. *)
Fixpoint partition_up (data : list A) (a i : Z) (n : nat) : Z :=
  match n with
  | O => i
  | S n' => if Less data i a then partition_up data a (i + 1) n' else i
  end.

(** [for i <= j && !data.Less(j, a) { j-- }], with [n = j + 1 - i]. *)
Fixpoint partition_down (data : list A) (a j : Z) (n : nat) : Z :=
  match n with
  | O => j
  | S n' => if negb (Less data j a) then partition_down data a (j - 1) n' else j
  end.

(** The [for { ... }] loop of [partition_func]; every round but the last
    moves [i] and [j] towards each other. *)
Fixpoint partition_loop (rounds : nat) (data : list A) (a i j : Z) : list A * Z :=
  match rounds with
  | O => (data, j)
  | S rounds' =>
      let i := partition_up data a i (Z.to_nat (j + 1 - i)) in
      let j := partition_down data a j (Z.to_nat (j + 1 - i)) in
      if j <? i then (data, j)
      else partition_loop rounds' (Swap data i j) a (i + 1) (j - 1)
  end.

Definition partition_func (data : list A) (a b pivot : Z) : list A * Z * bool :=
  let data := Swap data a pivot in
  let i := a + 1 in
  let j := b - 1 in
  let i := partition_up data a i (Z.to_nat (j + 1 - i)) in
  let j := partition_down data a j (Z.to_nat (j + 1 - i)) in
  if j <? i then (Swap data j a, j, true)
  else
    let data := Swap data i j in
    let i := i + 1 in
    let j := j - 1 in
    let '(data, j) := partition_loop (Z.to_nat (b - a)) data a i j in
    (Swap data j a, j, false).

(** [for i <= j && !data.Less(a, i) { i++ }] *)
Fixpoint partitionEqual_up (data : list A) (a i : Z) (n : nat) : Z :=
  match n with
  | O => i
  | S n' => if negb (Less data a i) then partitionEqual_up data a (i + 1) n' else i
  end.

(** [for i <= j && data.Less(a, j) { j-- }] *)
Fixpoint partitionEqual_down (data : list A) (a j : Z) (n : nat) : Z :=
  match n with
  | O => j
  | S n' => if Less data a j then partitionEqual_down data a (j - 1) n' else j
  end.

Fixpoint partitionEqual_loop (rounds : nat) (data : list A) (a i j : Z) : list A * Z :=
  match rounds with
  | O => (data, i)
  | S rounds' =>
      let i := partitionEqual_up data a i (Z.to_nat (j + 1 - i)) in
      let j := partitionEqual_down data a j (Z.to_nat (j + 1 - i)) in
      if j <? i then (data, i)
      else partitionEqual_loop rounds' (Swap data i j) a (i + 1) (j - 1)
  end.

Definition partitionEqual_func (data : list A) (a b pivot : Z) : list A * Z :=
  let data := Swap data a pivot in
  partitionEqual_loop (S (Z.to_nat (b - a))) data a (a + 1) (b - 1).

(** [for i < b && !data.Less(i, i-1) { i++ }], with [n = b - i]. *)
Fixpoint partialInsertion_scan (data : list A) (i : Z) (n : nat) : Z :=
  match n with
  | O => i
  | S n' => if negb (Less data i (i - 1)) then partialInsertion_scan data (i + 1) n' else i
  end.

(** [for j := i - 1; j >= 1; j-- { if !data.Less(j, j-1) { break };
    data.Swap(j, j-1) }], with [n = j]. *)
Fixpoint shiftLeft (data : list A) (n : nat) : list A :=
  match n with
  | O => data
  | S n' =>
      let j := Z.of_nat n in
      if negb (Less data j (j - 1)) then data else shiftLeft (Swap data j (j - 1)) n'
  end.

(** [for j := i + 1; j < b; j++ { if !data.Less(j, j-1) { break };
    data.Swap(j, j-1) }], with [n = b - j]. *)
Fixpoint shiftRight (data : list A) (j : Z) (n : nat) : list A :=
  match n with
  | O => data
  | S n' =>
      if negb (Less data j (j - 1)) then data
      else shiftRight (Swap data j (j - 1)) (j + 1) n'
  end.

Fixpoint partialInsertionSort_loop (steps : nat) (data : list A) (a b i : Z) : list A * bool :=
  let shortestShifting := 50 in
  match steps with
  | O => (data, false)
  | S steps' =>
      let i := partialInsertion_scan data i (Z.to_nat (b - i)) in
      if i =? b then (data, true)
      else if b - a <? shortestShifting then (data, false)
      else
        let data := Swap data i (i - 1) in
        let data := if 2 <=? i - a then shiftLeft data (Z.to_nat (i - 1)) else data in
        let data := if 2 <=? b - i then shiftRight data (i + 1) (Z.to_nat (b - (i + 1))) else data in
        partialInsertionSort_loop steps' data a b i
  end.

Definition partialInsertionSort_func (data : list A) (a b : Z) : list A * bool :=
  let maxSteps := 5%nat in
  partialInsertionSort_loop maxSteps data a b (a + 1).

(** [bits.Len(uint(n))] for [n >= 0]. *)
Definition bits_Len (n : Z) : Z := if n <=? 0 then 0 else Z.log2 n + 1.

(** [type xorshift uint64] and its [Next]. *)
Definition xorshift_Next (r : Z) : Z :=
  let r := Z.lxor r (Z.shiftl r 13 mod 2 ^ 64) in
  let r := Z.lxor r (Z.shiftr r 7) in
  let r := Z.lxor r (Z.shiftl r 17 mod 2 ^ 64) in
  r.

Definition nextPowerOfTwo (length : Z) : Z := Z.shiftl 1 (bits_Len length).

Definition breakPatterns_func (data : list A) (a b : Z) : list A :=
  let length := b - a in
  if 8 <=? length then
    let random := length in
    let modulus := nextPowerOfTwo length in
    let idx := a + Z.quot length 4 * 2 - 1 in
    fst (fold_left
           (fun '(data, random) i =>
              let random := xorshift_Next random in
              let other := Z.land random (modulus - 1) in
              let other := if length <=? other then other - length else other in
              (Swap data (idx - 1 + i) (a + other), random))
           (seqZ 0 3) (data, random))
  else data.

(** [pdqsort_func(data, a, b, limit)]. One unit of [depth] is spent by each
    round of the function's [for { ... }] loop and by each recursive call, and
    each of them works on a strictly shorter range, so that [b - a] units are
    enough. The two flags are the function's local variables. *)
Fixpoint pdqsort_loop (depth : nat) (data : list A) (a b limit : Z)
    (wasBalanced wasPartitioned : bool) : list A :=
  let maxInsertion := 12 in
  match depth with
  | O => insertionSort_func data a b
  | S depth' =>
      let length := b - a in
      if length <=? maxInsertion then insertionSort_func data a b
      else if limit =? 0 then heapSort_func data a b
      else
        let '(data, limit) :=
          if negb wasBalanced then (breakPatterns_func data a b, limit - 1)
          else (data, limit) in
        let '(pivot, hint) := choosePivot_func data a b in
        let '(data, pivot, hint) :=
          match hint with
          | decreasingHint =>
              (reverseRange_func data a b, (b - 1) - (pivot - a), increasingHint)
          | _ => (data, pivot, hint)
          end in
        let '(data, sorted) :=
          match wasBalanced && wasPartitioned, hint with
          | true, increasingHint => partialInsertionSort_func data a b
          | _, _ => (data, false)
          end in
        if sorted then data
        else if (0 <? a) && negb (Less data (a - 1) pivot) then
          let '(data, mid) := partitionEqual_func data a b pivot in
          pdqsort_loop depth' data mid b limit wasBalanced wasPartitioned
        else
          let '(data, mid, alreadyPartitioned) := partition_func data a b pivot in
          let wasPartitioned := alreadyPartitioned in
          let leftLen := mid - a in
          let rightLen := b - mid in
          let balanceThreshold := Z.quot length 8 in
          if leftLen <? rightLen then
            let wasBalanced := balanceThreshold <=? leftLen in
            let data := pdqsort_loop depth' data a mid limit true true in
            pdqsort_loop depth' data (mid + 1) b limit wasBalanced wasPartitioned
          else
            let wasBalanced := balanceThreshold <=? rightLen in
            let data := pdqsort_loop depth' data (mid + 1) b limit true true in
            pdqsort_loop depth' data a mid limit wasBalanced wasPartitioned
  end.

Definition pdqsort_func (data : list A) (a b limit : Z) : list A :=
  pdqsort_loop (Z.to_nat (b - a)) data a b limit true true.

Definition Slice (x : list A) : list A :=
  let length := Z.of_nat (List.length x) in
  let limit := bits_Len length in
  pdqsort_func x 0 length limit.

End lessSwap.
End sort.

(** ** Package [domain] (internal/domain/models.go) *)

Module User.
Record t := mk { ID : string; Name : string; CreatedAt : Time; UpdatedAt : Time }.
End User.

Module CalendarEvent.
Record t := mk {
  ID : string;
  Title : string;
  StartTime : Time;
  EndTime : Time;
  UserID : string;
  CreatedAt : Time;
  UpdatedAt : Time
}.
End CalendarEvent.

Module TimeRange.
Record t := mk { Start : Time; End : Time }.
End TimeRange.

Module ScheduleRequest.
Record t := mk {
  ParticipantIDs : list string;
  DurationMinutes : Z;
  TimeRange : TimeRange.t;
  Title : string
}.
End ScheduleRequest.

Module ScheduleResponse.
Record t := mk {
  MeetingID : string;
  Title : string;
  ParticipantIDs : list string;
  StartTime : Time;
  EndTime : Time
}.
End ScheduleResponse.

(** The [events] argument of the search: [map[string][]domain.CalendarEvent]. *)
Abbreviation Events := (gmap string (list CalendarEvent.t)).

(** ** Errors

    The four package-level error values of the service, and the values that
    [validateScheduleRequest] makes on the spot with [errors.New]. *)
Inductive error :=
| ErrInvalidRequest
| ErrNoAvailableSlot
| ErrUserNotFound
| ErrInternalError
| errors_New (text : string).

(** ** Ranging over a map

    Go leaves the order in which a [range] statement visits the entries of a
    map open, and it may change from one statement to the next. The search has
    three such statements; each is run once for a given slot. [MapRange] is
    the choice the runtime makes: the entries of [events] in the order in which
    the statement visits them. *)
Inductive RangeStmt :=
| range_isSlotAvailable
| range_gapMinimizationScore
| range_bufferTimeScore.

Definition MapRange :=
  Events -> RangeStmt -> Time -> Time -> list (string * list CalendarEvent.t).

Definition MapRange_ok (mapRange : MapRange) : Prop :=
  forall events stmt start end_, mapRange events stmt start end_ ≡ₚ map_to_list events.

(** The listing of a map by [map_to_list] is one of the orders a [range]
    statement may take. *)
Definition mapRange_listing : MapRange := fun events _ _ _ => map_to_list events.

(** ** Package [algorithm] (pkg/algorithm/scheduler.go) *)

Definition workingHoursWeight : float := 1.0.
Definition earlySlotWeight : float := 0.8.
Definition gapMinimizationWeight : float := 0.6.
Definition bufferTimeWeight : float := 0.4.

Definition desiredBufferTime : Z := 15.

Definition workDayStart : Z := 9.
Definition workDayEnd : Z := 17.

Module TimeSlot.
Record t := mk { Start : Time; End : Time; Score : float }.
End TimeSlot.

Section algorithm.

Variable mapRange : MapRange.

(** The inner loop of [isSlotAvailable], over one participant's events. *)
Fixpoint isSlotAvailable_events (start end_ : Time) (userEvents : list CalendarEvent.t) : bool :=
  match userEvents with
  | [] => true
  | event :: userEvents' =>
      if negb (Before end_ (CalendarEvent.StartTime event)
               || After start (CalendarEvent.EndTime event))
      then false
      else isSlotAvailable_events start end_ userEvents'
  end.

(** The outer loop, over the entries the [range] statement yields. *)
Fixpoint isSlotAvailable_range (start end_ : Time)
    (entries : list (string * list CalendarEvent.t)) : bool :=
  match entries with
  | [] => true
  | (_, userEvents) :: entries' =>
      if isSlotAvailable_events start end_ userEvents
      then isSlotAvailable_range start end_ entries'
      else false
  end.

Definition isSlotAvailable (start end_ : Time) (events : Events) : bool :=
  isSlotAvailable_range start end_ (mapRange events range_isSlotAvailable start end_).

(** [time.Duration(req.DurationMinutes) * time.Minute], an [int64] product. *)
Definition requestDuration (req : ScheduleRequest.t) : Duration :=
  wrap64 (ScheduleRequest.DurationMinutes req * Minute).

(** The [for current.Before(req.TimeRange.End)] loop of [findAvailableSlots];
    [rounds] bounds the number of times its body runs. *)
Fixpoint findAvailableSlots_loop (rounds : nat) (req : ScheduleRequest.t) (events : Events)
    (slots : list TimeSlot.t) (current : Time) : list TimeSlot.t :=
  match rounds with
  | O => slots
  | S rounds' =>
      if Before current (TimeRange.End (ScheduleRequest.TimeRange req)) then
        let slotEnd := Add current (requestDuration req) in
        let slots :=
          if Before slotEnd (TimeRange.End (ScheduleRequest.TimeRange req))
             && isSlotAvailable current slotEnd events
          then slots ++ [ {| TimeSlot.Start := current; TimeSlot.End := slotEnd;
                             TimeSlot.Score := 0 |} ]
          else slots in
        findAvailableSlots_loop rounds' req events slots (Add current (15 * Minute))
      else slots
  end.

(** The number of instants [Start + k * 15min] before [End]: after that many
    rounds the loop condition is false. *)
Definition findAvailableSlots_rounds (req : ScheduleRequest.t) : nat :=
  Z.to_nat ((instant (TimeRange.End (ScheduleRequest.TimeRange req))
             - instant (TimeRange.Start (ScheduleRequest.TimeRange req))
             + 15 * Minute - 1) / (15 * Minute)).

Definition findAvailableSlots (req : ScheduleRequest.t) (events : Events) : list TimeSlot.t :=
  findAvailableSlots_loop (findAvailableSlots_rounds req) req events []
    (TimeRange.Start (ScheduleRequest.TimeRange req)).

Definition workingHoursScore (slot : TimeSlot.t) : float :=
  let hour := Hour (TimeSlot.Start slot) in
  if (workDayStart <=? hour) && (hour <? workDayEnd) then 1.0%float
  else if (workDayStart - 1 <=? hour) && (hour <? workDayStart)
          || (workDayEnd <=? hour) && (hour <? workDayEnd + 1) then 0.5%float
  else 0.0%float.

Definition earlySlotScore (slot : TimeSlot.t) : float :=
  let hour := float64 (Hour (TimeSlot.Start slot)) in
  if (float64 workDayStart <=? hour)%float && (hour <=? float64 workDayEnd)%float
  then (1.0 - (hour - float64 workDayStart) / float64 (workDayEnd - workDayStart))%float
  else 0.0%float.

(** The inner loop of [gapMinimizationScore]: one participant's events,
    [score] being the running product. *)
Fixpoint gapMinimizationScore_events (slot : TimeSlot.t) (userEvents : list CalendarEvent.t)
    (score : float) : float :=
  match userEvents with
  | [] => score
  | event :: userEvents' =>
      let score :=
        if Before (CalendarEvent.EndTime event) (TimeSlot.Start slot) then
          let gap := Minutes (Sub (TimeSlot.Start slot) (CalendarEvent.EndTime event)) in
          if (gap <? float64 desiredBufferTime)%float then (score * 0.5)%float
          else if (60 <? gap)%float then (score * 0.8)%float
          else score
        else score in
      let score :=
        if After (CalendarEvent.StartTime event) (TimeSlot.End slot) then
          let gap := Minutes (Sub (CalendarEvent.StartTime event) (TimeSlot.End slot)) in
          if (gap <? float64 desiredBufferTime)%float then (score * 0.5)%float
          else if (60 <? gap)%float then (score * 0.8)%float
          else score
        else score in
      gapMinimizationScore_events slot userEvents' score
  end.

(** The outer loop: [totalScore] and [count] over the entries of the map. *)
Fixpoint gapMinimizationScore_range (slot : TimeSlot.t)
    (entries : list (string * list CalendarEvent.t)) (totalScore : float) (count : Z)
    : float * Z :=
  match entries with
  | [] => (totalScore, count)
  | (_, userEvents) :: entries' =>
      let score := gapMinimizationScore_events slot userEvents 1.0%float in
      gapMinimizationScore_range slot entries' (totalScore + score)%float (count + 1)
  end.

Definition gapMinimizationScore (slot : TimeSlot.t) (events : Events) : float :=
  let '(totalScore, count) :=
    gapMinimizationScore_range slot
      (mapRange events range_gapMinimizationScore (TimeSlot.Start slot) (TimeSlot.End slot))
      0%float 0 in
  if count =? 0 then 1.0%float else (totalScore / float64 count)%float.

Fixpoint bufferTimeScore_events (slot : TimeSlot.t) (userEvents : list CalendarEvent.t)
    (score : float) : float :=
  match userEvents with
  | [] => score
  | event :: userEvents' =>
      let score :=
        if Before (CalendarEvent.EndTime event) (TimeSlot.Start slot) then
          let bufferBefore := Minutes (Sub (TimeSlot.Start slot) (CalendarEvent.EndTime event)) in
          if (bufferBefore <? float64 desiredBufferTime)%float
          then (score * (bufferBefore / float64 desiredBufferTime))%float
          else score
        else score in
      let score :=
        if After (CalendarEvent.StartTime event) (TimeSlot.End slot) then
          let bufferAfter := Minutes (Sub (CalendarEvent.StartTime event) (TimeSlot.End slot)) in
          if (bufferAfter <? float64 desiredBufferTime)%float
          then (score * (bufferAfter / float64 desiredBufferTime))%float
          else score
        else score in
      bufferTimeScore_events slot userEvents' score
  end.

Fixpoint bufferTimeScore_range (slot : TimeSlot.t)
    (entries : list (string * list CalendarEvent.t)) (totalScore : float) (count : Z)
    : float * Z :=
  match entries with
  | [] => (totalScore, count)
  | (_, userEvents) :: entries' =>
      let score := bufferTimeScore_events slot userEvents 1.0%float in
      bufferTimeScore_range slot entries' (totalScore + score)%float (count + 1)
  end.

Definition bufferTimeScore (slot : TimeSlot.t) (events : Events) : float :=
  let '(totalScore, count) :=
    bufferTimeScore_range slot
      (mapRange events range_bufferTimeScore (TimeSlot.Start slot) (TimeSlot.End slot))
      0%float 0 in
  if count =? 0 then 1.0%float else (totalScore / float64 count)%float.

(** [var score float64] followed by four [score += ...]. *)
Definition calculateSlotScore (slot : TimeSlot.t) (events : Events) : float :=
  let score := 0%float in
  let score := (score + workingHoursScore slot * workingHoursWeight)%float in
  let score := (score + earlySlotScore slot * earlySlotWeight)%float in
  let score := (score + gapMinimizationScore slot events * gapMinimizationWeight)%float in
  let score := (score + bufferTimeScore slot events * bufferTimeWeight)%float in
  score.

(** [for i := range slots { slots[i].Score = calculateSlotScore(slots[i], events) }] *)
Definition scoreSlots (slots : list TimeSlot.t) (events : Events) : list TimeSlot.t :=
  map (fun slot =>
         {| TimeSlot.Start := TimeSlot.Start slot;
            TimeSlot.End := TimeSlot.End slot;
            TimeSlot.Score := calculateSlotScore slot events |}) slots.

(** The [less] that [FindOptimalSlot] hands to [sort.Slice]:
    [scoredSlots[i].Score > scoredSlots[j].Score]. *)
Definition higherScore (x y : TimeSlot.t) : bool :=
  (TimeSlot.Score y <? TimeSlot.Score x)%float.

(** The result is the pair of a [*TimeSlot] and an [error];
    [&scoredSlots[0]] is the head of the sorted slice. *)
Definition FindOptimalSlot (req : ScheduleRequest.t) (events : Events)
    : option TimeSlot.t * option error :=
  let availableSlots := findAvailableSlots req events in
  if Z.of_nat (length availableSlots) =? 0 then (None, None)
  else
    let scoredSlots := scoreSlots availableSlots events in
    let scoredSlots := sort.Slice higherScore scoredSlots in
    (head scoredSlots, None).

End algorithm.

(** ** Package [service] (internal/service) *)

(** *** The [Repository] interface

    A call of one of its methods is a step the service asks its environment
    to take; [Prog R] is a computation that makes such calls and returns an
    [R]. The [ctx] argument is passed along unchanged and is left out. *)
Inductive Repository : Type -> Type :=
| GetUser (id : string) : Repository (option User.t * option error)
| GetUserEvents (userID : string) (start end_ : Time)
    : Repository (list CalendarEvent.t * option error)
| CreateEvent (event : CalendarEvent.t) : Repository (option error).

Inductive Prog (R : Type) : Type :=
| Ret (r : R)
| Do {X : Type} (call : Repository X) (k : X -> Prog R).

Arguments Ret {R} r.
Arguments Do {R X} call k.

(** One call of a run, with what the repository answered. *)
Inductive Answered :=
| answered {X : Type} (call : Repository X) (answer : X).

(** [exec p calls r]: [p] can run to the result [r], the repository being
    called, and answering, as [calls] lists. *)
Fixpoint exec {R : Type} (p : Prog R) (calls : list Answered) (r : R) : Prop :=
  match p with
  | Ret r' => calls = [] /\ r = r'
  | Do call k =>
      exists answer rest, calls = answered call answer :: rest /\ exec (k answer) rest r
  end.

Section service.

Variable mapRange : MapRange.

(** [time.Time.AddDate], the standard library's calendar arithmetic. *)
Variable AddDate : Time -> Z -> Z -> Z -> Time.

(** [uuid.New().String()] as [generateMeetingID] gets it, and what
    [domain.NewCalendarEvent] draws for a participant's event: its [ID] and
    the two readings of the clock. *)
Variable meetingID : string.
Variable newEvent : string -> string * Time * Time.

(** The loop of [validateScheduleRequest] over [req.ParticipantIDs];
    a key that [participantMap] lacks reads as [false]. *)
Fixpoint validateParticipantIDs (ids : list string) (participantMap : gmap string bool)
    : option error :=
  match ids with
  | [] => None
  | id :: ids' =>
      if bool_decide (id = "") then
        Some (errors_New "participant ID cannot be empty")
      else if default false (participantMap !! id) then
        Some (errors_New "duplicate participant IDs are not allowed")
      else validateParticipantIDs ids' (<[id := true]> participantMap)
  end.

(** [now] is what [time.Now()] returns when the function reads the clock. *)
Definition validateScheduleRequest (now : Time) (req : ScheduleRequest.t) : option error :=
  if Z.of_nat (length (ScheduleRequest.ParticipantIDs req)) =? 0 then
    Some (errors_New "at least one participant is required")
  else
  match validateParticipantIDs (ScheduleRequest.ParticipantIDs req) ∅ with
  | Some err => Some err
  | None =>
  if ScheduleRequest.DurationMinutes req <=? 0 then
    Some (errors_New "duration must be greater than 0 minutes")
  else if 480 <? ScheduleRequest.DurationMinutes req then
    Some (errors_New "duration cannot exceed 8 hours (480 minutes)")
  else if IsZero (TimeRange.Start (ScheduleRequest.TimeRange req)) then
    Some (errors_New "start time is required")
  else if IsZero (TimeRange.End (ScheduleRequest.TimeRange req)) then
    Some (errors_New "end time is required")
  else if After (TimeRange.Start (ScheduleRequest.TimeRange req))
                (TimeRange.End (ScheduleRequest.TimeRange req)) then
    Some (errors_New "start time must be before end time")
  else if Before (TimeRange.Start (ScheduleRequest.TimeRange req)) now then
    Some (errors_New "start time cannot be in the past. Please enter a valid future start date.")
  else
  let maxFuture := AddDate now 1 0 0 in
  if After (TimeRange.End (ScheduleRequest.TimeRange req)) maxFuture then
    Some (errors_New "end time cannot be more than 1 year in the future")
  else
  let duration := wrap64 (ScheduleRequest.DurationMinutes req * Minute) in
  if After (Add (TimeRange.Start (ScheduleRequest.TimeRange req)) duration)
           (TimeRange.End (ScheduleRequest.TimeRange req)) then
    Some (errors_New "duration does not fit within the specified time range")
  else None
  end.

Definition generateMeetingID : string := meetingID.

Definition NewCalendarEvent (title : string) (startTime endTime : Time) (userID : string)
    : CalendarEvent.t :=
  let '(id, createdAt, updatedAt) := newEvent userID in
  {| CalendarEvent.ID := id;
     CalendarEvent.Title := title;
     CalendarEvent.StartTime := startTime;
     CalendarEvent.EndTime := endTime;
     CalendarEvent.UserID := userID;
     CalendarEvent.CreatedAt := createdAt;
     CalendarEvent.UpdatedAt := updatedAt |}.

(** The three loops of [Schedule] over [req.ParticipantIDs]; each hands on to
    [k] when it ran to its end and returns from [Schedule] otherwise. *)
Fixpoint Schedule_users {R : Type} (ids : list string)
    (k : Prog (option R * option error)) : Prog (option R * option error) :=
  match ids with
  | [] => k
  | userID :: ids' =>
      Do (GetUser userID) (fun '(_, err) =>
        match err with
        | Some _ => Ret (None, Some ErrUserNotFound)
        | None => Schedule_users ids' k
        end)
  end.

Fixpoint Schedule_events {R : Type} (req : ScheduleRequest.t) (ids : list string)
    (allEvents : Events) (k : Events -> Prog (option R * option error))
    : Prog (option R * option error) :=
  match ids with
  | [] => k allEvents
  | userID :: ids' =>
      Do (GetUserEvents userID (TimeRange.Start (ScheduleRequest.TimeRange req))
                        (TimeRange.End (ScheduleRequest.TimeRange req)))
         (fun '(events, err) =>
            match err with
            | Some _ => Ret (None, Some ErrInternalError)
            | None => Schedule_events req ids' (<[userID := events]> allEvents) k
            end)
  end.

Fixpoint Schedule_create {R : Type} (meetingTitle : string) (slot : TimeSlot.t)
    (ids : list string) (k : Prog (option R * option error))
    : Prog (option R * option error) :=
  match ids with
  | [] => k
  | userID :: ids' =>
      let event :=
        NewCalendarEvent meetingTitle (TimeSlot.Start slot) (TimeSlot.End slot) userID in
      Do (CreateEvent event) (fun err =>
        match err with
        | Some _ => Ret (None, Some ErrInternalError)
        | None => Schedule_create meetingTitle slot ids' k
        end)
  end.

(** [now] is the clock as [validateScheduleRequest] reads it. *)
Definition Schedule (now : Time) (req : ScheduleRequest.t)
    : Prog (option ScheduleResponse.t * option error) :=
  match validateScheduleRequest now req with
  | Some err => Ret (None, Some err)
  | None =>
      Schedule_users (ScheduleRequest.ParticipantIDs req)
        (Schedule_events req (ScheduleRequest.ParticipantIDs req) ∅ (fun allEvents =>
           let '(slot, err) := FindOptimalSlot mapRange req allEvents in
           match err with
           | Some _ => Ret (None, Some ErrInternalError)
           | None =>
           match slot with
           | None => Ret (None, Some ErrNoAvailableSlot)
           | Some slot =>
               let meetingID := generateMeetingID in
               let meetingTitle :=
                 if bool_decide (ScheduleRequest.Title req = "") then "New Meeting"
                 else ScheduleRequest.Title req in
               Schedule_create meetingTitle slot (ScheduleRequest.ParticipantIDs req)
                 (Ret (Some {| ScheduleResponse.MeetingID := meetingID;
                               ScheduleResponse.Title := meetingTitle;
                               ScheduleResponse.ParticipantIDs :=
                                 ScheduleRequest.ParticipantIDs req;
                               ScheduleResponse.StartTime := TimeSlot.Start slot;
                               ScheduleResponse.EndTime := TimeSlot.End slot |},
                       None))
           end
           end))
  end.

End service.

(** *** [GetUserCalendar]

    A [nil] slice and an empty one are both the empty list. *)
Definition GetUserCalendar (userID : string) (start end_ : Time)
    : Prog (list CalendarEvent.t * option error) :=
  Do (GetUser userID) (fun '(_, err) =>
    match err with
    | Some _ => Ret ([], Some ErrUserNotFound)
    | None =>
        Do (GetUserEvents userID start end_) (fun '(events, err) =>
          match err with
          | Some _ => Ret ([], Some ErrInternalError)
          | None =>
              if Z.of_nat (length events) =? 0 then
                Ret ([], Some (errors_New
                       "no meetings found for the specified user and time window"))
              else Ret (events, None)
          end)
    end).

(** *** The [SchedulerService] interface and [NewService]

    A value of the interface is its two methods. The service that
    [NewService] makes is given here with what a call of [Schedule] draws from
    outside the repository: the order of the map's entries, the calendar, the
    identifiers and the clock. *)
Record SchedulerService := {
  SchedulerService_Schedule :
    ScheduleRequest.t -> Prog (option ScheduleResponse.t * option error);
  SchedulerService_GetUserCalendar :
    string -> Time -> Time -> Prog (list CalendarEvent.t * option error) }.

Definition NewService (mapRange : MapRange) (AddDate : Time -> Z -> Z -> Z -> Time)
    (meetingID : string) (newEvent : string -> string * Time * Time) (now : Time)
    : SchedulerService :=
  {| SchedulerService_Schedule := Schedule mapRange AddDate meetingID newEvent now;
     SchedulerService_GetUserCalendar := GetUserCalendar |}.

(** [err.Error()]: the text an error value was made with. *)
Definition Error (err : error) : string :=
  match err with
  | ErrInvalidRequest => "invalid request parameters"
  | ErrNoAvailableSlot => "no available time slot found for all participants"
  | ErrUserNotFound => "user not found"
  | ErrInternalError => "internal server error"
  | errors_New text => text
  end.

(** [err1 == err2] on error values: the package's four values are equal to
    themselves only, and a value fresh from [errors.New] is none of them. *)
Definition error_eqb (err1 err2 : error) : bool :=
  match err1, err2 with
  | ErrInvalidRequest, ErrInvalidRequest
  | ErrNoAvailableSlot, ErrNoAvailableSlot
  | ErrUserNotFound, ErrUserNotFound
  | ErrInternalError, ErrInternalError => true
  | errors_New text1, errors_New text2 => bool_decide (text1 = text2)
  | _, _ => false
  end.

(** Running one computation after another. *)
Fixpoint bind {R S : Type} (p : Prog R) (f : R -> Prog S) : Prog S :=
  match p with
  | Ret r => f r
  | Do call k => Do call (fun answer => bind (k answer) f)
  end.

(** ** Package [endpoint] (internal/endpoint/endpoints.go) *)

Module GetUserCalendarRequest.
Record t := mk { UserID : string; Start : Time; End : Time }.
End GetUserCalendarRequest.

(** The values of type [interface{}] that the endpoints take and return: the
    [nil] interface, the two requests, a [*domain.ScheduleResponse] (which
    may be a [nil] pointer inside a non-[nil] interface) and a slice of
    events. *)
Inductive any :=
| any_nil
| any_ScheduleRequest (req : ScheduleRequest.t)
| any_GetUserCalendarRequest (req : GetUserCalendarRequest.t)
| any_ScheduleResponse (resp : option ScheduleResponse.t)
| any_CalendarEvents (events : list CalendarEvent.t).

(** A call returns, or panics: a type assertion [x.(T)] panics when [x] does
    not hold a [T]. *)
Inductive outcome (R : Type) :=
| returns (r : R)
| panics.

Arguments returns {R} r.
Arguments panics {R}.

(** [endpoint.Endpoint] of go-kit:
    [func(ctx, request interface{}) (interface{}, error)]. *)
Definition Endpoint := any -> Prog (outcome (any * option error)).

Module Endpoints.
Record t := mk { Schedule : Endpoint; GetUserCalendar : Endpoint }.
End Endpoints.

Definition makeScheduleEndpoint (s : SchedulerService) : Endpoint :=
  fun request =>
    match request with
    | any_ScheduleRequest req =>
        bind (SchedulerService_Schedule s req) (fun '(resp, err) =>
          match err with
          | Some e =>
              if negb (String.eqb (Error e) (Error ErrInvalidRequest)) then
                Ret (returns (any_nil, err))
              else Ret (returns (any_ScheduleResponse resp, err))
          | None => Ret (returns (any_ScheduleResponse resp, err))
          end)
    | _ => Ret panics
    end.

Definition makeGetUserCalendarEndpoint (s : SchedulerService) : Endpoint :=
  fun request =>
    match request with
    | any_GetUserCalendarRequest req =>
        bind (SchedulerService_GetUserCalendar s
                (GetUserCalendarRequest.UserID req)
                (GetUserCalendarRequest.Start req)
                (GetUserCalendarRequest.End req))
             (fun '(events, err) => Ret (returns (any_CalendarEvents events, err)))
    | _ => Ret panics
    end.

Definition MakeEndpoints (s : SchedulerService) : Endpoints.t :=
  {| Endpoints.Schedule := makeScheduleEndpoint s;
     Endpoints.GetUserCalendar := makeGetUserCalendarEndpoint s |}.

(** ** Package [transport] (internal/transport/http.go): [encodeError] *)

Definition StatusBadRequest : Z := 400.
Definition StatusNotFound : Z := 404.
Definition StatusConflict : Z := 409.
Definition StatusInternalServerError : Z := 500.

(** What a handler does to its [http.ResponseWriter], in the order in which
    it does it: [w.Header().Set(key, value)], [w.WriteHeader(statusCode)] and
    [json.NewEncoder(w).Encode(v)] for a [map[string]string] of one entry. *)
Inductive Written :=
| Header_Set (key value : string)
| WriteHeader (statusCode : Z)
| Encode (key value : string).

Definition encodeError (err : error) (w : list Written) : list Written :=
  let w := w ++ [Header_Set "Content-Type" "application/json; charset=utf-8"] in
  let w :=
    if error_eqb err ErrInvalidRequest then w ++ [WriteHeader StatusBadRequest]
    else if error_eqb err ErrNoAvailableSlot then w ++ [WriteHeader StatusConflict]
    else if error_eqb err ErrUserNotFound then w ++ [WriteHeader StatusNotFound]
    else w ++ [WriteHeader StatusInternalServerError] in
  w ++ [Encode "error" (Error err)].

(** ** [MockRepository] (internal/service/service_test.go)

    The repository of the service's tests: two maps, held in memory. *)
Module MockRepository.

Record t := mk {
  users : gmap string User.t;
  events : gmap string (list CalendarEvent.t) }.

Definition NewMockRepository : t := {| users := ∅; events := ∅ |}.

Definition GetUser (m : t) (id : string) : option User.t * option error :=
  match users m !! id with
  | None => (None, Some ErrUserNotFound)
  | Some user => (Some user, None)
  end.

(** The test of the loop of [GetUserEvents]: the event starts at or after
    [start] and ends at or before [end_]. *)
Definition within (start end_ : Time) (event : CalendarEvent.t) : bool :=
  (Equal (CalendarEvent.StartTime event) start || After (CalendarEvent.StartTime event) start)
  && (Equal (CalendarEvent.EndTime event) end_ || Before (CalendarEvent.EndTime event) end_).

Fixpoint GetUserEvents_loop (start end_ : Time) (events filtered : list CalendarEvent.t)
    : list CalendarEvent.t :=
  match events with
  | [] => filtered
  | event :: events' =>
      if within start end_ event
      then GetUserEvents_loop start end_ events' (filtered ++ [event])
      else GetUserEvents_loop start end_ events' filtered
  end.

(** [m.events[userID]] of a key the map lacks is the [nil] slice. *)
Definition GetUserEvents (m : t) (userID : string) (start end_ : Time)
    : list CalendarEvent.t * option error :=
  let events := default [] (events m !! userID) in
  (GetUserEvents_loop start end_ events [], None).

Definition CreateEvent (m : t) (event : CalendarEvent.t) : t * option error :=
  ({| users := users m;
      events := <[CalendarEvent.UserID event :=
                    default [] (events m !! CalendarEvent.UserID event) ++ [event]]>
                (events m) |},
   None).

End MockRepository.

(** The repository answers a call and is left in a new state. *)
Definition MockRepository_answer {X : Type} (m : MockRepository.t) (call : Repository X)
    : X * MockRepository.t :=
  match call with
  | GetUser id => (MockRepository.GetUser m id, m)
  | GetUserEvents userID start end_ => (MockRepository.GetUserEvents m userID start end_, m)
  | CreateEvent event =>
      let '(m', err) := MockRepository.CreateEvent m event in (err, m')
  end.

(** A computation run against a [MockRepository]: its result, the state it
    leaves the repository in, and the calls it made. *)
Fixpoint run {R : Type} (p : Prog R) (m : MockRepository.t)
    : R * MockRepository.t * list Answered :=
  match p with
  | Ret r => (r, m, [])
  | Do call k =>
      let '(x, m') := MockRepository_answer m call in
      let '(r, m'', calls) := run (k x) m' in
      (r, m'', answered call x :: calls)
  end.

(** ** [getEnv] (cmd/server/main.go, scripts/migrate.go)

    The environment is a map from names to values; [os.Getenv] returns the
    empty string for a name that is not set. *)
Definition os_Getenv (environ : gmap string string) (key : string) : string :=
  default "" (environ !! key).

Definition getEnv (environ : gmap string string) (key defaultValue : string) : string :=
  let value := os_Getenv environ key in
  if negb (String.eqb value "") then value else defaultValue.

(** * The specification's notions

    What the specification says in its own words, to be compared with the
    code above. *)

(** A candidate [start, end_] is free of the busy interval [b]: it ends
    strictly before [b] starts, or starts strictly after [b] ends. *)
Definition isFree (start end_ : Time) (b : CalendarEvent.t) : Prop :=
  instant end_ < instant (CalendarEvent.StartTime b)
  \/ instant (CalendarEvent.EndTime b) < instant start.

(** Free of every busy interval of every participant. *)
Definition freeForAll (start end_ : Time) (events : Events) : Prop :=
  forall user userEvents b,
    events !! user = Some userEvents -> b ∈ userEvents -> isFree start end_ b.

(** The [k]-th instant of the 15-minute grid that starts at the window's
    start, and the candidate that starts there. *)
Definition gridStart (req : ScheduleRequest.t) (k : nat) : Time :=
  Add (TimeRange.Start (ScheduleRequest.TimeRange req)) (Z.of_nat k * (15 * Minute)).

Definition candidateAt (req : ScheduleRequest.t) (k : nat) : TimeSlot.t :=
  {| TimeSlot.Start := gridStart req k;
     TimeSlot.End := Add (gridStart req k) (requestDuration req);
     TimeSlot.Score := 0 |}.

(** What the enumeration asks of the candidate at the grid instant [k]: it
    starts before the window's end, ends strictly before it, and is
    available. *)
Definition produced (mapRange : MapRange) (req : ScheduleRequest.t) (events : Events)
    (k : nat) : bool :=
  Before (gridStart req k) (TimeRange.End (ScheduleRequest.TimeRange req))
  && (Before (TimeSlot.End (candidateAt req k)) (TimeRange.End (ScheduleRequest.TimeRange req))
      && isSlotAvailable mapRange (gridStart req k) (TimeSlot.End (candidateAt req k)) events).

(** The two penalties of the gap-based sub-scores, on a participant's
    accumulator [acc] and a gap in minutes. *)
Definition gapPenalty (acc gap : float) : float :=
  if (gap <? 15)%float then (acc * 0.5)%float
  else if (60 <? gap)%float then (acc * 0.8)%float
  else acc.

Definition bufferPenalty (acc gap : float) : float :=
  if (gap <? 15)%float then (acc * (gap / 15.0))%float else acc.

(** The gap in minutes between the candidate and a busy interval that ends
    strictly before the candidate starts or starts strictly after it ends;
    no gap for an interval that does neither. *)
Definition gapMinutes (slot : TimeSlot.t) (b : CalendarEvent.t) : option float :=
  if Before (CalendarEvent.EndTime b) (TimeSlot.Start slot) then
    Some (Minutes (Sub (TimeSlot.Start slot) (CalendarEvent.EndTime b)))
  else if After (CalendarEvent.StartTime b) (TimeSlot.End slot) then
    Some (Minutes (Sub (CalendarEvent.StartTime b) (TimeSlot.End slot)))
  else None.

(** One step of a participant's fold, as the specification words it ... *)
Definition foldStep (penalty : float -> float -> float) (slot : TimeSlot.t)
    (acc : float) (b : CalendarEvent.t) : float :=
  match gapMinutes slot b with
  | Some gap => penalty acc gap
  | None => acc
  end.

(** ... and with the two sides looked at one after the other. *)
Definition foldStep_sides (penalty : float -> float -> float) (slot : TimeSlot.t)
    (acc : float) (b : CalendarEvent.t) : float :=
  let acc :=
    if Before (CalendarEvent.EndTime b) (TimeSlot.Start slot)
    then penalty acc (Minutes (Sub (TimeSlot.Start slot) (CalendarEvent.EndTime b)))
    else acc in
  if After (CalendarEvent.StartTime b) (TimeSlot.End slot)
  then penalty acc (Minutes (Sub (CalendarEvent.StartTime b) (TimeSlot.End slot)))
  else acc.

(** A participant's accumulator: the fold over the busy intervals, from 1.0. *)
Definition participantFactor (penalty : float -> float -> float) (slot : TimeSlot.t)
    (userEvents : list CalendarEvent.t) : float :=
  fold_left (foldStep_sides penalty slot) userEvents 1.0%float.

(** The average of the participants' accumulators, 1.0 when there is none. *)
Definition average (factors : list float) : float :=
  match factors with
  | [] => 1.0%float
  | _ => (fold_left PrimFloat.add factors 0 / float64 (Z.of_nat (length factors)))%float
  end.

(** The [participantMap] of [validateScheduleRequest] holds [true] for the
    identifiers of [seen], the ones the loop has been through. *)
Definition holds (participantMap : gmap string bool) (seen : list string) : Prop :=
  forall id, default false (participantMap !! id) = true <-> id ∈ seen.

(** The identifier [id] at position [i] is the first that check 2 or check 3
    objects to: it is empty or repeats an earlier one, and no identifier
    before it is or does. *)
Definition firstOffender (ids : list string) (i : nat) (id : string) : Prop :=
  ids !! i = Some id
  /\ ("" ∉ take i ids)
  /\ NoDup (take i ids)
  /\ (id = "" \/ id ∈ take i ids).

(** The calls of a run of [Schedule] in which every lookup succeeds: one
    [GetUser] for each participant, answered with [users], then one
    [GetUserEvents] for each, answered with [fetched]; and the map the
    service collects the answers in. *)
Definition usersFound (ids : list string) (users : list (option User.t)) : list Answered :=
  zip_with (fun id user => answered (GetUser id) (user, None)) ids users.

Definition eventsFetched (req : ScheduleRequest.t) (ids : list string)
    (fetched : list (list CalendarEvent.t)) : list Answered :=
  zip_with (fun id userEvents =>
              answered (GetUserEvents id (TimeRange.Start (ScheduleRequest.TimeRange req))
                                      (TimeRange.End (ScheduleRequest.TimeRange req)))
                       (userEvents, None)) ids fetched.

Definition collected (ids : list string) (fetched : list (list CalendarEvent.t))
    (allEvents : Events) : Events :=
  fold_left (fun allEvents entry => <[entry.1 := entry.2]> allEvents) (zip ids fetched) allEvents.

(** ** The calls of a run of [Schedule] that creates the meeting

    The title the meeting gets, the [CreateEvent] calls, one for each
    participant and each answered without an error, and the response. *)
Definition meetingTitle (req : ScheduleRequest.t) : string :=
  if bool_decide (ScheduleRequest.Title req = "") then "New Meeting"
  else ScheduleRequest.Title req.

Definition eventCreated (newEvent : string -> string * Time * Time)
    (req : ScheduleRequest.t) (slot : TimeSlot.t) (userID : string) : CalendarEvent.t :=
  NewCalendarEvent newEvent (meetingTitle req) (TimeSlot.Start slot) (TimeSlot.End slot) userID.

Definition eventsCreated (newEvent : string -> string * Time * Time)
    (req : ScheduleRequest.t) (slot : TimeSlot.t) (ids : list string) : list Answered :=
  map (fun userID => answered (CreateEvent (eventCreated newEvent req slot userID)) None) ids.

Definition responseFor (meetingID : string) (req : ScheduleRequest.t) (slot : TimeSlot.t)
    : ScheduleResponse.t :=
  {| ScheduleResponse.MeetingID := meetingID;
     ScheduleResponse.Title := meetingTitle req;
     ScheduleResponse.ParticipantIDs := ScheduleRequest.ParticipantIDs req;
     ScheduleResponse.StartTime := TimeSlot.Start slot;
     ScheduleResponse.EndTime := TimeSlot.End slot |}.

(** The events a run was handed: what its [GetUserEvents] calls returned. *)
Definition eventsOf (call : Answered) : list CalendarEvent.t :=
  match call with
  | answered call answer =>
      match call in Repository X return X -> list CalendarEvent.t with
      | GetUserEvents _ _ _ => fun answer => answer.1
      | _ => fun _ => []
      end answer
  end.

Definition eventsSeen (calls : list Answered) : list CalendarEvent.t :=
  concat (map eventsOf calls).

(** ** [Schedule] against a [MockRepository]

    The events the repository holds for a user, what it returns for each
    participant of a request, and the repository after the events of a
    meeting were created for the participants one after the other. *)
Definition stored (m : MockRepository.t) (userID : string) : list CalendarEvent.t :=
  default [] (MockRepository.events m !! userID).

Definition fetchedFrom (m : MockRepository.t) (req : ScheduleRequest.t) (ids : list string)
    : list (list CalendarEvent.t) :=
  map (fun userID =>
         (MockRepository.GetUserEvents m userID
            (TimeRange.Start (ScheduleRequest.TimeRange req))
            (TimeRange.End (ScheduleRequest.TimeRange req))).1) ids.

Definition createdIn (newEvent : string -> string * Time * Time) (req : ScheduleRequest.t)
    (slot : TimeSlot.t) (ids : list string) (m : MockRepository.t) : MockRepository.t :=
  fold_left (fun m userID =>
               (MockRepository.CreateEvent m (eventCreated newEvent req slot userID)).1) ids m.

(** ** Sorting by insertion, on lists

    [bubble less y r] lets [y] move from the head of [r] past the elements
    it is [less] than, and [isortr less x] does so with the elements of [x]
    one after the other: the head of [r] is the last element of the sorted
    slice. *)
Fixpoint bubble {A : Type} (less : A -> A -> bool) (y : A) (r : list A) : list A :=
  match r with
  | [] => [y]
  | z :: r' => if less y z then z :: bubble less y r' else y :: r
  end.

Definition isortr {A : Type} (less : A -> A -> bool) (x : list A) : list A :=
  fold_left (fun r y => bubble less y r) x [].

(** The place of a [float64] that is not NaN in the order of [<]: the sign,
    then the exponent, then the mantissa. *)
Definition SFrank (f : spec_float) : Z * Z * Z :=
  match f with
  | S754_infinity true => (-2, 0, 0)
  | S754_finite true m e => (-1, - e, - Z.pos m)
  | S754_zero _ | S754_nan => (0, 0, 0)
  | S754_finite false m e => (1, e, Z.pos m)
  | S754_infinity false => (2, 0, 0)
  end.

Definition lexlt (p q : Z * Z * Z) : Prop :=
  p.1.1 < q.1.1
  \/ p.1.1 = q.1.1 /\ (p.1.2 < q.1.2 \/ p.1.2 = q.1.2 /\ p.2 < q.2).

(** ** What [sort.Slice] does to a range of the slice *)

(** [moved a b data data']: [data'] is [data] with the elements between [a]
    and [b] moved about among themselves. *)
Definition moved {A : Type} (a b : Z) (data data' : list A) : Prop :=
  length data' = length data
  /\ forall k, exists j,
       sort.index data' k = sort.index data j /\ (j = k \/ a <= k < b /\ a <= j < b).

(** Every element of the slice is one that [less] is an order on. *)
Definition all_ok {A : Type} (ok : A -> Prop) (data : list A) : Prop :=
  forall i x, sort.index data i = Some x -> ok x.

(** The elements from [a] up to, and without, [i] are in order: none is less
    than the one before it. *)
Definition ascending {A : Type} (less : A -> A -> bool) (data : list A) (a i : Z) : Prop :=
  forall k, a < k < i -> sort.Less less data k (k - 1) = false.

(** The nodes from [lo] on are not less than their children, among the
    [hi] elements from [first] on. *)
Definition heap {A : Type} (less : A -> A -> bool) (data : list A) (first lo hi : Z) : Prop :=
  forall k c, lo <= k -> c = 2 * k + 1 \/ c = 2 * k + 2 -> c < hi ->
    sort.Less less data (first + k) (first + c) = false.

(** ** The instants and events of the tests (pkg/algorithm/scheduler_test.go)

    [parseTime("2024-09-01THH:MM:00Z")]: 2024-09-01 00:00:00 UTC is
    63860745600 seconds after the zero instant. *)
Definition on_2024_09_01 (hour minute : Z) : Time :=
  {| instant := 63860745600 * Second + hour * Hour_ + minute * Minute; loc := UTC |}.

(** An event of which the test gives [StartTime] and [EndTime] only. *)
Definition busy (startTime endTime : Time) (userID : string) : CalendarEvent.t :=
  {| CalendarEvent.ID := EmptyString;
     CalendarEvent.Title := EmptyString;
     CalendarEvent.StartTime := startTime;
     CalendarEvent.EndTime := endTime;
     CalendarEvent.UserID := userID;
     CalendarEvent.CreatedAt := mkTime 0 UTC;
     CalendarEvent.UpdatedAt := mkTime 0 UTC |}.

Definition request (participantIDs : list string) (durationMinutes : Z) (start end_ : Time)
    : ScheduleRequest.t :=
  {| ScheduleRequest.ParticipantIDs := participantIDs;
     ScheduleRequest.DurationMinutes := durationMinutes;
     ScheduleRequest.TimeRange := {| TimeRange.Start := start; TimeRange.End := end_ |};
     ScheduleRequest.Title := EmptyString |}.

(** ** Scenario A: a window from 09:00 to 17:00 and nobody busy

    The score of the candidate that starts [k] quarters of an hour after
    09:00: full marks for the working hours, the gaps and the buffers, and
    the early-slot score of its hour. *)
Definition scenario_A_score (k : nat) : float :=
  let hour := float64 (9 + Z.of_nat k / 4) in
  (1.0 * 1.0 + 0.8 * (1.0 - (hour - 9.0) / 8.0) + 0.6 * 1.0 + 0.4 * 1.0)%float.

(** ** Three participants whose afternoons are taken

    A request for 60 minutes between 09:00 and 13:00, and events (all inside
    the window, as [GetUserEvents] returns them) that leave the two candidates
    09:00-10:00 and 09:15-10:15 and lie more than an hour after either, one
    for the first participant, two for the second, three for the third. *)
Definition afternoons : Events :=
  <[ "user1" := [ busy (on_2024_09_01 10 30) (on_2024_09_01 12 0) "user1";
                  busy (on_2024_09_01 12 0) (on_2024_09_01 13 0) "user1" ] ]>
  (<[ "user2" := [ busy (on_2024_09_01 11 30) (on_2024_09_01 12 0) "user2";
                   busy (on_2024_09_01 12 15) (on_2024_09_01 13 0) "user2" ] ]>
  (<[ "user3" := [ busy (on_2024_09_01 11 30) (on_2024_09_01 12 0) "user3";
                   busy (on_2024_09_01 12 0) (on_2024_09_01 12 30) "user3";
                   busy (on_2024_09_01 12 30) (on_2024_09_01 13 0) "user3" ] ]> ∅)).

Definition morning_request : ScheduleRequest.t :=
  request ["user1"; "user2"; "user3"] 60 (on_2024_09_01 9 0) (on_2024_09_01 13 0).

(** A run in which the [range] statement of [gapMinimizationScore] starts two
    entries further on for the slot that starts at [start], every other
    [range] statement taking the entries as [map_to_list] lists them. *)
Definition mapRange_shifted_at (start : Time) : MapRange :=
  fun events stmt slotStart _ =>
    match stmt with
    | range_gapMinimizationScore =>
        if Equal slotStart start then rotate 2 (map_to_list events)
        else map_to_list events
    | _ => map_to_list events
    end.

(** ** A clock and a calendar for the examples

    The instant at which the examples read the clock, 2024-09-01 08:00 UTC,
    and a stand-in for [AddDate] that counts a year as 365 days and a month
    as 30, which is what one year after that instant comes to. *)
Definition now_08_00 : Time := on_2024_09_01 8 0.

Definition addDays (t : Time) (years months days : Z) : Time :=
  Add t ((years * 365 + months * 30 + days) * (24 * Hour_)).

(** ** The repository of [TestSchedule] (internal/service/service_test.go)

    Two users, Alice and Bob, with the events given; a request for the two
    of them, 60 minutes between 09:00 and 17:00; and a service whose clock
    reads 08:00. *)
Definition alice : User.t :=
  {| User.ID := "user1"; User.Name := "Alice";
     User.CreatedAt := mkTime 0 UTC; User.UpdatedAt := mkTime 0 UTC |}.

Definition bob : User.t :=
  {| User.ID := "user2"; User.Name := "Bob";
     User.CreatedAt := mkTime 0 UTC; User.UpdatedAt := mkTime 0 UTC |}.

Definition two_users (events : Events) : MockRepository.t :=
  {| MockRepository.users := <["user1" := alice]> (<["user2" := bob]> ∅);
     MockRepository.events := events |}.

Definition request_for_two : ScheduleRequest.t :=
  request ["user1"; "user2"] 60 (on_2024_09_01 9 0) (on_2024_09_01 17 0).

Definition eventFor (userID : string) : string * Time * Time :=
  ("event-" +:+ userID, now_08_00, now_08_00).

Definition Schedule_at_08_00 (req : ScheduleRequest.t)
    : Prog (option ScheduleResponse.t * option error) :=
  Schedule mapRange_listing addDays "meeting" eventFor now_08_00 req.

(** * Tactics *)

(** Turns the tests of [validateScheduleRequest] into comparisons of
    integers, one case for each way they can turn out. *)
Ltac validate_tests :=
  unfold IsZero, After, Before, Add; cbn [instant];
  repeat match goal with
         | |- context [if ?test then _ else _] => destruct test eqn:?
         end;
  rewrite ?Z.leb_le, ?Z.leb_gt, ?Z.ltb_lt, ?Z.ltb_ge, ?Z.eqb_eq, ?Z.eqb_neq in *;
  try reflexivity; try lia.

(** * Properties *)

(** ** [sort.Slice] rearranges the slice

    Every change the sort makes to the slice is a [Swap]. *)

Section sort_facts.

Context {A : Type} (less : A -> A -> bool).

Lemma sort_Swap_perm (data : list A) i j : sort.Swap data i j ≡ₚ data.
Proof.
  unfold sort.Swap, sort.index.
  destruct (i <? 0); [reflexivity|].
  destruct (data !! Z.to_nat i) as [x|] eqn:Hi; [|reflexivity].
  destruct (j <? 0); [reflexivity|].
  destruct (data !! Z.to_nat j) as [y|] eqn:Hj; [|reflexivity].
  now apply Permutation_insert_swap.
Qed.

Lemma fold_left_perm {I : Type} (f : list A -> I -> list A) (l : list I) :
  (forall data i, f data i ≡ₚ data) -> forall data, fold_left f l data ≡ₚ data.
Proof.
  intros Hf. induction l as [|i l IH]; intros data; simpl; [reflexivity|].
  now rewrite IH, Hf.
Qed.

Lemma sort_insertionShift_perm n : forall (data : list A) a,
  sort.insertionShift less data a n ≡ₚ data.
Proof.
  induction n as [|n IH]; intros data a; simpl; [reflexivity|].
  destruct (sort.Less _ _ _ _); [|reflexivity].
  now rewrite IH, sort_Swap_perm.
Qed.

Lemma sort_insertionSort_perm (data : list A) a b :
  sort.insertionSort_func less data a b ≡ₚ data.
Proof.
  unfold sort.insertionSort_func. apply fold_left_perm.
  intros; apply sort_insertionShift_perm.
Qed.

Lemma sort_siftDown_perm (data : list A) lo hi first :
  sort.siftDown_func less data lo hi first ≡ₚ data.
Proof.
  unfold sort.siftDown_func. generalize (Z.to_nat hi) as n.
  intros n; revert data lo. induction n as [|n IH]; intros data lo; simpl; [reflexivity|].
  destruct (hi <=? _); [reflexivity|].
  destruct (negb _); [reflexivity|].
  now rewrite IH, sort_Swap_perm.
Qed.

Lemma sort_heapSort_perm (data : list A) a b :
  sort.heapSort_func less data a b ≡ₚ data.
Proof.
  unfold sort.heapSort_func.
  rewrite fold_left_perm.
  - apply fold_left_perm. intros; apply sort_siftDown_perm.
  - intros. now rewrite sort_siftDown_perm, sort_Swap_perm.
Qed.

Lemma sort_reverseRange_perm (data : list A) a b :
  sort.reverseRange_func data a b ≡ₚ data.
Proof.
  unfold sort.reverseRange_func. generalize (Z.to_nat (b - a)), (b - 1) as j.
  intros n; revert data a. induction n as [|n IH]; intros data a j; simpl; [reflexivity|].
  destruct (a <? j); [|reflexivity].
  now rewrite IH, sort_Swap_perm.
Qed.

Lemma sort_partition_loop_perm n : forall (data : list A) a i j,
  (sort.partition_loop less n data a i j).1 ≡ₚ data.
Proof.
  induction n as [|n IH]; intros data a i j; simpl; [reflexivity|].
  destruct (_ <? _); simpl; [reflexivity|].
  now rewrite IH, sort_Swap_perm.
Qed.

Lemma sort_partition_perm (data : list A) a b pivot :
  (sort.partition_func less data a b pivot).1.1 ≡ₚ data.
Proof.
  unfold sort.partition_func.
  destruct (_ <? _); simpl; [now rewrite !sort_Swap_perm|].
  destruct (sort.partition_loop _ _ _ _ _ _) as [data' j] eqn:Hloop; simpl.
  rewrite sort_Swap_perm.
  change data' with ((data', j).1). rewrite <- Hloop.
  now rewrite sort_partition_loop_perm, !sort_Swap_perm.
Qed.

Lemma sort_partitionEqual_loop_perm n : forall (data : list A) a i j,
  (sort.partitionEqual_loop less n data a i j).1 ≡ₚ data.
Proof.
  induction n as [|n IH]; intros data a i j; [reflexivity|].
  cbn [sort.partitionEqual_loop].
  destruct (_ <? _); simpl; [reflexivity|].
  now rewrite IH, sort_Swap_perm.
Qed.

Lemma sort_partitionEqual_perm (data : list A) a b pivot :
  (sort.partitionEqual_func less data a b pivot).1 ≡ₚ data.
Proof.
  unfold sort.partitionEqual_func.
  now rewrite sort_partitionEqual_loop_perm, sort_Swap_perm.
Qed.

Lemma sort_shiftLeft_perm n : forall data : list A, sort.shiftLeft less data n ≡ₚ data.
Proof.
  induction n as [|n IH]; intros data; simpl; [reflexivity|].
  destruct (negb _); [reflexivity|].
  now rewrite IH, sort_Swap_perm.
Qed.

Lemma sort_shiftRight_perm n : forall (data : list A) j, sort.shiftRight less data j n ≡ₚ data.
Proof.
  induction n as [|n IH]; intros data j; simpl; [reflexivity|].
  destruct (negb _); [reflexivity|].
  now rewrite IH, sort_Swap_perm.
Qed.

Lemma sort_partialInsertionSort_perm (data : list A) a b :
  (sort.partialInsertionSort_func less data a b).1 ≡ₚ data.
Proof.
  unfold sort.partialInsertionSort_func. generalize 5%nat as n, (a + 1) as i.
  intros n; revert data. induction n as [|n IH]; intros data i; [reflexivity|].
  cbn [sort.partialInsertionSort_loop].
  destruct (_ =? b); [reflexivity|].
  destruct (b - a <? 50); [reflexivity|].
  rewrite IH.
  destruct (2 <=? b - _), (2 <=? _ - a);
    now rewrite ?sort_shiftRight_perm, ?sort_shiftLeft_perm, sort_Swap_perm.
Qed.

Lemma fold_left_state_perm {I S : Type} (f : list A * S -> I -> list A * S) (l : list I) :
  (forall data s i, (f (data, s) i).1 ≡ₚ data) ->
  forall data s, (fold_left f l (data, s)).1 ≡ₚ data.
Proof.
  intros Hf. induction l as [|i l IH]; intros data s; simpl; [reflexivity|].
  specialize (Hf data s i). destruct (f (data, s) i) as [data' s'].
  now rewrite IH.
Qed.

Lemma sort_breakPatterns_perm (data : list A) a b :
  sort.breakPatterns_func data a b ≡ₚ data.
Proof.
  unfold sort.breakPatterns_func.
  destruct (8 <=? b - a); [|reflexivity].
  apply fold_left_state_perm. intros; simpl. apply sort_Swap_perm.
Qed.

Lemma sort_pdqsort_loop_perm depth : forall (data : list A) a b limit wasBalanced wasPartitioned,
  sort.pdqsort_loop less depth data a b limit wasBalanced wasPartitioned ≡ₚ data.
Proof.
  induction depth as [|depth IH]; intros data a b limit wasBalanced wasPartitioned.
  { apply sort_insertionSort_perm. }
  cbn [sort.pdqsort_loop].
  destruct (b - a <=? 12); [apply sort_insertionSort_perm|].
  destruct (limit =? 0); [apply sort_heapSort_perm|].
  set (broken := if negb wasBalanced then _ else _).
  assert (Hbroken : broken.1 ≡ₚ data).
  { subst broken. destruct (negb wasBalanced); simpl; [apply sort_breakPatterns_perm|reflexivity]. }
  destruct broken as [data1 limit1]; simpl in Hbroken.
  destruct (sort.choosePivot_func less data1 a b) as [pivot hint].
  set (reversed := match hint with sort.decreasingHint => _ | _ => _ end).
  assert (Hreversed : reversed.1.1 ≡ₚ data).
  { subst reversed. destruct hint; simpl; rewrite ?sort_reverseRange_perm; exact Hbroken. }
  destruct reversed as [[data2 pivot2] hint2]; simpl in Hreversed.
  set (partial := match wasBalanced && wasPartitioned, hint2 with
                  | true, sort.increasingHint => _ | _, _ => _ end).
  assert (Hpartial : partial.1 ≡ₚ data).
  { subst partial. destruct (wasBalanced && wasPartitioned), hint2; simpl;
      rewrite ?sort_partialInsertionSort_perm; exact Hreversed. }
  destruct partial as [data3 sorted]; simpl in Hpartial.
  destruct sorted; [exact Hpartial|].
  destruct (_ && _).
  - pose proof (sort_partitionEqual_perm data3 a b pivot2) as Heq.
    destruct (sort.partitionEqual_func less data3 a b pivot2) as [data4 mid]; simpl in Heq.
    now rewrite IH, Heq.
  - pose proof (sort_partition_perm data3 a b pivot2) as Hpart.
    destruct (sort.partition_func less data3 a b pivot2) as [[data4 mid] already];
      simpl in Hpart.
    destruct (_ <? _); now rewrite !IH, Hpart.
Qed.

Lemma sort_Slice_perm (x : list A) : sort.Slice less x ≡ₚ x.
Proof. apply sort_pdqsort_loop_perm. Qed.

Lemma sort_Slice_head (x : list A) y :
  head (sort.Slice less x) = Some y -> y ∈ x.
Proof.
  intros Hhead. rewrite <- (sort_Slice_perm x).
  destruct (sort.Slice less x); simplify_eq/=. left.
Qed.

Lemma sort_Slice_nonempty (x : list A) :
  x <> [] -> exists y, head (sort.Slice less x) = Some y.
Proof.
  intros Hx. destruct (sort.Slice less x) as [|y l] eqn:Hsorted; [|now exists y].
  pose proof (sort_Slice_perm x) as Hperm. rewrite Hsorted in Hperm.
  symmetry in Hperm. now apply Permutation_nil_r in Hperm.
Qed.

End sort_facts.

(** ** The availability test *)

Lemma isSlotAvailable_events_true start end_ userEvents :
  isSlotAvailable_events start end_ userEvents = true
  <-> forall b, b ∈ userEvents -> isFree start end_ b.
Proof.
  induction userEvents as [|event userEvents IH]; simpl.
  - split; [intros _ b Hb; inversion Hb|reflexivity].
  - unfold Before, After at 1.
    destruct (instant end_ <? instant (CalendarEvent.StartTime event)) eqn:Hbefore;
      destruct (instant (CalendarEvent.EndTime event) <? instant start) eqn:Hafter;
      simpl; rewrite ?IH; clear IH;
      rewrite ?Z.ltb_lt, ?Z.ltb_ge in Hbefore, Hafter.
    4: { split; [discriminate|]. intros Hall.
         destruct (Hall event) as [H|H]; [left|lia|lia]. }
    all: split; [intros Hall b [->|Hb]%elem_of_cons; [unfold isFree; lia|now apply Hall]
                |intros Hall b Hb; apply Hall; now right].
Qed.

Lemma isSlotAvailable_range_true start end_ entries :
  isSlotAvailable_range start end_ entries = true
  <-> forall user userEvents b,
        (user, userEvents) ∈ entries -> b ∈ userEvents -> isFree start end_ b.
Proof.
  induction entries as [|[user userEvents] entries IH]; simpl.
  - split; [intros _ ? ? ? H; inversion H|reflexivity].
  - destruct (isSlotAvailable_events start end_ userEvents) eqn:Hhere.
    + rewrite isSlotAvailable_events_true in Hhere. rewrite IH. split.
      * intros Hall u ue b [[= -> ->]|Hin]%elem_of_cons Hb; [now apply Hhere|].
        now apply (Hall u ue).
      * intros Hall u ue b Hin Hb. apply (Hall u ue); [now right|exact Hb].
    + split; [discriminate|]. intros Hall.
      assert (isSlotAvailable_events start end_ userEvents = true) as Hok; [|congruence].
      apply isSlotAvailable_events_true. intros b Hb. apply (Hall user userEvents); [left|exact Hb].
Qed.

Lemma isSlotAvailable_true (mapRange : MapRange) start end_ events :
  MapRange_ok mapRange ->
  isSlotAvailable mapRange start end_ events = true <-> freeForAll start end_ events.
Proof.
  intros Hok. unfold isSlotAvailable, freeForAll.
  rewrite isSlotAvailable_range_true.
  split; intros Hall user userEvents b Hin Hb; apply (Hall user userEvents); try exact Hb.
  - rewrite (Hok events range_isSlotAvailable start end_).
    now apply elem_of_map_to_list.
  - rewrite (Hok events range_isSlotAvailable start end_) in Hin.
    now apply elem_of_map_to_list in Hin.
Qed.

Lemma freeForAll_singleton start end_ user b :
  freeForAll start end_ {[ user := [b] ]} <-> isFree start end_ b.
Proof.
  unfold freeForAll. split.
  - intros Hall. apply (Hall user [b]); [apply lookup_singleton_eq|left].
  - intros Hfree u ue b' [-> <-]%lookup_singleton_Some Hb.
    apply list_elem_of_singleton in Hb as ->. exact Hfree.
Qed.

Lemma mapRange_listing_ok : MapRange_ok mapRange_listing.
Proof. intros events stmt start end_. reflexivity. Qed.

(** C1. The availability test accepts a candidate [start, end_] exactly when
    it is free of every busy interval of every participant, free of [b]
    meaning [end_ < b.StartTime] or [start > b.EndTime]; against a single busy
    interval [b] it is that disjunction; and a candidate that touches a busy
    interval (it ends where [b] starts, or starts where [b] ends) is
    rejected, whatever else the map holds. *)
Theorem isSlotAvailable_boundary_rule (mapRange : MapRange) (start end_ : Time) :
  MapRange_ok mapRange ->
  (forall events,
     isSlotAvailable mapRange start end_ events = true
     <-> forall user userEvents b,
           events !! user = Some userEvents -> b ∈ userEvents ->
           instant end_ < instant (CalendarEvent.StartTime b)
           \/ instant start > instant (CalendarEvent.EndTime b))
  /\ (forall user b,
        isSlotAvailable mapRange start end_ {[ user := [b] ]} = true
        <-> instant end_ < instant (CalendarEvent.StartTime b)
            \/ instant start > instant (CalendarEvent.EndTime b))
  /\ (forall events user userEvents b,
        events !! user = Some userEvents -> b ∈ userEvents ->
        instant start <= instant end_ ->
        instant (CalendarEvent.StartTime b) <= instant (CalendarEvent.EndTime b) ->
        instant end_ = instant (CalendarEvent.StartTime b)
        \/ instant start = instant (CalendarEvent.EndTime b) ->
        isSlotAvailable mapRange start end_ events = false).
Proof.
  intros Hok. split; [|split].
  - intros events. rewrite (isSlotAvailable_true _ _ _ _ Hok). unfold freeForAll, isFree.
    split; intros Hall user userEvents b Hin Hb; specialize (Hall user userEvents b Hin Hb); lia.
  - intros user b. rewrite (isSlotAvailable_true _ _ _ _ Hok), freeForAll_singleton.
    unfold isFree. lia.
  - intros events user userEvents b Hin Hb Hslot Hbusy Htouch.
    apply not_true_is_false. rewrite (isSlotAvailable_true _ _ _ _ Hok).
    intros Hall. specialize (Hall user userEvents b Hin Hb). unfold isFree in Hall. lia.
Qed.

(** Scenario E of the specification: busy until 11:00, candidate 11:00-12:00. *)
Lemma isSlotAvailable_boundary_rule_witness :
  isSlotAvailable mapRange_listing (on_2024_09_01 11 0) (on_2024_09_01 12 0)
    {[ "user1" := [busy (on_2024_09_01 10 0) (on_2024_09_01 11 0) "user1"] ]} = false.
Proof.
  refine (proj2 (proj2 (isSlotAvailable_boundary_rule mapRange_listing
            (on_2024_09_01 11 0) (on_2024_09_01 12 0) mapRange_listing_ok))
          _ "user1" _ (busy (on_2024_09_01 10 0) (on_2024_09_01 11 0) "user1") _ _ _ _ _).
  - apply lookup_singleton_eq.
  - left.
  - vm_compute. discriminate.
  - vm_compute. discriminate.
  - right. reflexivity.
Defined.

(** ** The enumeration of candidates *)

Lemma Add_Add t d1 d2 : Add (Add t d1) d2 = Add t (d1 + d2).
Proof. unfold Add; simpl. f_equal. lia. Qed.

Lemma gridStart_S req k : Add (gridStart req k) (15 * Minute) = gridStart req (S k).
Proof. unfold gridStart. rewrite Add_Add. f_equal. lia. Qed.

Lemma gridStart_instant req k :
  instant (gridStart req k)
  = instant (TimeRange.Start (ScheduleRequest.TimeRange req)) + Z.of_nat k * 900000000000.
Proof. reflexivity. Qed.

Lemma filter_none {A : Type} (P : A -> Prop) `{forall x, Decision (P x)} (l : list A) :
  (forall x, x ∈ l -> ~ P x) -> filter P l = [].
Proof.
  induction l as [|x l IH]; intros Hnone; [reflexivity|].
  rewrite filter_cons_False by (apply Hnone; left).
  apply IH. intros y Hy. apply Hnone. now right.
Qed.

Section enumeration.

Variable mapRange : MapRange.
Variable req : ScheduleRequest.t.
Variable events : Events.

Local Abbreviation produced := (produced mapRange req events).

Lemma findAvailableSlots_loop_spec rounds : forall k slots,
  findAvailableSlots_loop mapRange rounds req events slots (gridStart req k)
  = slots ++ (candidateAt req <$> filter (fun j => produced j = true) (seq k rounds)).
Proof.
  induction rounds as [|rounds IH]; intros k slots; simpl.
  { now rewrite app_nil_r. }
  rewrite gridStart_S, IH, filter_cons.
  assert (Hk : produced k
               = Before (gridStart req k) (TimeRange.End (ScheduleRequest.TimeRange req))
                 && (Before (Add (gridStart req k) (requestDuration req))
                            (TimeRange.End (ScheduleRequest.TimeRange req))
                     && isSlotAvailable mapRange (gridStart req k)
                          (Add (gridStart req k) (requestDuration req)) events))
    by reflexivity.
  destruct (Before (gridStart req k) _) eqn:Hin; simpl in Hk.
  - destruct (_ && _); rewrite Hk; destruct (decide _) as [?|?]; try congruence.
    simpl. now rewrite <- app_assoc.
  - rewrite Hk. destruct (decide _) as [?|_]; [discriminate|].
    replace (filter _ (seq (S k) rounds)) with (@nil nat).
    { simpl. now rewrite app_nil_r. }
    symmetry. apply filter_none. intros j Hj%elem_of_seq.
    unfold produced. replace (Before (gridStart req j) _) with false; [simpl; congruence|].
    symmetry. unfold Before in *. rewrite Z.ltb_ge in *. rewrite gridStart_instant in *. lia.
Qed.

Lemma findAvailableSlots_spec :
  findAvailableSlots mapRange req events
  = candidateAt req <$> filter (fun j => produced j = true) (seq 0 (findAvailableSlots_rounds req)).
Proof.
  unfold findAvailableSlots.
  replace (TimeRange.Start (ScheduleRequest.TimeRange req)) with (gridStart req 0).
  - apply findAvailableSlots_loop_spec.
  - unfold gridStart, Add. destruct (TimeRange.Start _); simpl. f_equal. lia.
Qed.

(** The loop has left when its rounds are used up: every grid instant before
    the window's end is among the first [findAvailableSlots_rounds]. *)
Lemma findAvailableSlots_rounds_enough k :
  Before (gridStart req k) (TimeRange.End (ScheduleRequest.TimeRange req)) = true ->
  (k < findAvailableSlots_rounds req)%nat.
Proof.
  unfold Before, findAvailableSlots_rounds. rewrite Z.ltb_lt, gridStart_instant.
  set (s := instant (TimeRange.Start _)). set (e := instant (TimeRange.End _)).
  change (15 * Minute) with 900000000000. intros Hlt.
  pose proof (Z.div_mod (e - s + 900000000000 - 1) 900000000000 ltac:(lia)) as Hdiv.
  pose proof (Z.mod_pos_bound (e - s + 900000000000 - 1) 900000000000 ltac:(lia)) as Hmod.
  apply Nat2Z.inj_lt. rewrite Z2Nat.id; nia.
Qed.

Lemma findAvailableSlots_more_rounds extra :
  findAvailableSlots_loop mapRange (findAvailableSlots_rounds req + extra) req events []
    (TimeRange.Start (ScheduleRequest.TimeRange req))
  = findAvailableSlots mapRange req events.
Proof.
  rewrite findAvailableSlots_spec.
  replace (TimeRange.Start (ScheduleRequest.TimeRange req)) with (gridStart req 0).
  2: { unfold gridStart, Add. destruct (TimeRange.Start _); simpl. f_equal. lia. }
  rewrite findAvailableSlots_loop_spec. simpl. f_equal.
  rewrite seq_app, filter_app.
  replace (filter _ (seq (0 + _) extra)) with (@nil nat); [now rewrite app_nil_r|].
  symmetry. apply filter_none. intros j Hj%elem_of_seq Hprod.
  unfold produced in Hprod. apply andb_true_iff in Hprod as [Hin _].
  apply findAvailableSlots_rounds_enough in Hin. lia.
Qed.

Lemma elem_of_findAvailableSlots slot :
  slot ∈ findAvailableSlots mapRange req events
  <-> exists k, slot = candidateAt req k /\ produced k = true.
Proof.
  rewrite findAvailableSlots_spec, list_elem_of_fmap. split.
  - intros (k & -> & [Hprod _]%list_elem_of_filter). now exists k.
  - intros (k & -> & Hprod). exists k. split; [reflexivity|].
    apply list_elem_of_filter. split; [exact Hprod|]. apply elem_of_seq.
    apply andb_true_iff in Hprod as [Hin _].
    apply findAvailableSlots_rounds_enough in Hin. lia.
Qed.

Lemma findAvailableSlots_sorted :
  StronglySorted (fun s1 s2 => instant (TimeSlot.Start s1) < instant (TimeSlot.Start s2))
    (findAvailableSlots mapRange req events).
Proof.
  rewrite findAvailableSlots_spec.
  generalize (findAvailableSlots_rounds req) as n, 0%nat as k.
  intros n. induction n as [|n IH]; intros k; simpl; [constructor|].
  rewrite filter_cons. destruct (decide _) as [_|_]; [|apply IH].
  simpl. constructor; [apply IH|].
  apply Forall_forall. intros slot (j & -> & [_ Hj%elem_of_seq]%list_elem_of_filter)%list_elem_of_fmap.
  unfold candidateAt; cbn [TimeSlot.Start]. rewrite !gridStart_instant. lia.
Qed.

End enumeration.

(** ** The selection *)

Lemma requestDuration_exact req :
  -153722867 <= ScheduleRequest.DurationMinutes req <= 153722867 ->
  requestDuration req = ScheduleRequest.DurationMinutes req * Minute.
Proof.
  intros Hd. unfold requestDuration, wrap64.
  change Minute with 60000000000.
  change (2 ^ 63) with 9223372036854775808. change (2 ^ 64) with 18446744073709551616.
  rewrite Z.mod_small; lia.
Qed.

Lemma elem_of_scoreSlots mapRange slots events slot :
  slot ∈ scoreSlots mapRange slots events
  <-> exists candidate,
        candidate ∈ slots
        /\ slot = {| TimeSlot.Start := TimeSlot.Start candidate;
                     TimeSlot.End := TimeSlot.End candidate;
                     TimeSlot.Score := calculateSlotScore mapRange candidate events |}.
Proof.
  unfold scoreSlots. rewrite list_elem_of_In, in_map_iff.
  split; intros (candidate & H1 & H2); exists candidate.
  - now rewrite list_elem_of_In.
  - now rewrite <- list_elem_of_In.
Qed.

Lemma FindOptimalSlot_unfold mapRange req events :
  FindOptimalSlot mapRange req events
  = match findAvailableSlots mapRange req events with
    | [] => (None, None)
    | availableSlots =>
        (head (sort.Slice higherScore (scoreSlots mapRange availableSlots events)), None)
    end.
Proof.
  unfold FindOptimalSlot. now destruct (findAvailableSlots mapRange req events).
Qed.

Lemma FindOptimalSlot_Some mapRange req events slot :
  (FindOptimalSlot mapRange req events).1 = Some slot ->
  slot ∈ scoreSlots mapRange (findAvailableSlots mapRange req events) events.
Proof.
  rewrite FindOptimalSlot_unfold.
  destruct (findAvailableSlots mapRange req events) as [|c l]; [discriminate|].
  simpl fst. apply sort_Slice_head.
Qed.

Lemma FindOptimalSlot_None mapRange req events :
  (FindOptimalSlot mapRange req events).1 = None
  <-> findAvailableSlots mapRange req events = [].
Proof.
  rewrite FindOptimalSlot_unfold.
  destruct (findAvailableSlots mapRange req events) as [|c l]; [easy|].
  split; [|discriminate]. intros Hnone. exfalso.
  destruct (sort_Slice_nonempty higherScore (scoreSlots mapRange (c :: l) events))
    as [slot Hslot]; [discriminate|].
  unfold fst in Hnone. rewrite Hslot in Hnone. discriminate.
Qed.

(** C2. Every candidate that [findAvailableSlots] produces ends
    [DurationMinutes] minutes (as a [time.Duration]) after it starts, starts
    on the 15-minute grid of the window's start and before the window's end,
    ends strictly before the window's end, and is free of every busy interval
    of every participant; the candidates come in ascending order of start;
    every grid instant that meets these conditions is produced; and a slot
    that [FindOptimalSlot] returns is one of the candidates, with its
    score. *)
Theorem findAvailableSlots_sound_complete (mapRange : MapRange)
    (req : ScheduleRequest.t) (events : Events) :
  MapRange_ok mapRange ->
  let window := ScheduleRequest.TimeRange req in
  let slots := findAvailableSlots mapRange req events in
  (forall slot, slot ∈ slots ->
     TimeSlot.End slot = Add (TimeSlot.Start slot) (requestDuration req)
     /\ (exists k : nat,
           TimeSlot.Start slot = Add (TimeRange.Start window) (Z.of_nat k * (15 * Minute)))
     /\ instant (TimeSlot.Start slot) < instant (TimeRange.End window)
     /\ instant (TimeSlot.End slot) < instant (TimeRange.End window)
     /\ forall user userEvents b,
          events !! user = Some userEvents -> b ∈ userEvents ->
          instant (TimeSlot.End slot) < instant (CalendarEvent.StartTime b)
          \/ instant (TimeSlot.Start slot) > instant (CalendarEvent.EndTime b))
  /\ StronglySorted
       (fun s1 s2 => instant (TimeSlot.Start s1) < instant (TimeSlot.Start s2)) slots
  /\ (forall k : nat,
        let start := Add (TimeRange.Start window) (Z.of_nat k * (15 * Minute)) in
        let end_ := Add start (requestDuration req) in
        instant start < instant (TimeRange.End window) ->
        instant end_ < instant (TimeRange.End window) ->
        (forall user userEvents b,
           events !! user = Some userEvents -> b ∈ userEvents ->
           instant end_ < instant (CalendarEvent.StartTime b)
           \/ instant start > instant (CalendarEvent.EndTime b)) ->
        {| TimeSlot.Start := start; TimeSlot.End := end_; TimeSlot.Score := 0 |} ∈ slots)
  /\ (forall slot, (FindOptimalSlot mapRange req events).1 = Some slot ->
        exists candidate,
          candidate ∈ slots
          /\ TimeSlot.Start slot = TimeSlot.Start candidate
          /\ TimeSlot.End slot = TimeSlot.End candidate)
  /\ (-153722867 <= ScheduleRequest.DurationMinutes req <= 153722867 ->
      requestDuration req = ScheduleRequest.DurationMinutes req * Minute).
Proof.
  intros Hok window slots. subst window slots.
  split; [|split; [|split; [|split]]].
  - intros slot (k & -> & Hprod)%elem_of_findAvailableSlots.
    unfold produced in Hprod. apply andb_true_iff in Hprod as [Hin Hprod].
    apply andb_true_iff in Hprod as [Hend Havail].
    split; [reflexivity|]. split; [now exists k|].
    split; [now apply Z.ltb_lt in Hin|]. split; [now apply Z.ltb_lt in Hend|].
    intros user userEvents b Hlookup Hb.
    apply (isSlotAvailable_true _ _ _ _ Hok) in Havail.
    specialize (Havail user userEvents b Hlookup Hb). unfold isFree in Havail.
    simpl in *. lia.
  - apply findAvailableSlots_sorted.
  - intros k start end_ Hin Hend Hfree.
    apply elem_of_findAvailableSlots. exists k. split; [reflexivity|].
    unfold produced. rewrite !andb_true_iff. split; [|split].
    + now apply Z.ltb_lt.
    + now apply Z.ltb_lt.
    + apply (isSlotAvailable_true _ _ _ _ Hok). intros user userEvents b Hlookup Hb.
      specialize (Hfree user userEvents b Hlookup Hb). unfold isFree.
      subst start end_. simpl in *. lia.
  - intros slot Hslot%FindOptimalSlot_Some.
    apply elem_of_scoreSlots in Hslot as (candidate & Hcandidate & ->).
    now exists candidate.
  - apply requestDuration_exact.
Qed.

(** The search reads [mapRange] at its own [events] only. *)
Section mapRange_ext.

Variables (mapRange1 mapRange2 : MapRange) (events : Events).
Hypothesis same : forall stmt start end_,
  mapRange1 events stmt start end_ = mapRange2 events stmt start end_.

Lemma calculateSlotScore_ext slot :
  calculateSlotScore mapRange1 slot events = calculateSlotScore mapRange2 slot events.
Proof.
  unfold calculateSlotScore, gapMinimizationScore, bufferTimeScore. now rewrite !same.
Qed.

Lemma findAvailableSlots_ext req :
  findAvailableSlots mapRange1 req events = findAvailableSlots mapRange2 req events.
Proof.
  unfold findAvailableSlots.
  generalize (findAvailableSlots_rounds req), (@nil TimeSlot.t),
    (TimeRange.Start (ScheduleRequest.TimeRange req)).
  intros n. induction n as [|n IH]; intros slots current; simpl; [reflexivity|].
  unfold isSlotAvailable. now rewrite same, !IH.
Qed.

Lemma FindOptimalSlot_ext req :
  FindOptimalSlot mapRange1 req events = FindOptimalSlot mapRange2 req events.
Proof.
  unfold FindOptimalSlot, scoreSlots. rewrite findAvailableSlots_ext.
  destruct (_ =? 0); [reflexivity|]. do 3 f_equal.
  apply map_ext. intros slot. now rewrite calculateSlotScore_ext.
Qed.

End mapRange_ext.

Lemma MapRange_ok_empty mapRange stmt start end_ :
  MapRange_ok mapRange -> mapRange ∅ stmt start end_ = mapRange_listing ∅ stmt start end_.
Proof.
  intros Hok. specialize (Hok ∅ stmt start end_).
  unfold mapRange_listing. rewrite map_to_list_empty in *.
  now apply Permutation_nil_r in Hok.
Qed.

Lemma MapRange_ok_singleton mapRange user (userEvents : list CalendarEvent.t) stmt start end_ :
  MapRange_ok mapRange ->
  mapRange {[ user := userEvents ]} stmt start end_
  = mapRange_listing {[ user := userEvents ]} stmt start end_.
Proof.
  intros Hok. specialize (Hok {[ user := userEvents ]} stmt start end_).
  unfold mapRange_listing. rewrite map_to_list_singleton in *.
  now apply Permutation_singleton_r in Hok.
Qed.

(** ** Scenario A: a day without events *)

Section scenario_A.

(** [start] is an instant at which the clock of a zone [off] seconds east of
    UTC reads 09:00:00; the window is the eight hours from there. No
    participant has an event: the map is empty, or holds one participant
    without events. *)
Variables (participantIDs : list string) (start : Time) (off : Z).
Hypothesis clock_09_00 : (instant start / Second + off) mod 86400 = 9 * 3600.
Hypothesis zone : forall sec, loc start sec = off.

Variable entries : list (string * list CalendarEvent.t).
Hypothesis no_event : entries = [] \/ exists user, entries = [(user, [])].

Local Abbreviation req := (request participantIDs 60 start (Add start (8 * Hour_))).
Local Abbreviation rangeOver := (fun (_ : Events) (_ : RangeStmt) (_ _ : Time) => entries).

Lemma scenario_A_hour (k : nat) :
  (k < 60)%nat -> Hour (gridStart req k) = 9 + Z.of_nat k / 4.
Proof.
  intros Hk. unfold Hour, gridStart, request, Add. cbn [instant loc
    ScheduleRequest.TimeRange TimeRange.Start]. rewrite zone.
  change (15 * Minute) with (900 * Second).
  replace (instant start + Z.of_nat k * (900 * Second))
    with (instant start + (Z.of_nat k * 900) * Second) by lia.
  rewrite Z.div_add by (unfold Second; lia).
  replace (instant start / Second + Z.of_nat k * 900 + off)
    with (Z.of_nat k * 900 + (instant start / Second + off)) by lia.
  rewrite <- Zplus_mod_idemp_r, clock_09_00.
  rewrite Z.mod_small by lia.
  replace (Z.of_nat k * 900 + 9 * 3600) with (9 * 3600 + Z.of_nat k * 900) by lia.
  rewrite Z.div_add_l by lia. f_equal.
  replace (Z.of_nat k * 900) with (900 * Z.of_nat k) by lia.
  change 3600 with (900 * 4). now rewrite Z.div_mul_cancel_l by lia.
Qed.

Lemma scenario_A_produced (events : Events) (k : nat) :
  produced rangeOver req events k = true <-> (k < 28)%nat.
Proof.
  unfold produced, isSlotAvailable.
  replace (isSlotAvailable_range _ _ entries) with true
    by (destruct no_event as [->|[user ->]]; reflexivity).
  rewrite !andb_true_r, andb_true_iff. unfold Before, candidateAt.
  cbn [TimeSlot.End]. rewrite !Z.ltb_lt. unfold Add at 1. cbn [instant].
  rewrite gridStart_instant. unfold request, requestDuration.
  cbn [ScheduleRequest.TimeRange ScheduleRequest.DurationMinutes TimeRange.Start
       TimeRange.End Add instant].
  rewrite ?gridStart_instant.
  cbn [ScheduleRequest.TimeRange TimeRange.Start].
  change (wrap64 (60 * Minute)) with 3600000000000.
  change (8 * Hour_) with 28800000000000. lia.
Qed.

Lemma scenario_A_slots (events : Events) :
  findAvailableSlots rangeOver req events = map (candidateAt req) (seq 0 28).
Proof.
  rewrite findAvailableSlots_spec.
  replace (findAvailableSlots_rounds req) with 32%nat.
  - rewrite (list_filter_iff _ (fun k => (k < 28)%nat))
      by (intros k; apply scenario_A_produced).
    reflexivity.
  - unfold findAvailableSlots_rounds, request.
    cbn [ScheduleRequest.TimeRange TimeRange.Start TimeRange.End Add instant].
    replace (instant start + 8 * Hour_ - instant start) with (8 * Hour_) by lia.
    reflexivity.
Qed.

Lemma scenario_A_scores (events : Events) (k : nat) :
  (k < 28)%nat ->
  calculateSlotScore rangeOver (candidateAt req k) events = scenario_A_score k.
Proof.
  intros Hk. unfold calculateSlotScore, workingHoursScore, earlySlotScore.
  cbn [candidateAt TimeSlot.Start]. rewrite scenario_A_hour by lia.
  unfold gapMinimizationScore, bufferTimeScore.
  destruct no_event as [->|[user ->]];
    do 28 (destruct k as [|k]; [vm_compute; reflexivity|]); lia.
Qed.

Lemma scenario_A_selected (events : Events) :
  FindOptimalSlot rangeOver req events
  = (Some {| TimeSlot.Start := start; TimeSlot.End := Add start Hour_; TimeSlot.Score := 2.8 |},
     None).
Proof.
  unfold FindOptimalSlot. rewrite scenario_A_slots.
  rewrite length_map, length_seq. cbn [Z.of_nat Pos.of_succ_nat Z.eqb].
  unfold scoreSlots. rewrite map_map.
  rewrite (map_ext_in _ (fun k => {| TimeSlot.Start := gridStart req k;
                                      TimeSlot.End := Add (gridStart req k) (requestDuration req);
                                      TimeSlot.Score := scenario_A_score k |})).
  2: { intros k Hk%in_seq. cbn [candidateAt TimeSlot.Start TimeSlot.End].
       f_equal. apply scenario_A_scores. lia. }
  assert (Hstart : gridStart req 0 = start).
  { unfold gridStart, request, Add. cbn [ScheduleRequest.TimeRange TimeRange.Start].
    destruct start as [i l]. cbn [instant loc]. f_equal. lia. }
  replace {| TimeSlot.Start := start; TimeSlot.End := Add start Hour_; TimeSlot.Score := 2.8 |}
    with {| TimeSlot.Start := gridStart req 0;
            TimeSlot.End := Add (gridStart req 0) (requestDuration req);
            TimeSlot.Score := 2.8 |}
    by (now rewrite Hstart).
  clear Hstart.
  generalize (requestDuration req) as d, (gridStart req) as grid. intros d grid.
  vm_compute. reflexivity.
Qed.

End scenario_A.

(** C9. Scenario A / the test "Prefer earlier slots during working hours":
    no busy interval, a window from 09:00 to 17:00 of one day (on the clock
    of the window's zone, [off] seconds east of UTC), 60 minutes. The slot
    returned is 09:00-10:00 with the score 2.8, whoever the participants
    are and in whatever order maps are ranged over, both for the empty map
    of the test and for the map [Schedule] builds for one participant
    without events. *)
Theorem FindOptimalSlot_scenario_A (mapRange : MapRange) (participantIDs : list string)
    (start : Time) (off : Z) :
  MapRange_ok mapRange ->
  (instant start / Second + off) mod 86400 = 9 * 3600 ->
  (forall sec, loc start sec = off) ->
  let req := request participantIDs 60 start (Add start (8 * Hour_)) in
  let slot_09_10 :=
    {| TimeSlot.Start := start;
       TimeSlot.End := Add start Hour_;
       TimeSlot.Score := 2.8 |} in
  FindOptimalSlot mapRange req ∅ = (Some slot_09_10, None)
  /\ forall user, FindOptimalSlot mapRange req {[ user := [] ]} = (Some slot_09_10, None).
Proof.
  intros Hok Hclock Hzone req slot_09_10. split.
  - rewrite (FindOptimalSlot_ext mapRange (fun _ _ _ _ => [])).
    + apply (scenario_A_selected participantIDs start off Hclock Hzone []). now left.
    + intros. rewrite MapRange_ok_empty by exact Hok.
      unfold mapRange_listing. apply map_to_list_empty.
  - intros user.
    rewrite (FindOptimalSlot_ext mapRange (fun _ _ _ _ => [(user, [])])).
    + apply (scenario_A_selected participantIDs start off Hclock Hzone [(user, [])]).
      right. now exists user.
    + intros. rewrite MapRange_ok_singleton by exact Hok.
      unfold mapRange_listing. apply map_to_list_singleton.
Qed.

(** The test itself: 2024-09-01 in UTC. *)
Lemma FindOptimalSlot_scenario_A_witness :
  FindOptimalSlot mapRange_listing
    (request ["user1"] 60 (on_2024_09_01 9 0) (on_2024_09_01 17 0)) ∅
  = (Some {| TimeSlot.Start := on_2024_09_01 9 0;
             TimeSlot.End := on_2024_09_01 10 0;
             TimeSlot.Score := 2.8 |}, None).
Proof.
  exact (proj1 (FindOptimalSlot_scenario_A mapRange_listing ["user1"] (on_2024_09_01 9 0) 0
                  mapRange_listing_ok eq_refl (fun _ => eq_refl))).
Defined.

Lemma rotate_perm {A : Type} n (l : list A) : rotate n l ≡ₚ l.
Proof.
  unfold rotate. rewrite Permutation_app_comm. now rewrite take_drop.
Qed.

Lemma mapRange_shifted_at_ok start : MapRange_ok (mapRange_shifted_at start).
Proof.
  intros events stmt slotStart end_. unfold mapRange_shifted_at.
  destruct stmt; try reflexivity.
  destruct (Equal slotStart start); [apply rotate_perm|reflexivity].
Qed.

(** C3 (the code departs from it). No busy interval, window 06:00-10:00 on
    2024-09-01, 30 minutes: fourteen candidates, of which 09:00-09:30 and
    09:15-09:45 share the highest score. [FindOptimalSlot] returns the later
    one. *)
Theorem FindOptimalSlot_returns_later_of_equals (mapRange : MapRange)
    (participantIDs : list string) :
  MapRange_ok mapRange ->
  let req := request participantIDs 30 (on_2024_09_01 6 0) (on_2024_09_01 10 0) in
  let scoredSlots := scoreSlots mapRange (findAvailableSlots mapRange req ∅) ∅ in
  FindOptimalSlot mapRange req ∅
  = (Some {| TimeSlot.Start := on_2024_09_01 9 15;
             TimeSlot.End := on_2024_09_01 9 45;
             TimeSlot.Score := 2.8 |}, None)
  /\ {| TimeSlot.Start := on_2024_09_01 9 0;
        TimeSlot.End := on_2024_09_01 9 30;
        TimeSlot.Score := 2.8 |} ∈ scoredSlots
  /\ length scoredSlots = 14%nat
  /\ Forall (fun slot => (TimeSlot.Score slot <=? 2.8)%float = true) scoredSlots.
Proof.
  intros Hok req scoredSlots. subst scoredSlots.
  rewrite (FindOptimalSlot_ext mapRange mapRange_listing)
    by (intros; now apply MapRange_ok_empty).
  rewrite (findAvailableSlots_ext mapRange mapRange_listing)
    by (intros; now apply MapRange_ok_empty).
  assert (Hscores : scoreSlots mapRange (findAvailableSlots mapRange_listing req ∅) ∅
                    = scoreSlots mapRange_listing (findAvailableSlots mapRange_listing req ∅) ∅).
  { apply map_ext. intros slot. f_equal. apply calculateSlotScore_ext.
    intros; now apply MapRange_ok_empty. }
  rewrite Hscores. clear Hscores.
  split; [vm_compute; reflexivity|].
  split; [|split; [vm_compute; reflexivity|]].
  - apply list_elem_of_In. vm_compute. do 12 right. left. reflexivity.
  - apply Forall_forall. intros slot Hslot%list_elem_of_In. vm_compute in Hslot.
    repeat (destruct Hslot as [<-|Hslot]; [vm_compute; reflexivity|]). destruct Hslot.
Qed.

Lemma FindOptimalSlot_returns_later_of_equals_witness :
  FindOptimalSlot mapRange_listing
    (request ["user1"] 30 (on_2024_09_01 6 0) (on_2024_09_01 10 0)) ∅
  = (Some {| TimeSlot.Start := on_2024_09_01 9 15;
             TimeSlot.End := on_2024_09_01 9 45;
             TimeSlot.Score := 2.8 |}, None).
Proof.
  exact (proj1 (FindOptimalSlot_returns_later_of_equals mapRange_listing ["user1"]
                  mapRange_listing_ok)).
Defined.

(** C4 (the code departs from it). The same request and the same events,
    run twice: when the entries of the map come in another order for the
    first candidate, the three participants' factors 0.8, 0.64 and 0.512 add
    up to a sum that is one unit in the last place smaller, and the second
    candidate wins; when they do so for the second candidate, the first
    wins. *)
Theorem FindOptimalSlot_two_runs_differ :
  MapRange_ok (mapRange_shifted_at (on_2024_09_01 9 0))
  /\ MapRange_ok (mapRange_shifted_at (on_2024_09_01 9 15))
  /\ FindOptimalSlot (mapRange_shifted_at (on_2024_09_01 9 0)) morning_request afternoons
     = (Some {| TimeSlot.Start := on_2024_09_01 9 15;
                TimeSlot.End := on_2024_09_01 10 15;
                TimeSlot.Score := 0x1.4b923a29c779bp+1 |}, None)
  /\ FindOptimalSlot (mapRange_shifted_at (on_2024_09_01 9 15)) morning_request afternoons
     = (Some {| TimeSlot.Start := on_2024_09_01 9 0;
                TimeSlot.End := on_2024_09_01 10 0;
                TimeSlot.Score := 0x1.4b923a29c779bp+1 |}, None)
  /\ scoreSlots (mapRange_shifted_at (on_2024_09_01 9 0))
       (findAvailableSlots (mapRange_shifted_at (on_2024_09_01 9 0)) morning_request afternoons)
       afternoons
     = [ {| TimeSlot.Start := on_2024_09_01 9 0;
            TimeSlot.End := on_2024_09_01 10 0;
            TimeSlot.Score := 0x1.4b923a29c779ap+1 |};
         {| TimeSlot.Start := on_2024_09_01 9 15;
            TimeSlot.End := on_2024_09_01 10 15;
            TimeSlot.Score := 0x1.4b923a29c779bp+1 |} ].
Proof.
  split; [apply mapRange_shifted_at_ok|].
  split; [apply mapRange_shifted_at_ok|].
  repeat split; vm_compute; reflexivity.
Qed.

(** ** The score *)

Lemma float_mul_comm (x y : float) : (x * y = y * x)%float.
Proof.
  apply Prim2SF_inj. rewrite !FloatAxioms.mul_spec. unfold SF64mul, SFmul.
  destruct (Prim2SF x) as [sx|sx| |sx mx ex], (Prim2SF y) as [sy|sy| |sy my ey];
    try reflexivity; rewrite (xorb_comm sx sy); try reflexivity.
  now rewrite (Pos.mul_comm mx my), (Z.add_comm ex ey).
Qed.

Lemma Hour_range t : 0 <= Hour t < 24.
Proof.
  unfold Hour. set (sec := instant t / Second).
  pose proof (Z.mod_pos_bound (sec + loc t sec) 86400 ltac:(lia)) as Hmod.
  split; [apply Z.div_pos; lia|apply Z.div_lt_upper_bound; lia].
Qed.

Lemma hour_cases h : 0 <= h < 24 ->
  h = 0 \/ h = 1 \/ h = 2 \/ h = 3 \/ h = 4 \/ h = 5 \/ h = 6 \/ h = 7 \/ h = 8 \/ h = 9
  \/ h = 10 \/ h = 11 \/ h = 12 \/ h = 13 \/ h = 14 \/ h = 15 \/ h = 16 \/ h = 17 \/ h = 18
  \/ h = 19 \/ h = 20 \/ h = 21 \/ h = 22 \/ h = 23.
Proof. lia. Qed.

Lemma workingHoursScore_values slot :
  workingHoursScore slot = 1.0%float
  \/ workingHoursScore slot = 0.5%float
  \/ workingHoursScore slot = 0.0%float.
Proof.
  unfold workingHoursScore.
  destruct (_ && _); [now left|]. destruct (_ || _); [right; now left|right; now right].
Qed.

(** C7. The composite score is the weighted sum of the four sub-scores, with
    the weights 1.0, 0.8, 0.6 and 0.4, added in that order; [workingHoursScore]
    is 1.0 for a start hour in [9,17), 0.5 in [8,9) or [17,18) and 0.0
    otherwise; [earlySlotScore] is [1.0 - (hour - 9)/8.0] for a start hour in
    [9,17] and 0.0 otherwise. The hour is [Start.Hour()], an integer of
    [0,24). *)
Theorem calculateSlotScore_weighted_sum (mapRange : MapRange) (slot : TimeSlot.t)
    (events : Events) :
  let hour := Hour (TimeSlot.Start slot) in
  calculateSlotScore mapRange slot events
  = (1.0 * workingHoursScore slot
     + 0.8 * earlySlotScore slot
     + 0.6 * gapMinimizationScore mapRange slot events
     + 0.4 * bufferTimeScore mapRange slot events)%float
  /\ 0 <= hour < 24
  /\ workingHoursScore slot
     = (if (9 <=? hour) && (hour <? 17) then 1.0%float
        else if (8 <=? hour) && (hour <? 9) || (17 <=? hour) && (hour <? 18) then 0.5%float
        else 0.0%float)
  /\ earlySlotScore slot
     = (if (9 <=? hour) && (hour <=? 17) then (1.0 - (float64 hour - 9.0) / 8.0)%float
        else 0.0%float).
Proof.
  intros hour. split; [|split; [apply Hour_range|split; [reflexivity|]]].
  - unfold calculateSlotScore, workingHoursWeight, earlySlotWeight,
      gapMinimizationWeight, bufferTimeWeight.
    rewrite (float_mul_comm (workingHoursScore slot)), (float_mul_comm (earlySlotScore slot)),
      (float_mul_comm (gapMinimizationScore _ _ _)), (float_mul_comm (bufferTimeScore _ _ _)).
    do 3 f_equal.
    destruct (workingHoursScore_values slot) as [-> | [-> | ->]]; reflexivity.
  - unfold earlySlotScore. fold hour.
    destruct (hour_cases hour (Hour_range _))
      as [-> | [-> | [-> | [-> | [-> | [-> | [-> | [-> | [-> | [-> | [-> | [-> | [-> | [-> | [->
         | [-> | [-> | [-> | [-> | [-> | [-> | [-> | [-> | ->]]]]]]]]]]]]]]]]]]]]]]];
      reflexivity.
Qed.

(** ** The two gap-based sub-scores *)

Lemma gapMinimizationScore_events_fold slot userEvents : forall score,
  gapMinimizationScore_events slot userEvents score
  = fold_left (foldStep_sides gapPenalty slot) userEvents score.
Proof.
  induction userEvents as [|event userEvents IH]; intros score; simpl; [reflexivity|].
  now rewrite IH.
Qed.

Lemma bufferTimeScore_events_fold slot userEvents : forall score,
  bufferTimeScore_events slot userEvents score
  = fold_left (foldStep_sides bufferPenalty slot) userEvents score.
Proof.
  induction userEvents as [|event userEvents IH]; intros score; simpl; [reflexivity|].
  now rewrite IH.
Qed.

Lemma gapMinimizationScore_range_fold slot entries : forall totalScore count,
  gapMinimizationScore_range slot entries totalScore count
  = (fold_left PrimFloat.add
       (map (fun entry => participantFactor gapPenalty slot entry.2) entries) totalScore,
     count + Z.of_nat (length entries)).
Proof.
  induction entries as [|[user userEvents] entries IH]; intros totalScore count; simpl.
  - f_equal. lia.
  - rewrite IH, gapMinimizationScore_events_fold. f_equal. lia.
Qed.

Lemma bufferTimeScore_range_fold slot entries : forall totalScore count,
  bufferTimeScore_range slot entries totalScore count
  = (fold_left PrimFloat.add
       (map (fun entry => participantFactor bufferPenalty slot entry.2) entries) totalScore,
     count + Z.of_nat (length entries)).
Proof.
  induction entries as [|[user userEvents] entries IH]; intros totalScore count; simpl.
  - f_equal. lia.
  - rewrite IH, bufferTimeScore_events_fold. f_equal. lia.
Qed.

Lemma average_map {X : Type} (f : X -> float) (entries : list X) :
  (if 0 + Z.of_nat (length entries) =? 0 then 1.0%float
   else (fold_left PrimFloat.add (map f entries) 0 / float64 (0 + Z.of_nat (length entries)))%float)
  = average (map f entries).
Proof.
  destruct entries as [|entry entries]; [reflexivity|].
  unfold average. rewrite length_map. cbn [map length].
  destruct (_ =? 0) eqn:Hzero; [apply Z.eqb_eq in Hzero; lia|reflexivity].
Qed.

Lemma foldStep_sides_one_gap penalty slot acc b :
  instant (TimeSlot.Start slot) <= instant (TimeSlot.End slot) ->
  instant (CalendarEvent.StartTime b) <= instant (CalendarEvent.EndTime b) ->
  foldStep_sides penalty slot acc b = foldStep penalty slot acc b.
Proof.
  intros Hslot Hb. unfold foldStep_sides, foldStep, gapMinutes, Before, After.
  destruct (instant (CalendarEvent.EndTime b) <? _) eqn:Hbefore;
    destruct (instant (TimeSlot.End slot) <? _) eqn:Hafter; try reflexivity.
  apply Z.ltb_lt in Hbefore, Hafter. lia.
Qed.

(** C8. Each of [gapMinimizationScore] and [bufferTimeScore] is the average,
    over the entries of the map, of one accumulator per participant, and 1.0
    for the empty map; a participant's accumulator is the fold, from 1.0,
    over that participant's busy intervals, of the step that looks at the
    interval's gap to the candidate when it ends before the candidate starts
    and when it starts after the candidate ends; the step multiplies by 0.5
    for a gap under 15 minutes and by 0.8 for one over 60 in
    [gapMinimizationScore], and by [gap / 15.0] for a gap under 15 minutes in
    [bufferTimeScore], and leaves the accumulator as it is otherwise. For a
    candidate and a busy interval that do not end before they start, only one
    of the two sides can apply, and the step is the specification's. *)
Theorem gap_and_buffer_scores_are_averages (mapRange : MapRange) (slot : TimeSlot.t)
    (events : Events) :
  MapRange_ok mapRange ->
  let entriesOf stmt := mapRange events stmt (TimeSlot.Start slot) (TimeSlot.End slot) in
  gapMinimizationScore mapRange slot events
  = average (map (fun entry => participantFactor gapPenalty slot entry.2)
               (entriesOf range_gapMinimizationScore))
  /\ bufferTimeScore mapRange slot events
     = average (map (fun entry => participantFactor bufferPenalty slot entry.2)
                  (entriesOf range_bufferTimeScore))
  /\ (forall stmt user userEvents,
        (user, userEvents) ∈ entriesOf stmt <-> events !! user = Some userEvents)
  /\ (forall stmt, length (entriesOf stmt) = size events)
  /\ (events = ∅ ->
      gapMinimizationScore mapRange slot events = 1.0%float
      /\ bufferTimeScore mapRange slot events = 1.0%float)
  /\ (forall penalty userEvents,
        participantFactor penalty slot userEvents
        = fold_left (foldStep_sides penalty slot) userEvents 1.0%float)
  /\ (forall penalty acc b,
        instant (TimeSlot.Start slot) <= instant (TimeSlot.End slot) ->
        instant (CalendarEvent.StartTime b) <= instant (CalendarEvent.EndTime b) ->
        foldStep_sides penalty slot acc b
        = match gapMinutes slot b with
          | Some gap => penalty acc gap
          | None => acc
          end)
  /\ (forall acc gap,
        gapPenalty acc gap
        = (if (gap <? 15)%float then (acc * 0.5)%float
           else if (60 <? gap)%float then (acc * 0.8)%float else acc)
        /\ bufferPenalty acc gap
           = (if (gap <? 15)%float then (acc * (gap / 15.0))%float else acc)).
Proof.
  intros Hok entriesOf.
  assert (Hgap : gapMinimizationScore mapRange slot events
                 = average (map (fun entry => participantFactor gapPenalty slot entry.2)
                              (entriesOf range_gapMinimizationScore))).
  { unfold gapMinimizationScore. rewrite gapMinimizationScore_range_fold. apply average_map. }
  assert (Hbuffer : bufferTimeScore mapRange slot events
                    = average (map (fun entry => participantFactor bufferPenalty slot entry.2)
                                 (entriesOf range_bufferTimeScore))).
  { unfold bufferTimeScore. rewrite bufferTimeScore_range_fold. apply average_map. }
  split; [exact Hgap|]. split; [exact Hbuffer|].
  split; [|split; [|split; [|split; [|split]]]].
  - intros stmt user userEvents. subst entriesOf. simpl.
    rewrite (Hok events stmt). apply elem_of_map_to_list.
  - intros stmt. subst entriesOf. simpl. rewrite (Hok events stmt).
    apply length_map_to_list.
  - intros ->. rewrite Hgap, Hbuffer. subst entriesOf. simpl.
    rewrite (MapRange_ok_empty mapRange range_gapMinimizationScore),
      (MapRange_ok_empty mapRange range_bufferTimeScore) by exact Hok.
    unfold mapRange_listing. rewrite map_to_list_empty. split; reflexivity.
  - reflexivity.
  - intros penalty acc b Hslot Hb. now apply foldStep_sides_one_gap.
  - intros acc gap. split; reflexivity.
Qed.

(** ** The request guard *)

Lemma holds_empty : holds ∅ [].
Proof.
  intros id. rewrite lookup_empty. simpl. split; [discriminate|intros H; inversion H].
Qed.

Lemma holds_insert participantMap seen id :
  holds participantMap seen -> holds (<[id := true]> participantMap) (seen ++ [id]).
Proof.
  intros Hholds id'. rewrite elem_of_app, list_elem_of_singleton.
  destruct (decide (id = id')) as [->|Hne].
  - rewrite lookup_insert_eq. simpl. tauto.
  - rewrite lookup_insert_ne by exact Hne. rewrite (Hholds id').
    split; [tauto|intros [?|?]; congruence].
Qed.

Lemma validateParticipantIDs_None ids : forall participantMap seen,
  holds participantMap seen ->
  validateParticipantIDs ids participantMap = None
  <-> ("" ∉ ids) /\ NoDup ids /\ forall id, id ∈ ids -> id ∉ seen.
Proof.
  induction ids as [|id ids IH]; intros participantMap seen Hholds; simpl.
  - split; [intros _|reflexivity]. split; [intros H; inversion H|].
    split; [constructor|intros id H; inversion H].
  - destruct (bool_decide_reflect (id = "")) as [->|Hne].
    { split; [discriminate|]. intros (Hempty & _). exfalso. apply Hempty. left. }
    destruct (default false (participantMap !! id)) eqn:Hseen.
    { split; [discriminate|]. intros (_ & _ & Hfresh). exfalso.
      apply (Hfresh id); [left|]. now apply Hholds. }
    assert (id ∉ seen) as Hfresh by (rewrite <- (Hholds id); congruence).
    rewrite (IH _ _ (holds_insert _ _ id Hholds)).
    rewrite not_elem_of_cons, NoDup_cons.
    split.
    + intros (Hempty & Hnodup & Hrest). repeat split; try congruence; try assumption.
      * intros Hin. apply (Hrest id Hin), elem_of_app. right. left.
      * intros id' [->|Hin]%elem_of_cons; [exact Hfresh|].
        intros Hseen'. apply (Hrest id' Hin), elem_of_app. now left.
    + intros ((_ & Hempty) & (Hnotin & Hnodup) & Hrest). repeat split; try assumption.
      intros id' Hin [Hseen'|Heq%list_elem_of_singleton]%elem_of_app; [|congruence].
      apply (Hrest id'); [now right|exact Hseen'].
Qed.

Lemma validateParticipantIDs_Some ids : forall participantMap seen err,
  holds participantMap seen ->
  validateParticipantIDs ids participantMap = Some err ->
  exists i id,
    ids !! i = Some id
    /\ ("" ∉ take i ids) /\ NoDup (take i ids)
    /\ (forall id', id' ∈ take i ids -> id' ∉ seen)
    /\ (id = "" /\ err = errors_New "participant ID cannot be empty"
        \/ id <> "" /\ (id ∈ seen \/ id ∈ take i ids)
           /\ err = errors_New "duplicate participant IDs are not allowed").
Proof.
  induction ids as [|id ids IH]; intros participantMap seen err Hholds; simpl; [discriminate|].
  destruct (bool_decide_reflect (id = "")) as [->|Hne].
  { intros [= <-]. exists 0%nat, "". simpl.
    split; [reflexivity|]. split; [apply not_elem_of_nil|]. split; [constructor|].
    split; [intros id' H; inversion H|]. now left. }
  destruct (default false (participantMap !! id)) eqn:Hseen.
  { intros [= <-]. exists 0%nat, id. simpl.
    split; [reflexivity|]. split; [apply not_elem_of_nil|]. split; [constructor|].
    split; [intros id' H; inversion H|]. right.
    split; [exact Hne|]. split; [left; now apply Hholds|reflexivity]. }
  assert (id ∉ seen) as Hfresh by (rewrite <- (Hholds id); congruence).
  intros Herr. destruct (IH _ _ _ (holds_insert _ _ id Hholds) Herr)
    as (i & id' & Hlookup & Hempty & Hnodup & Hrest & Hcase).
  exists (S i), id'. simpl. split; [exact Hlookup|]. split; [|split; [|split]].
  - rewrite not_elem_of_cons. split; [congruence|exact Hempty].
  - apply NoDup_cons. split; [|exact Hnodup].
    intros Hin. apply (Hrest id Hin), elem_of_app. right. left.
  - intros id'' [->|Hin]%elem_of_cons; [exact Hfresh|].
    intros Hseen'. apply (Hrest id'' Hin), elem_of_app. now left.
  - destruct Hcase as [[-> ->]|(Hne' & Hin & ->)]; [now left|right].
    split; [exact Hne'|]. split; [|reflexivity].
    destruct Hin as [[Hin|Heq%list_elem_of_singleton]%elem_of_app|Hin].
    + now left.
    + subst id'. right. left.
    + right. now right.
Qed.

Lemma firstOffender_offends ids i id :
  firstOffender ids i id -> ~ (("" ∉ ids) /\ NoDup ids).
Proof.
  intros (Hlookup & _ & _ & Hbad) (Hempty & Hnodup).
  destruct Hbad as [->|Hin].
  - apply Hempty. apply list_elem_of_lookup. now exists i.
  - apply list_elem_of_lookup in Hin as (j & Hj).
    apply lookup_take_Some in Hj as (Hj & Hlt).
    pose proof (NoDup_lookup _ _ _ _ Hnodup Hlookup Hj). lia.
Qed.

Lemma firstOffender_before ids i j id id' :
  firstOffender ids i id -> firstOffender ids j id' -> ~ (i < j)%nat.
Proof.
  intros (Hi & _ & _ & Hbad) (_ & Hempty & Hnodup & _) Hlt.
  assert (take j ids !! i = Some id) as Hi' by (apply lookup_take_Some; split; [exact Hi|lia]).
  destruct Hbad as [->|Hin].
  - apply Hempty. apply list_elem_of_lookup. now exists i.
  - apply list_elem_of_lookup in Hin as (k & Hk).
    apply lookup_take_Some in Hk as (Hk & Hki).
    assert (take j ids !! k = Some id) as Hk' by (apply lookup_take_Some; split; [exact Hk|lia]).
    pose proof (NoDup_lookup _ _ _ _ Hnodup Hi' Hk'). lia.
Qed.

Lemma firstOffender_unique ids i j id id' :
  firstOffender ids i id -> firstOffender ids j id' -> i = j /\ id = id'.
Proof.
  intros Hi Hj.
  pose proof (firstOffender_before _ _ _ _ _ Hi Hj).
  pose proof (firstOffender_before _ _ _ _ _ Hj Hi).
  assert (i = j) as -> by lia. split; [reflexivity|].
  destruct Hi as (Hi & _), Hj as (Hj & _). congruence.
Qed.

Lemma validateParticipantIDs_firstOffender ids i id :
  firstOffender ids i id ->
  validateParticipantIDs ids ∅
  = Some (if bool_decide (id = "")
          then errors_New "participant ID cannot be empty"
          else errors_New "duplicate participant IDs are not allowed").
Proof.
  intros Hfirst.
  destruct (validateParticipantIDs ids ∅) as [err|] eqn:Hresult.
  - apply (validateParticipantIDs_Some _ _ [] _ holds_empty) in Hresult
      as (j & id' & Hlookup & Hempty & Hnodup & _ & Hcase).
    assert (firstOffender ids j id') as Hfirst'.
    { repeat split; try assumption.
      destruct Hcase as [[-> _]|(_ & [Hin|Hin] & _)]; [now left|inversion Hin|now right]. }
    destruct (firstOffender_unique _ _ _ _ _ Hfirst Hfirst') as [-> ->].
    destruct Hcase as [[-> ->]|(Hne & _ & ->)]; [reflexivity|].
    now rewrite bool_decide_eq_false_2.
  - apply (validateParticipantIDs_None _ _ [] holds_empty) in Hresult as (Hempty & Hnodup & _).
    now destruct (firstOffender_offends _ _ _ Hfirst).
Qed.

Lemma validateParticipantIDs_clean ids :
  "" ∉ ids -> NoDup ids -> validateParticipantIDs ids ∅ = None.
Proof.
  intros Hempty Hnodup. apply (validateParticipantIDs_None _ _ [] holds_empty).
  repeat split; try assumption. intros id _ H. inversion H.
Qed.

Section validation.

Variable AddDate : Time -> Z -> Z -> Z -> Time.

(** What is left of [validateScheduleRequest] once the participants are
    through: checks 4 to 9. *)
Lemma validateScheduleRequest_clean now req :
  ScheduleRequest.ParticipantIDs req <> [] ->
  ("" ∉ ScheduleRequest.ParticipantIDs req) ->
  NoDup (ScheduleRequest.ParticipantIDs req) ->
  validateScheduleRequest AddDate now req
  = let d := ScheduleRequest.DurationMinutes req in
    let window := ScheduleRequest.TimeRange req in
    if d <=? 0 then Some (errors_New "duration must be greater than 0 minutes")
    else if 480 <? d then Some (errors_New "duration cannot exceed 8 hours (480 minutes)")
    else if instant (TimeRange.Start window) =? 0 then Some (errors_New "start time is required")
    else if instant (TimeRange.End window) =? 0 then Some (errors_New "end time is required")
    else if instant (TimeRange.End window) <? instant (TimeRange.Start window)
    then Some (errors_New "start time must be before end time")
    else if instant (TimeRange.Start window) <? instant now
    then Some (errors_New "start time cannot be in the past. Please enter a valid future start date.")
    else if instant (AddDate now 1 0 0) <? instant (TimeRange.End window)
    then Some (errors_New "end time cannot be more than 1 year in the future")
    else if instant (TimeRange.End window) <? instant (TimeRange.Start window) + d * Minute
    then Some (errors_New "duration does not fit within the specified time range")
    else None.
Proof.
  intros Hsome Hempty Hnodup. unfold validateScheduleRequest.
  rewrite (validateParticipantIDs_clean _ Hempty Hnodup).
  destruct (ScheduleRequest.ParticipantIDs req) as [|id ids]; [congruence|].
  cbn [length]. replace (Z.of_nat (S (length ids)) =? 0) with false by (symmetry; apply Z.eqb_neq; lia).
  cbv zeta. unfold IsZero, After, Before, Add; cbn [instant].
  destruct (ScheduleRequest.DurationMinutes req <=? 0) eqn:Hpos; [reflexivity|].
  destruct (480 <? ScheduleRequest.DurationMinutes req) eqn:Hmax; [reflexivity|].
  apply Z.leb_gt in Hpos. apply Z.ltb_ge in Hmax.
  change (wrap64 (ScheduleRequest.DurationMinutes req * Minute)) with (requestDuration req).
  rewrite requestDuration_exact by lia. reflexivity.
Qed.

Lemma validateScheduleRequest_accepts now req :
  let d := ScheduleRequest.DurationMinutes req in
  let window := ScheduleRequest.TimeRange req in
  ScheduleRequest.ParticipantIDs req <> [] ->
  ("" ∉ ScheduleRequest.ParticipantIDs req) ->
  NoDup (ScheduleRequest.ParticipantIDs req) ->
  0 < d <= 480 ->
  instant (TimeRange.Start window) <> 0 ->
  instant (TimeRange.End window) <> 0 ->
  instant (TimeRange.Start window) <= instant (TimeRange.End window) ->
  instant now <= instant (TimeRange.Start window) ->
  instant (TimeRange.End window) <= instant (AddDate now 1 0 0) ->
  instant (TimeRange.Start window) + d * Minute <= instant (TimeRange.End window) ->
  validateScheduleRequest AddDate now req = None.
Proof.
  intros d window Hsome Hempty Hnodup Hd Hstart Hend Horder Hnow Hyear Hfits.
  rewrite validateScheduleRequest_clean by assumption. subst d window.
  cbv zeta. validate_tests.
Qed.

(** The errors of [validateScheduleRequest] are made by [errors.New]: none
    of them is one of the service's four error values. *)
Lemma validateParticipantIDs_errors_New ids : forall participantMap err,
  validateParticipantIDs ids participantMap = Some err -> exists text, err = errors_New text.
Proof.
  induction ids as [|id ids IH]; intros participantMap err; simpl; [discriminate|].
  destruct (bool_decide _); [intros [= <-]; eauto|].
  destruct (default false _); [intros [= <-]; eauto|]. apply IH.
Qed.

Lemma validateScheduleRequest_errors_New now req err :
  validateScheduleRequest AddDate now req = Some err -> exists text, err = errors_New text.
Proof.
  unfold validateScheduleRequest.
  destruct (_ =? 0); [intros [= <-]; eauto|].
  destruct (validateParticipantIDs _ _) as [err'|] eqn:Hids.
  { intros [= <-]. eapply validateParticipantIDs_errors_New, Hids. }
  repeat match goal with
         | |- context [if ?test then _ else _] => destruct test; [intros [= <-]; eauto|]
         end.
  discriminate.
Qed.

End validation.

(** C5, as the code has it. [validateScheduleRequest] returns the error of
    the first failing check, the checks being taken in this order: (1) some
    participant; (2, 3) the identifiers one after the other in the order of
    the list, each first for being empty and then for repeating an earlier
    one, so that the error is that of the first identifier that offends;
    (4) the duration is positive, then at most 480; (5) the start is present,
    then the end; (6) the start is not after the end; (7) the start is not
    before now; (8) the end is at most one year after now; (9) the start plus
    the duration is not after the end. A request that passes them all is
    accepted. *)
Theorem validateScheduleRequest_first_failing_check
    (AddDate : Time -> Z -> Z -> Z -> Time) (now : Time) (req : ScheduleRequest.t) :
  let ids := ScheduleRequest.ParticipantIDs req in
  let d := ScheduleRequest.DurationMinutes req in
  let start := instant (TimeRange.Start (ScheduleRequest.TimeRange req)) in
  let end_ := instant (TimeRange.End (ScheduleRequest.TimeRange req)) in
  let maxFuture := instant (AddDate now 1 0 0) in
  let result := validateScheduleRequest AddDate now req in
  let participants := ids <> [] /\ ("" ∉ ids) /\ NoDup ids in
  (ids = [] -> result = Some (errors_New "at least one participant is required"))
  /\ (forall i id, firstOffender ids i id ->
        result = Some (if bool_decide (id = "")
                       then errors_New "participant ID cannot be empty"
                       else errors_New "duplicate participant IDs are not allowed"))
  /\ (participants -> d <= 0 ->
      result = Some (errors_New "duration must be greater than 0 minutes"))
  /\ (participants -> 480 < d ->
      result = Some (errors_New "duration cannot exceed 8 hours (480 minutes)"))
  /\ (participants -> 0 < d <= 480 -> start = 0 ->
      result = Some (errors_New "start time is required"))
  /\ (participants -> 0 < d <= 480 -> start <> 0 -> end_ = 0 ->
      result = Some (errors_New "end time is required"))
  /\ (participants -> 0 < d <= 480 -> start <> 0 -> end_ <> 0 -> end_ < start ->
      result = Some (errors_New "start time must be before end time"))
  /\ (participants -> 0 < d <= 480 -> start <> 0 -> end_ <> 0 -> start <= end_ ->
      start < instant now ->
      result = Some (errors_New
        "start time cannot be in the past. Please enter a valid future start date."))
  /\ (participants -> 0 < d <= 480 -> start <> 0 -> end_ <> 0 -> start <= end_ ->
      instant now <= start -> maxFuture < end_ ->
      result = Some (errors_New "end time cannot be more than 1 year in the future"))
  /\ (participants -> 0 < d <= 480 -> start <> 0 -> end_ <> 0 -> start <= end_ ->
      instant now <= start -> end_ <= maxFuture -> end_ < start + d * Minute ->
      result = Some (errors_New "duration does not fit within the specified time range"))
  /\ (participants -> 0 < d <= 480 -> start <> 0 -> end_ <> 0 -> start <= end_ ->
      instant now <= start -> end_ <= maxFuture -> start + d * Minute <= end_ ->
      result = None).
Proof.
  intros ids d start end_ maxFuture result participants.
  split; [|split].
  - intros Hnil. subst result ids. unfold validateScheduleRequest. now rewrite Hnil.
  - intros i id Hfirst. subst result. unfold validateScheduleRequest. fold ids.
    destruct ids as [|id0 ids0] eqn:Hids.
    { destruct Hfirst as (Hlookup & _). rewrite lookup_nil in Hlookup. discriminate. }
    cbn [length].
    replace (Z.of_nat (S (length ids0)) =? 0) with false
      by (symmetry; apply Z.eqb_neq; lia).
    now rewrite (validateParticipantIDs_firstOffender _ _ _ Hfirst).
  - repeat split; intros (Hsome & Hempty & Hnodup); intros; subst result;
      rewrite validateScheduleRequest_clean by assumption;
      subst ids d start end_ maxFuture; cbv zeta; validate_tests.
Qed.

(** What the code does where the claim says otherwise: with the clock at
    08:00, the participants ["a"; "a"; ""] are turned down for the duplicate,
    which comes before the empty identifier, and a window that starts and ends
    at 09:00 gets through check 6 and is turned down by check 9. *)
Lemma validateScheduleRequest_other_errors :
  validateScheduleRequest addDays now_08_00
    (request ["a"; "a"; ""] 60 (on_2024_09_01 9 0) (on_2024_09_01 17 0))
  = Some (errors_New "duplicate participant IDs are not allowed")
  /\ validateScheduleRequest addDays now_08_00
       (request ["user1"] 60 (on_2024_09_01 9 0) (on_2024_09_01 9 0))
     = Some (errors_New "duration does not fit within the specified time range").
Proof. split; vm_compute; reflexivity. Qed.

(** ** The service *)

Section Schedule_runs.

Context {R : Type}.
Implicit Types (k : Prog (option R * option error)) (r : option R * option error).

Lemma exec_Schedule_users_inv ids k calls r :
  exec (Schedule_users ids k) calls r ->
  r = (None, Some ErrUserNotFound)
  \/ exists users rest,
       length users = length ids /\ calls = usersFound ids users ++ rest /\ exec k rest r.
Proof.
  revert calls. induction ids as [|id ids IH]; intros calls; simpl.
  - intros Hk. right. now exists [], calls.
  - intros ([user [err|]] & rest & -> & Hrest); simpl in Hrest.
    + left. now destruct Hrest.
    + destruct (IH _ Hrest) as [->|(users & rest' & Hlen & -> & Hk)]; [now left|right].
      exists (user :: users), rest'. simpl. now rewrite Hlen.
Qed.

Lemma exec_Schedule_users_intro ids users k rest r :
  length users = length ids -> exec k rest r ->
  exec (Schedule_users ids k) (usersFound ids users ++ rest) r.
Proof.
  revert users. induction ids as [|id ids IH]; intros [|user users]; simpl; try discriminate.
  - now intros _.
  - intros [= Hlen] Hk. exists (user, None), (usersFound ids users ++ rest).
    split; [reflexivity|]. now apply IH.
Qed.

Lemma exec_Schedule_events_inv req ids (kont : Events -> Prog (option R * option error)) :
  forall allEvents calls r,
  exec (Schedule_events req ids allEvents kont) calls r ->
  r = (None, Some ErrInternalError)
  \/ exists fetched rest,
       length fetched = length ids
       /\ calls = eventsFetched req ids fetched ++ rest
       /\ exec (kont (collected ids fetched allEvents)) rest r.
Proof.
  induction ids as [|id ids IH]; intros allEvents calls r; simpl.
  - intros Hk. right. now exists [], calls.
  - intros ([userEvents [err|]] & rest & -> & Hrest); simpl in Hrest.
    + left. now destruct Hrest.
    + destruct (IH _ _ _ Hrest) as [->|(fetched & rest' & Hlen & -> & Hk)]; [now left|right].
      exists (userEvents :: fetched), rest'. simpl. now rewrite Hlen.
Qed.

Lemma exec_Schedule_events_intro req ids (kont : Events -> Prog (option R * option error)) :
  forall fetched allEvents rest r,
  length fetched = length ids ->
  exec (kont (collected ids fetched allEvents)) rest r ->
  exec (Schedule_events req ids allEvents kont) (eventsFetched req ids fetched ++ rest) r.
Proof.
  induction ids as [|id ids IH]; intros [|userEvents fetched] allEvents rest r;
    simpl; try discriminate.
  - now intros _.
  - intros [= Hlen] Hk. exists (userEvents, None), (eventsFetched req ids fetched ++ rest).
    split; [reflexivity|]. now apply IH.
Qed.

Lemma exec_Schedule_create_inv newEvent meetingTitle slot ids k calls r :
  exec (Schedule_create newEvent meetingTitle slot ids k) calls r ->
  r = (None, Some ErrInternalError) \/ exists rest, exec k rest r.
Proof.
  revert calls. induction ids as [|id ids IH]; intros calls; simpl.
  - intros Hk. right. now exists calls.
  - intros ([err|] & rest & -> & Hrest); simpl in Hrest.
    + left. now destruct Hrest.
    + apply (IH _ Hrest).
Qed.

End Schedule_runs.

Section Schedule_facts.

Variable mapRange : MapRange.
Variable AddDate : Time -> Z -> Z -> Z -> Time.
Variable meetingID : string.
Variable newEvent : string -> string * Time * Time.

Lemma FindOptimalSlot_no_error req events : (FindOptimalSlot mapRange req events).2 = None.
Proof. rewrite FindOptimalSlot_unfold. now destruct (findAvailableSlots _ _ _). Qed.

(** Where a run of [Schedule] can end. *)
Lemma exec_Schedule_inv now req calls r :
  exec (Schedule mapRange AddDate meetingID newEvent now req) calls r ->
  let ids := ScheduleRequest.ParticipantIDs req in
  match validateScheduleRequest AddDate now req with
  | Some err => calls = [] /\ r = (None, Some err)
  | None =>
      r = (None, Some ErrUserNotFound)
      \/ r = (None, Some ErrInternalError)
      \/ exists users fetched rest,
           length users = length ids /\ length fetched = length ids
           /\ calls = usersFound ids users ++ eventsFetched req ids fetched ++ rest
           /\ match (FindOptimalSlot mapRange req (collected ids fetched ∅)).1 with
              | None => rest = [] /\ r = (None, Some ErrNoAvailableSlot)
              | Some slot =>
                  exists resp,
                    r = (Some resp, None)
                    /\ ScheduleResponse.StartTime resp = TimeSlot.Start slot
                    /\ ScheduleResponse.EndTime resp = TimeSlot.End slot
              end
  end.
Proof.
  intros Hrun ids. subst ids. unfold Schedule in Hrun.
  destruct (validateScheduleRequest AddDate now req) as [err|]; [exact Hrun|].
  apply exec_Schedule_users_inv in Hrun as [->|(users & rest & Husers & -> & Hrun)];
    [now left|].
  apply exec_Schedule_events_inv in Hrun as [->|(fetched & rest' & Hfetched & -> & Hrun)];
    [right; now left|].
  pose proof (FindOptimalSlot_no_error req
                (collected (ScheduleRequest.ParticipantIDs req) fetched ∅)) as Hnoerr.
  destruct (FindOptimalSlot mapRange req _) as [slot err] eqn:Hfind.
  simpl in Hnoerr. subst err.
  destruct slot as [slot|].
  - apply exec_Schedule_create_inv in Hrun as [->|(rest'' & [_ ->])]; [right; now left|].
    right; right. exists users, fetched, rest'. rewrite Hfind. simpl. eauto 10.
  - destruct Hrun as [-> ->].
    right; right. exists users, fetched, []. now rewrite Hfind.
Qed.

(** A run in which every lookup succeeds and the search finds no slot. *)
Lemma exec_Schedule_no_slot now req users fetched :
  let ids := ScheduleRequest.ParticipantIDs req in
  validateScheduleRequest AddDate now req = None ->
  length users = length ids -> length fetched = length ids ->
  (FindOptimalSlot mapRange req (collected ids fetched ∅)).1 = None ->
  exec (Schedule mapRange AddDate meetingID newEvent now req)
       (usersFound ids users ++ eventsFetched req ids fetched)
       (None, Some ErrNoAvailableSlot).
Proof.
  intros ids Hvalid Husers Hfetched Hnone. subst ids. unfold Schedule. rewrite Hvalid.
  apply exec_Schedule_users_intro; [exact Husers|].
  rewrite <- (app_nil_r (eventsFetched _ _ _)).
  apply exec_Schedule_events_intro; [exact Hfetched|].
  pose proof (FindOptimalSlot_no_error req
                (collected (ScheduleRequest.ParticipantIDs req) fetched ∅)) as Hnoerr.
  destruct (FindOptimalSlot mapRange req _) as [slot err].
  simpl in *. subst. now split.
Qed.

(** C6. [FindOptimalSlot] never returns an error, and it returns no slot
    exactly when [findAvailableSlots] found no candidate. When
    [validateScheduleRequest] turns the request down, [Schedule] returns that
    error at once, without a call to the repository and without a search, and
    the error is one made by [errors.New], not [ErrNoAvailableSlot]. When
    the request is valid, every lookup succeeds and the search comes back
    without a slot, [Schedule] ends with [ErrNoAvailableSlot] and no response;
    and it ends with [ErrNoAvailableSlot] in that case only. *)
Theorem no_slot_is_a_result_of_its_own (now : Time) (req : ScheduleRequest.t) :
  let ids := ScheduleRequest.ParticipantIDs req in
  let run := Schedule mapRange AddDate meetingID newEvent now req in
  (forall events, (FindOptimalSlot mapRange req events).2 = None)
  /\ (forall events,
        (FindOptimalSlot mapRange req events).1 = None
        <-> findAvailableSlots mapRange req events = [])
  /\ (forall err,
        validateScheduleRequest AddDate now req = Some err ->
        run = Ret (None, Some err)
        /\ (forall calls r, exec run calls r -> calls = [] /\ r = (None, Some err))
        /\ exists text, err = errors_New text)
  /\ (forall users fetched,
        validateScheduleRequest AddDate now req = None ->
        length users = length ids -> length fetched = length ids ->
        (FindOptimalSlot mapRange req (collected ids fetched ∅)).1 = None ->
        exec run (usersFound ids users ++ eventsFetched req ids fetched)
             (None, Some ErrNoAvailableSlot))
  /\ (forall calls resp,
        exec run calls (resp, Some ErrNoAvailableSlot) ->
        resp = None
        /\ validateScheduleRequest AddDate now req = None
        /\ exists users fetched,
             length users = length ids /\ length fetched = length ids
             /\ calls = usersFound ids users ++ eventsFetched req ids fetched
             /\ (FindOptimalSlot mapRange req (collected ids fetched ∅)).1 = None).
Proof.
  intros ids run. split; [|split; [|split; [|split]]].
  - intros events. apply FindOptimalSlot_no_error.
  - intros events. apply FindOptimalSlot_None.
  - intros err Hinvalid. subst run. unfold Schedule. rewrite Hinvalid.
    split; [reflexivity|]. split; [now intros calls r [-> ->]|].
    eapply validateScheduleRequest_errors_New, Hinvalid.
  - intros users fetched. apply exec_Schedule_no_slot.
  - intros calls resp Hrun. apply exec_Schedule_inv in Hrun. subst ids. cbv zeta in Hrun.
    destruct (validateScheduleRequest AddDate now req) as [err|] eqn:Hvalid.
    { destruct Hrun as [_ [= -> <-]].
      apply validateScheduleRequest_errors_New in Hvalid as [text [=]]. }
    destruct Hrun as [[=]|[[=]|(users & fetched & rest & Husers & Hfetched & -> & Hfind)]].
    destruct (FindOptimalSlot mapRange req _).1 as [slot|] eqn:Hslot.
    { destruct Hfind as (resp' & [=] & _). }
    destruct Hfind as [-> [= ->]]. split; [reflexivity|]. split; [reflexivity|].
    exists users, fetched. now rewrite app_nil_r.
Qed.

End Schedule_facts.

(** ** A duration that fills the window *)

Lemma findAvailableSlots_exact_fit mapRange req events :
  instant (TimeRange.Start (ScheduleRequest.TimeRange req)) + requestDuration req
  = instant (TimeRange.End (ScheduleRequest.TimeRange req)) ->
  findAvailableSlots mapRange req events = [].
Proof.
  intros Hfit. rewrite findAvailableSlots_spec.
  rewrite filter_none; [reflexivity|].
  intros k _ Hprod. unfold produced in Hprod.
  apply andb_true_iff in Hprod as [_ Hprod]. apply andb_true_iff in Hprod as [Hend _].
  unfold Before, candidateAt in Hend. cbn [TimeSlot.End Add instant] in Hend.
  apply Z.ltb_lt in Hend. rewrite gridStart_instant in Hend. lia.
Qed.

(** C10. When the start plus the duration is the end of the window, check 9
    of [validateScheduleRequest] lets the request through (it is accepted when
    checks 1 to 8 pass), and yet [findAvailableSlots] has no candidate,
    whatever the busy intervals: [FindOptimalSlot] returns no slot, no run of
    [Schedule] ends with a response, and a run in which every lookup
    succeeds ends with [ErrNoAvailableSlot]. *)
Theorem exact_fit_is_accepted_and_never_scheduled
    (mapRange : MapRange) (AddDate : Time -> Z -> Z -> Z -> Time)
    (meetingID : string) (newEvent : string -> string * Time * Time)
    (now : Time) (req : ScheduleRequest.t) :
  let ids := ScheduleRequest.ParticipantIDs req in
  let d := ScheduleRequest.DurationMinutes req in
  let window := ScheduleRequest.TimeRange req in
  let run := Schedule mapRange AddDate meetingID newEvent now req in
  instant (TimeRange.Start window) + requestDuration req = instant (TimeRange.End window) ->
  (ids <> [] -> ("" ∉ ids) -> NoDup ids -> 0 < d <= 480 ->
   instant (TimeRange.Start window) <> 0 -> instant (TimeRange.End window) <> 0 ->
   instant now <= instant (TimeRange.Start window) ->
   instant (TimeRange.End window) <= instant (AddDate now 1 0 0) ->
   validateScheduleRequest AddDate now req = None)
  /\ validateScheduleRequest AddDate now req
     <> Some (errors_New "duration does not fit within the specified time range")
  /\ (forall events, findAvailableSlots mapRange req events = [])
  /\ (forall events, FindOptimalSlot mapRange req events = (None, None))
  /\ (forall calls resp err, exec run calls (resp, err) -> resp = None /\ err <> None)
  /\ (forall users fetched,
        validateScheduleRequest AddDate now req = None ->
        length users = length ids -> length fetched = length ids ->
        exec run (usersFound ids users ++ eventsFetched req ids fetched)
             (None, Some ErrNoAvailableSlot)).
Proof.
  intros ids d window run Hfit.
  assert (Hnone : forall events, FindOptimalSlot mapRange req events = (None, None)).
  { intros events. rewrite FindOptimalSlot_unfold.
    now rewrite (findAvailableSlots_exact_fit _ _ _ Hfit). }
  split; [|split; [|split; [|split; [|split]]]].
  - intros Hsome Hempty Hnodup Hd Hstart Hend Hnow Hyear.
    subst ids d window. rewrite requestDuration_exact in Hfit by lia.
    apply validateScheduleRequest_accepts; try assumption;
      change Minute with 60000000000 in *; lia.
  - subst ids d window. unfold validateScheduleRequest.
    destruct (_ =? 0); [discriminate|].
    destruct (validateParticipantIDs _ _) as [err|] eqn:Hids.
    { intros [= ->]. revert Hids. generalize (∅ : gmap string bool).
      induction (ScheduleRequest.ParticipantIDs req) as [|id l IH]; simpl; [discriminate|].
      intros m. destruct (bool_decide _); [discriminate|].
      destruct (default false _); [discriminate|]. apply IH. }
    repeat match goal with
           | |- context [if ?test then _ else _] =>
               destruct test eqn:?; [discriminate|]
           end.
    cbv zeta.
    replace (After _ _) with false; [discriminate|].
    symmetry. unfold After, Add; cbn [instant]. apply Z.ltb_ge.
    fold (requestDuration req). lia.
  - intros events. now apply findAvailableSlots_exact_fit.
  - exact Hnone.
  - intros calls resp err Hrun. apply exec_Schedule_inv in Hrun. cbv zeta in Hrun.
    destruct (validateScheduleRequest AddDate now req) as [err'|].
    { destruct Hrun as [_ [= -> ->]]. now split. }
    destruct Hrun as [[= -> ->]|[[= -> ->]|(users & fetched & rest & _ & _ & _ & Hfind)]];
      [now split|now split|].
    rewrite Hnone in Hfind. destruct Hfind as [_ [= -> ->]]. now split.
  - intros users fetched Hvalid Husers Hfetched.
    apply exec_Schedule_no_slot; try assumption. now rewrite Hnone.
Qed.

(** ** The theorems at the inputs of the tests *)

Lemma findAvailableSlots_sound_complete_witness :
  {| TimeSlot.Start := on_2024_09_01 9 0;
     TimeSlot.End := on_2024_09_01 10 0;
     TimeSlot.Score := 0 |}
  ∈ findAvailableSlots mapRange_listing
      (request ["user1"] 60 (on_2024_09_01 9 0) (on_2024_09_01 17 0)) ∅.
Proof.
  refine (proj1 (proj2 (proj2
            (findAvailableSlots_sound_complete mapRange_listing
               (request ["user1"] 60 (on_2024_09_01 9 0) (on_2024_09_01 17 0)) ∅
               mapRange_listing_ok))) 0%nat _ _ _).
  - vm_compute. reflexivity.
  - vm_compute. reflexivity.
  - intros user userEvents b Hlookup. rewrite lookup_empty in Hlookup. discriminate.
Defined.

(** A candidate from 10:00 to 11:00. The first participant has a meeting
    that ends ten minutes before it and one that starts two hours after it;
    the second has one that starts half an hour after it, and one across
    its start. *)
Lemma gap_and_buffer_scores_are_averages_witness :
  let slot := {| TimeSlot.Start := on_2024_09_01 10 0;
                 TimeSlot.End := on_2024_09_01 11 0;
                 TimeSlot.Score := 0 |} in
  let near := busy (on_2024_09_01 9 0) (on_2024_09_01 9 50) "user1" in
  let far := busy (on_2024_09_01 13 0) (on_2024_09_01 14 0) "user1" in
  let later := busy (on_2024_09_01 11 30) (on_2024_09_01 12 0) "user2" in
  let across := busy (on_2024_09_01 9 30) (on_2024_09_01 10 30) "user2" in
  let events : Events := {[ "user1" := [near; far]; "user2" := [later; across] ]} in
  (gapMinimizationScore mapRange_listing slot events
   = average [(1.0 * 0.5 * 0.8)%float; 1.0%float]
   /\ bufferTimeScore mapRange_listing slot events
      = average [(1.0 * (10 / 15.0))%float; 1.0%float])
  /\ (mapRange_listing events range_gapMinimizationScore (TimeSlot.Start slot) (TimeSlot.End slot)
      ≡ₚ [("user1", [near; far]); ("user2", [later; across])])
  /\ (participantFactor gapPenalty slot [near; far]
      = foldStep_sides gapPenalty slot (foldStep_sides gapPenalty slot 1.0%float near) far
      /\ participantFactor bufferPenalty slot [near; far]
         = foldStep_sides bufferPenalty slot (foldStep_sides bufferPenalty slot 1.0%float near) far)
  /\ (gapMinutes slot near = Some 10%float
      /\ foldStep_sides gapPenalty slot 1.0%float near = (1.0 * 0.5)%float
      /\ foldStep_sides bufferPenalty slot 1.0%float near = (1.0 * (10 / 15.0))%float)
  /\ (gapMinutes slot far = Some 120%float
      /\ foldStep_sides gapPenalty slot 0.5%float far = (0.5 * 0.8)%float
      /\ foldStep_sides bufferPenalty slot 0.5%float far = 0.5%float)
  /\ (gapMinutes slot later = Some 30%float
      /\ foldStep_sides gapPenalty slot 1.0%float later = 1.0%float
      /\ foldStep_sides bufferPenalty slot 1.0%float later = 1.0%float)
  /\ (gapMinutes slot across = None
      /\ foldStep_sides gapPenalty slot 1.0%float across = 1.0%float
      /\ foldStep_sides bufferPenalty slot 1.0%float across = 1.0%float)
  /\ (gapMinimizationScore mapRange_listing slot ∅ = 1.0%float
      /\ bufferTimeScore mapRange_listing slot ∅ = 1.0%float).
Proof.
  intros slot near far later across events.
  pose proof (gap_and_buffer_scores_are_averages mapRange_listing slot events
                mapRange_listing_ok) as H.
  cbv zeta in H. destruct H as (Hgap & Hbuffer & Hentries & Hlength & _ & Hfactor & Hstep & Hpenalty).
  assert (Hslot : instant (TimeSlot.Start slot) <= instant (TimeSlot.End slot))
    by (vm_compute; discriminate).
  assert (Hside : forall penalty acc b,
            instant (CalendarEvent.StartTime b) <= instant (CalendarEvent.EndTime b) ->
            forall gap, gapMinutes slot b = gap ->
            foldStep_sides penalty slot acc b
            = match gap with Some gap => penalty acc gap | None => acc end).
  { intros penalty acc b Hb gap <-. now apply Hstep. }
  split; [|split; [|split; [|split; [|split; [|split; [|split]]]]]].
  - split.
    + rewrite Hgap. vm_compute. reflexivity.
    + rewrite Hbuffer. vm_compute. reflexivity.
  - vm_compute. reflexivity.
  - split; rewrite Hfactor; reflexivity.
  - assert (Hminutes : gapMinutes slot near = Some 10%float) by (vm_compute; reflexivity).
    split; [exact Hminutes|].
    split; rewrite (Hside _ _ near ltac:(vm_compute; discriminate) _ Hminutes);
      [rewrite (proj1 (Hpenalty _ _))|rewrite (proj2 (Hpenalty _ _))]; reflexivity.
  - assert (Hminutes : gapMinutes slot far = Some 120%float) by (vm_compute; reflexivity).
    split; [exact Hminutes|].
    split; rewrite (Hside _ _ far ltac:(vm_compute; discriminate) _ Hminutes);
      [rewrite (proj1 (Hpenalty _ _))|rewrite (proj2 (Hpenalty _ _))]; reflexivity.
  - assert (Hminutes : gapMinutes slot later = Some 30%float) by (vm_compute; reflexivity).
    split; [exact Hminutes|].
    split; rewrite (Hside _ _ later ltac:(vm_compute; discriminate) _ Hminutes);
      [rewrite (proj1 (Hpenalty _ _))|rewrite (proj2 (Hpenalty _ _))]; reflexivity.
  - assert (Hminutes : gapMinutes slot across = None) by (vm_compute; reflexivity).
    split; [exact Hminutes|].
    split; rewrite (Hside _ _ across ltac:(vm_compute; discriminate) _ Hminutes); reflexivity.
  - exact (proj1 (proj2 (proj2 (proj2 (proj2
             (gap_and_buffer_scores_are_averages mapRange_listing slot ∅
                mapRange_listing_ok))))) eq_refl).
Defined.

Lemma exact_fit_is_accepted_and_never_scheduled_witness :
  validateScheduleRequest addDays now_08_00
    (request ["user1"] 60 (on_2024_09_01 9 0) (on_2024_09_01 10 0)) = None
  /\ FindOptimalSlot mapRange_listing
       (request ["user1"] 60 (on_2024_09_01 9 0) (on_2024_09_01 10 0)) ∅ = (None, None).
Proof.
  pose proof (exact_fit_is_accepted_and_never_scheduled mapRange_listing addDays
                EmptyString (fun _ => (EmptyString, now_08_00, now_08_00)) now_08_00
                (request ["user1"] 60 (on_2024_09_01 9 0) (on_2024_09_01 10 0))
                eq_refl) as (Haccepted & _ & _ & Hnone & _).
  split; [|apply Hnone].
  apply Haccepted.
  - discriminate.
  - intros Hin. apply list_elem_of_singleton in Hin. discriminate.
  - apply NoDup_singleton.
  - split; vm_compute; [reflexivity|discriminate].
  - vm_compute. discriminate.
  - vm_compute. discriminate.
  - vm_compute. discriminate.
  - vm_compute. discriminate.
Defined.

(** ** The bounds on the rounds of [sort.Slice] are not what ends its loops

    Each loop that the model runs for a bounded number of rounds has left by
    its own test when the rounds are used up: more rounds change nothing. *)

Section sort_rounds.

Context {A : Type} (less : A -> A -> bool).

Lemma sort_partition_up_range (data : list A) a n : forall i,
  i <= sort.partition_up less data a i n <= i + Z.of_nat n.
Proof.
  induction n as [|n IH]; intros i; simpl; [lia|].
  destruct (sort.Less _ _ _ _); [specialize (IH (i + 1))|]; lia.
Qed.

Lemma sort_partition_down_range (data : list A) a n : forall j,
  j - Z.of_nat n <= sort.partition_down less data a j n <= j.
Proof.
  induction n as [|n IH]; intros j; simpl; [lia|].
  destruct (negb _); [specialize (IH (j - 1))|]; lia.
Qed.

Lemma sort_partitionEqual_up_range (data : list A) a n : forall i,
  i <= sort.partitionEqual_up less data a i n <= i + Z.of_nat n.
Proof.
  induction n as [|n IH]; intros i; simpl; [lia|].
  destruct (negb _); [specialize (IH (i + 1))|]; lia.
Qed.

Lemma sort_partitionEqual_down_range (data : list A) a n : forall j,
  j - Z.of_nat n <= sort.partitionEqual_down less data a j n <= j.
Proof.
  induction n as [|n IH]; intros j; simpl; [lia|].
  destruct (sort.Less _ _ _ _); [specialize (IH (j - 1))|]; lia.
Qed.

Lemma sort_partition_loop_rounds r1 : forall r2 (data : list A) a i j,
  j + 1 - i <= Z.of_nat r1 -> j + 1 - i <= Z.of_nat r2 ->
  sort.partition_loop less r1 data a i j = sort.partition_loop less r2 data a i j.
Proof.
  induction r1 as [|r1 IH]; intros [|r2] data a i j H1 H2; try reflexivity.
  - simpl. replace (Z.to_nat (j + 1 - i)) with 0%nat by lia. simpl.
    replace (Z.to_nat (j + 1 - i)) with 0%nat by lia. simpl.
    now replace (j <? i) with true by (symmetry; apply Z.ltb_lt; lia).
  - simpl. replace (Z.to_nat (j + 1 - i)) with 0%nat by lia. simpl.
    replace (Z.to_nat (j + 1 - i)) with 0%nat by lia. simpl.
    now replace (j <? i) with true by (symmetry; apply Z.ltb_lt; lia).
  - cbn [sort.partition_loop].
    pose proof (sort_partition_up_range data a (Z.to_nat (j + 1 - i)) i) as Hi.
    set (i' := sort.partition_up less data a i _) in *.
    pose proof (sort_partition_down_range data a (Z.to_nat (j + 1 - i')) j) as Hj.
    set (j' := sort.partition_down less data a j _) in *.
    destruct (j' <? i'); [reflexivity|]. apply IH; lia.
Qed.

Lemma sort_partitionEqual_loop_rounds r1 : forall r2 (data : list A) a i j,
  j + 1 - i <= Z.of_nat r1 -> j + 1 - i <= Z.of_nat r2 ->
  sort.partitionEqual_loop less r1 data a i j = sort.partitionEqual_loop less r2 data a i j.
Proof.
  induction r1 as [|r1 IH]; intros [|r2] data a i j H1 H2; try reflexivity.
  - cbn [sort.partitionEqual_loop]. replace (Z.to_nat (j + 1 - i)) with 0%nat by lia. simpl.
    replace (Z.to_nat (j + 1 - i)) with 0%nat by lia. simpl.
    now replace (j <? i) with true by (symmetry; apply Z.ltb_lt; lia).
  - cbn [sort.partitionEqual_loop]. replace (Z.to_nat (j + 1 - i)) with 0%nat by lia. simpl.
    replace (Z.to_nat (j + 1 - i)) with 0%nat by lia. simpl.
    now replace (j <? i) with true by (symmetry; apply Z.ltb_lt; lia).
  - cbn [sort.partitionEqual_loop].
    pose proof (sort_partitionEqual_up_range data a (Z.to_nat (j + 1 - i)) i) as Hi.
    set (i' := sort.partitionEqual_up less data a i _) in *.
    pose proof (sort_partitionEqual_down_range data a (Z.to_nat (j + 1 - i')) j) as Hj.
    set (j' := sort.partitionEqual_down less data a j _) in *.
    destruct (j' <? i'); [reflexivity|]. apply IH; lia.
Qed.

Lemma sort_siftDown_loop_rounds r1 : forall r2 (data : list A) root hi first,
  0 <= root -> hi - root <= Z.of_nat r1 -> hi - root <= Z.of_nat r2 ->
  sort.siftDown_loop less r1 data root hi first = sort.siftDown_loop less r2 data root hi first.
Proof.
  induction r1 as [|r1 IH]; intros [|r2] data root hi first Hroot H1 H2; try reflexivity.
  - simpl. now replace (hi <=? 2 * root + 1) with true by (symmetry; apply Z.leb_le; lia).
  - simpl. now replace (hi <=? 2 * root + 1) with true by (symmetry; apply Z.leb_le; lia).
  - cbn [sort.siftDown_loop].
    destruct (hi <=? 2 * root + 1); [reflexivity|].
    set (child := if _ && _ then _ else _).
    assert (2 * root + 1 <= child) by (subst child; destruct (_ && _); lia).
    destruct (negb _); [reflexivity|]. apply IH; lia.
Qed.

Lemma sort_reverseRange_loop_rounds r1 : forall r2 (data : list A) i j,
  j - i <= Z.of_nat r1 -> j - i <= Z.of_nat r2 ->
  sort.reverseRange_loop r1 data i j = sort.reverseRange_loop r2 data i j.
Proof.
  induction r1 as [|r1 IH]; intros [|r2] data i j H1 H2; try reflexivity.
  - simpl. now replace (i <? j) with false by (symmetry; apply Z.ltb_ge; lia).
  - simpl. now replace (i <? j) with false by (symmetry; apply Z.ltb_ge; lia).
  - simpl. destruct (i <? j); [|reflexivity]. apply IH; lia.
Qed.

(** The rounds that the four functions give their loops are enough. *)
Lemma sort_siftDown_more_rounds (data : list A) lo hi first extra :
  0 <= lo ->
  sort.siftDown_loop less (Z.to_nat hi + extra) data lo hi first
  = sort.siftDown_func less data lo hi first.
Proof. intros Hlo. apply sort_siftDown_loop_rounds; lia. Qed.

Lemma sort_reverseRange_more_rounds (data : list A) a b extra :
  sort.reverseRange_loop (Z.to_nat (b - a) + extra) data a (b - 1)
  = sort.reverseRange_func data a b.
Proof. apply sort_reverseRange_loop_rounds; lia. Qed.

Lemma sort_partition_more_rounds (data : list A) a b i j extra :
  a < i -> j < b ->
  sort.partition_loop less (Z.to_nat (b - a) + extra) data a i j
  = sort.partition_loop less (Z.to_nat (b - a)) data a i j.
Proof. intros Hi Hj. apply sort_partition_loop_rounds; lia. Qed.

Lemma sort_partitionEqual_more_rounds (data : list A) a b pivot extra :
  sort.partitionEqual_loop less (S (Z.to_nat (b - a)) + extra)
    (sort.Swap data a pivot) a (a + 1) (b - 1)
  = sort.partitionEqual_func less data a b pivot.
Proof. apply sort_partitionEqual_loop_rounds; lia. Qed.

(** Where [partition_func] and [partitionEqual_func] put the pivot. *)
Lemma sort_partition_loop_mid r : forall (data : list A) a i j,
  i <= j + 2 ->
  i - 2 <= (sort.partition_loop less r data a i j).2 <= j.
Proof.
  induction r as [|r IH]; intros data a i j Hij; [simpl; lia|].
  cbn [sort.partition_loop].
  pose proof (sort_partition_up_range data a (Z.to_nat (j + 1 - i)) i) as Hi.
  set (i' := sort.partition_up less data a i _) in *.
  pose proof (sort_partition_down_range data a (Z.to_nat (j + 1 - i')) j) as Hj.
  set (j' := sort.partition_down less data a j _) in *.
  destruct (j' <? i') eqn:Hstop; [simpl; lia|].
  apply Z.ltb_ge in Hstop.
  specialize (IH (sort.Swap data i' j') a (i' + 1) (j' - 1) ltac:(lia)). lia.
Qed.

Lemma sort_partition_mid (data : list A) a b pivot :
  a < b -> a <= (sort.partition_func less data a b pivot).1.2 < b.
Proof.
  intros Hab. unfold sort.partition_func.
  set (data1 := sort.Swap data a pivot).
  pose proof (sort_partition_up_range data1 a (Z.to_nat (b - 1 + 1 - (a + 1))) (a + 1)) as Hi.
  set (i' := sort.partition_up less data1 a (a + 1) _) in *.
  pose proof (sort_partition_down_range data1 a (Z.to_nat (b - 1 + 1 - i')) (b - 1)) as Hj.
  set (j' := sort.partition_down less data1 a (b - 1) _) in *.
  destruct (j' <? i') eqn:Hstop; [simpl; lia|].
  apply Z.ltb_ge in Hstop.
  pose proof (sort_partition_loop_mid (Z.to_nat (b - a)) (sort.Swap data1 i' j') a
                (i' + 1) (j' - 1) ltac:(lia)) as Hmid.
  destruct (sort.partition_loop _ _ _ _ _ _) as [data2 mid]. simpl in *. lia.
Qed.

Lemma sort_partitionEqual_loop_mid r : forall (data : list A) a i j,
  i <= (sort.partitionEqual_loop less r data a i j).2 <= Z.max i (j + 1).
Proof.
  induction r as [|r IH]; intros data a i j; [simpl; lia|].
  cbn [sort.partitionEqual_loop].
  pose proof (sort_partitionEqual_up_range data a (Z.to_nat (j + 1 - i)) i) as Hi.
  set (i' := sort.partitionEqual_up less data a i _) in *.
  pose proof (sort_partitionEqual_down_range data a (Z.to_nat (j + 1 - i')) j) as Hj.
  set (j' := sort.partitionEqual_down less data a j _) in *.
  destruct (j' <? i') eqn:Hstop; [simpl; lia|].
  apply Z.ltb_ge in Hstop.
  specialize (IH (sort.Swap data i' j') a (i' + 1) (j' - 1)). lia.
Qed.

Lemma sort_partitionEqual_mid (data : list A) a b pivot :
  a < b -> a < (sort.partitionEqual_func less data a b pivot).2 <= b.
Proof.
  intros Hab. unfold sort.partitionEqual_func.
  pose proof (sort_partitionEqual_loop_mid (S (Z.to_nat (b - a))) (sort.Swap data a pivot) a
                (a + 1) (b - 1)) as Hmid. lia.
Qed.

(** [b - a] units of depth are enough for [pdqsort_func]. *)
Lemma sort_pdqsort_loop_depth d1 : forall d2 (data : list A) a b limit wasBalanced wasPartitioned,
  b - a <= Z.of_nat d1 -> b - a <= Z.of_nat d2 ->
  sort.pdqsort_loop less d1 data a b limit wasBalanced wasPartitioned
  = sort.pdqsort_loop less d2 data a b limit wasBalanced wasPartitioned.
Proof.
  induction d1 as [|d1 IH]; intros [|d2] data a b limit wasBalanced wasPartitioned H1 H2;
    try reflexivity.
  - simpl. now replace (b - a <=? 12) with true by (symmetry; apply Z.leb_le; lia).
  - simpl. now replace (b - a <=? 12) with true by (symmetry; apply Z.leb_le; lia).
  - cbn [sort.pdqsort_loop].
    destruct (b - a <=? 12) eqn:Hlen; [reflexivity|]. apply Z.leb_gt in Hlen.
    destruct (limit =? 0); [reflexivity|].
    destruct (if negb wasBalanced then _ else _) as [data1 limit1].
    destruct (sort.choosePivot_func less data1 a b) as [pivot hint].
    destruct (match hint with sort.decreasingHint => _ | _ => _ end) as [[data2 pivot2] hint2].
    destruct (match wasBalanced && wasPartitioned, hint2 with
              | true, sort.increasingHint => _ | _, _ => _ end) as [data3 sorted].
    destruct sorted; [reflexivity|].
    destruct (_ && _).
    + pose proof (sort_partitionEqual_mid data3 a b pivot2 ltac:(lia)) as Hmid.
      destruct (sort.partitionEqual_func less data3 a b pivot2) as [data4 mid].
      simpl in Hmid. apply IH; lia.
    + pose proof (sort_partition_mid data3 a b pivot2 ltac:(lia)) as Hmid.
      destruct (sort.partition_func less data3 a b pivot2) as [[data4 mid] already].
      simpl in Hmid.
      destruct (_ <? _).
      * rewrite (IH d2 data4 a mid) by lia. apply IH; lia.
      * rewrite (IH d2 data4 (mid + 1) b) by lia. apply IH; lia.
Qed.

Lemma sort_Slice_more_depth (x : list A) extra :
  sort.pdqsort_loop less (length x + extra) x 0 (Z.of_nat (length x))
    (sort.bits_Len (Z.of_nat (length x))) true true
  = sort.Slice less x.
Proof.
  unfold sort.Slice, sort.pdqsort_func. apply sort_pdqsort_loop_depth; lia.
Qed.

End sort_rounds.

(** ** Further properties of the service and of the search *)

(** X1. A run of [Schedule] that returns a response returns no error with
    it: the request was valid, every lookup succeeded, and the response
    carries the start and the end of the slot the search found for the
    events fetched. *)
Theorem Schedule_response_is_the_slot_found
    (mapRange : MapRange) (AddDate : Time -> Z -> Z -> Z -> Time) (meetingID : string)
    (newEvent : string -> string * Time * Time) (now : Time) (req : ScheduleRequest.t)
    (calls : list Answered) (resp : ScheduleResponse.t) (err : option error) :
  exec (Schedule mapRange AddDate meetingID newEvent now req) calls (Some resp, err) ->
  let ids := ScheduleRequest.ParticipantIDs req in
  err = None
  /\ validateScheduleRequest AddDate now req = None
  /\ exists users fetched rest slot,
       length users = length ids /\ length fetched = length ids
       /\ calls = usersFound ids users ++ eventsFetched req ids fetched ++ rest
       /\ (FindOptimalSlot mapRange req (collected ids fetched ∅)).1 = Some slot
       /\ ScheduleResponse.StartTime resp = TimeSlot.Start slot
       /\ ScheduleResponse.EndTime resp = TimeSlot.End slot.
Proof.
  intros Hrun ids. apply exec_Schedule_inv in Hrun. subst ids. cbv zeta in Hrun.
  destruct (validateScheduleRequest AddDate now req) as [err'|].
  { now destruct Hrun as [_ [=]]. }
  destruct Hrun as [[=]|[[=]|(users & fetched & rest & Husers & Hfetched & -> & Hfind)]].
  destruct (FindOptimalSlot mapRange req _).1 as [slot|] eqn:Hslot.
  - destruct Hfind as (resp' & [= -> ->] & Hstart & Hend).
    split; [reflexivity|]. split; [reflexivity|].
    exists users, fetched, rest, slot. now rewrite Hslot.
  - now destruct Hfind as [_ [=]].
Qed.

(** The run of Scenario A for one participant: the user is found, has no
    event, and the meeting is written to the calendar. *)
Lemma Schedule_response_is_the_slot_found_witness :
  let req := request ["user1"] 60 (on_2024_09_01 9 0) (on_2024_09_01 17 0) in
  let resp :=
    {| ScheduleResponse.MeetingID := "meeting";
       ScheduleResponse.Title := "New Meeting";
       ScheduleResponse.ParticipantIDs := ["user1"];
       ScheduleResponse.StartTime := on_2024_09_01 9 0;
       ScheduleResponse.EndTime := on_2024_09_01 10 0 |} in
  let created :=
    {| CalendarEvent.ID := "event";
       CalendarEvent.Title := "New Meeting";
       CalendarEvent.StartTime := on_2024_09_01 9 0;
       CalendarEvent.EndTime := on_2024_09_01 10 0;
       CalendarEvent.UserID := "user1";
       CalendarEvent.CreatedAt := now_08_00;
       CalendarEvent.UpdatedAt := now_08_00 |} in
  let calls :=
    [ answered (GetUser "user1") (None, None);
      answered (GetUserEvents "user1" (on_2024_09_01 9 0) (on_2024_09_01 17 0)) ([], None);
      answered (CreateEvent created) None ] in
  exec (Schedule mapRange_listing addDays "meeting" (fun _ => ("event", now_08_00, now_08_00))
          now_08_00 req) calls (Some resp, None)
  /\ validateScheduleRequest addDays now_08_00 req = None
  /\ exists users fetched rest slot,
       length users = 1%nat /\ length fetched = 1%nat
       /\ calls = usersFound ["user1"] users ++ eventsFetched req ["user1"] fetched ++ rest
       /\ (FindOptimalSlot mapRange_listing req (collected ["user1"] fetched ∅)).1 = Some slot
       /\ ScheduleResponse.StartTime resp = TimeSlot.Start slot
       /\ ScheduleResponse.EndTime resp = TimeSlot.End slot.
Proof.
  intros req resp created calls.
  assert (Hrun : exec (Schedule mapRange_listing addDays "meeting"
                         (fun _ => ("event", now_08_00, now_08_00)) now_08_00 req)
                      calls (Some resp, None)).
  { unfold Schedule.
    replace (validateScheduleRequest addDays now_08_00 req) with (@None error)
      by (vm_compute; reflexivity).
    change calls with (usersFound ["user1"] [None]
                       ++ (eventsFetched req ["user1"] [[]] ++ [answered (CreateEvent created) None])).
    apply exec_Schedule_users_intro; [reflexivity|].
    apply exec_Schedule_events_intro; [reflexivity|].
    replace (FindOptimalSlot mapRange_listing req (collected ["user1"] [[]] ∅))
      with (Some {| TimeSlot.Start := on_2024_09_01 9 0;
                    TimeSlot.End := on_2024_09_01 10 0;
                    TimeSlot.Score := 2.8 |}, @None error)
      by (vm_compute; reflexivity).
    cbn. exists None, []. split; [reflexivity|]. split; reflexivity. }
  split; [exact Hrun|].
  exact (proj2 (Schedule_response_is_the_slot_found _ _ _ _ _ _ _ _ _ Hrun)).
Defined.

(** X2. [sort.Slice] rearranges the slice and does nothing else: its result
    holds the elements of the slice, each as often as the slice does,
    whatever [less] answers; and the depth that bounds the recursion of its
    model is not what ends it, a larger one gives the same result. *)
Theorem Slice_rearranges {A : Type} (less : A -> A -> bool) (x : list A) :
  sort.Slice less x ≡ₚ x
  /\ forall extra,
       sort.pdqsort_loop less (length x + extra) x 0 (Z.of_nat (length x))
         (sort.bits_Len (Z.of_nat (length x))) true true
       = sort.Slice less x.
Proof.
  split; [apply sort_Slice_perm|]. intros extra. apply sort_Slice_more_depth.
Qed.

(** X3. The loop of [findAvailableSlots] ends because [currentTime] reaches
    the window's end: more rounds than the model gives it change nothing. *)
Theorem findAvailableSlots_ends_at_the_window
    (mapRange : MapRange) (req : ScheduleRequest.t) (events : Events) (extra : nat) :
  findAvailableSlots_loop mapRange (findAvailableSlots_rounds req + extra) req events []
    (TimeRange.Start (ScheduleRequest.TimeRange req))
  = findAvailableSlots mapRange req events.
Proof. apply findAvailableSlots_more_rounds. Qed.

(** ** Runs of [Schedule], call by call *)

Lemma exec_bind {R S : Type} (p : Prog R) (f : R -> Prog S) calls s :
  exec (bind p f) calls s
  <-> exists calls1 calls2 r, calls = calls1 ++ calls2 /\ exec p calls1 r /\ exec (f r) calls2 s.
Proof.
  revert calls. induction p as [r|X call k IH]; intros calls; simpl.
  - split.
    + intros Hf. now exists [], calls, r.
    + intros (calls1 & calls2 & r' & -> & [-> ->] & Hf). exact Hf.
  - split.
    + intros (answer & rest & -> & Hrest). apply IH in Hrest
        as (calls1 & calls2 & r & -> & Hk & Hf).
      exists (answered call answer :: calls1), calls2, r. split; [reflexivity|].
      split; [|exact Hf]. now exists answer, calls1.
    + intros (calls1 & calls2 & r & -> & (answer & rest & -> & Hk) & Hf).
      exists answer, (rest ++ calls2). split; [reflexivity|]. apply IH. eauto 10.
Qed.

Section Schedule_calls.

Context {R : Type}.
Implicit Types (k : Prog (option R * option error)) (r : option R * option error).

Lemma exec_Schedule_users_iff ids k calls r :
  exec (Schedule_users ids k) calls r
  <-> (exists users rest,
         length users = length ids /\ calls = usersFound ids users ++ rest /\ exec k rest r)
      \/ (exists j id users user e,
            ids !! j = Some id /\ length users = j
            /\ calls = usersFound (take j ids) users ++ [answered (GetUser id) (user, Some e)]
            /\ r = (None, Some ErrUserNotFound)).
Proof.
  revert calls. induction ids as [|id ids IH]; intros calls; simpl.
  - split.
    + intros Hk. left. now exists [], calls.
    + intros [(users & rest & Hlen & -> & Hk)|(j & id & ? & ? & ? & Hj & _)].
      * now destruct users.
      * now rewrite lookup_nil in Hj.
  - split.
    + intros ([user [e|]] & rest & -> & Hrest); simpl in Hrest.
      * destruct Hrest as [-> ->]. right. now exists 0%nat, id, [], user, e.
      * apply IH in Hrest
          as [(users & rest' & Hlen & -> & Hk)|(j & id' & users & user' & e & Hj & Hlen & -> & ->)].
        -- left. exists (user :: users), rest'. simpl. now rewrite Hlen.
        -- right. exists (S j), id', (user :: users), user', e. simpl. now rewrite Hlen.
    + intros [(users & rest & Hlen & -> & Hk)|(j & id' & users & user' & e & Hj & Hlen & -> & ->)].
      * destruct users as [|user users]; [discriminate|]. injection Hlen as Hlen.
        exists (user, None), (usersFound ids users ++ rest). split; [reflexivity|].
        apply IH. left. now exists users, rest.
      * destruct j as [|j]; simpl in *.
        -- injection Hj as ->. destruct users; [|discriminate]. simpl.
           now exists (user', Some e), [].
        -- destruct users as [|user users]; [discriminate|]. injection Hlen as Hlen.
           exists (user, None), (usersFound (take j ids) users ++ [answered (GetUser id') (user', Some e)]).
           split; [reflexivity|]. apply IH. right. now exists j, id', users, user', e.
Qed.

Lemma exec_Schedule_events_iff req ids (kont : Events -> Prog (option R * option error)) :
  forall allEvents calls r,
  exec (Schedule_events req ids allEvents kont) calls r
  <-> (exists fetched rest,
         length fetched = length ids
         /\ calls = eventsFetched req ids fetched ++ rest
         /\ exec (kont (collected ids fetched allEvents)) rest r)
      \/ (exists j id fetched userEvents e,
            ids !! j = Some id /\ length fetched = j
            /\ calls = eventsFetched req (take j ids) fetched
                       ++ [answered (GetUserEvents id
                                       (TimeRange.Start (ScheduleRequest.TimeRange req))
                                       (TimeRange.End (ScheduleRequest.TimeRange req)))
                                    (userEvents, Some e)]
            /\ r = (None, Some ErrInternalError)).
Proof.
  induction ids as [|id ids IH]; intros allEvents calls r; simpl.
  - split.
    + intros Hk. left. now exists [], calls.
    + intros [(fetched & rest & Hlen & -> & Hk)|(j & id & ? & ? & ? & Hj & _)].
      * now destruct fetched.
      * now rewrite lookup_nil in Hj.
  - split.
    + intros ([userEvents [e|]] & rest & -> & Hrest); simpl in Hrest.
      * destruct Hrest as [-> ->]. right. now exists 0%nat, id, [], userEvents, e.
      * apply IH in Hrest
          as [(fetched & rest' & Hlen & -> & Hk)
             |(j & id' & fetched & userEvents' & e & Hj & Hlen & -> & ->)].
        -- left. exists (userEvents :: fetched), rest'. simpl. now rewrite Hlen.
        -- right. exists (S j), id', (userEvents :: fetched), userEvents', e.
           simpl. now rewrite Hlen.
    + intros [(fetched & rest & Hlen & -> & Hk)
             |(j & id' & fetched & userEvents' & e & Hj & Hlen & -> & ->)].
      * destruct fetched as [|userEvents fetched]; [discriminate|]. injection Hlen as Hlen.
        exists (userEvents, None), (eventsFetched req ids fetched ++ rest).
        split; [reflexivity|]. apply IH. left. now exists fetched, rest.
      * destruct j as [|j]; simpl in *.
        -- injection Hj as ->. destruct fetched; [|discriminate]. simpl.
           now exists (userEvents', Some e), [].
        -- destruct fetched as [|userEvents fetched]; [discriminate|].
           injection Hlen as Hlen.
           eexists (userEvents, None), _. split; [reflexivity|]. apply IH. right.
           now exists j, id', fetched, userEvents', e.
Qed.

Lemma exec_Schedule_create_iff newEvent req slot ids k calls r :
  exec (Schedule_create newEvent (meetingTitle req) slot ids k) calls r
  <-> (exists rest, calls = eventsCreated newEvent req slot ids ++ rest /\ exec k rest r)
      \/ (exists j id e,
            ids !! j = Some id
            /\ calls = eventsCreated newEvent req slot (take j ids)
                       ++ [answered (CreateEvent (eventCreated newEvent req slot id)) (Some e)]
            /\ r = (None, Some ErrInternalError)).
Proof.
  revert calls. induction ids as [|id ids IH]; intros calls; simpl.
  - split.
    + intros Hk. left. now exists calls.
    + intros [(rest & -> & Hk)|(j & id & ? & Hj & _)]; [exact Hk|].
      now rewrite lookup_nil in Hj.
  - split.
    + intros ([e|] & rest & -> & Hrest); simpl in Hrest.
      * destruct Hrest as [-> ->]. right. now exists 0%nat, id, e.
      * apply IH in Hrest as [(rest' & -> & Hk)|(j & id' & e & Hj & -> & ->)].
        -- left. now exists rest'.
        -- right. now exists (S j), id', e.
    + intros [(rest & -> & Hk)|(j & id' & e & Hj & -> & ->)].
      * exists None, (eventsCreated newEvent req slot ids ++ rest). split; [reflexivity|].
        apply IH. left. now exists rest.
      * destruct j as [|j]; simpl in *.
        -- injection Hj as ->. now exists (Some e), [].
        -- eexists None, _. split; [reflexivity|]. apply IH. right. now exists j, id', e.
Qed.

End Schedule_calls.

Section Schedule_outcomes.

Variable mapRange : MapRange.
Variable AddDate : Time -> Z -> Z -> Z -> Time.
Variable meetingID : string.
Variable newEvent : string -> string * Time * Time.
Variables (now : Time) (req : ScheduleRequest.t).

Local Abbreviation ids := (ScheduleRequest.ParticipantIDs req).
Local Abbreviation window := (ScheduleRequest.TimeRange req).
Local Abbreviation scheduled := (Schedule mapRange AddDate meetingID newEvent now req).

(** Every way a run of [Schedule] can go, once the request is through
    [validateScheduleRequest]. *)
Lemma exec_Schedule_iff calls r :
  validateScheduleRequest AddDate now req = None ->
  exec scheduled calls r
  <-> (exists j id users user e,
         ids !! j = Some id /\ length users = j
         /\ calls = usersFound (take j ids) users ++ [answered (GetUser id) (user, Some e)]
         /\ r = (None, Some ErrUserNotFound))
      \/ exists users, length users = length ids /\
           ((exists j id fetched userEvents e,
               ids !! j = Some id /\ length fetched = j
               /\ calls = usersFound ids users ++ eventsFetched req (take j ids) fetched
                          ++ [answered (GetUserEvents id (TimeRange.Start window)
                                                      (TimeRange.End window))
                                       (userEvents, Some e)]
               /\ r = (None, Some ErrInternalError))
            \/ exists fetched, length fetched = length ids /\
                 match (FindOptimalSlot mapRange req (collected ids fetched ∅)).1 with
                 | None =>
                     calls = usersFound ids users ++ eventsFetched req ids fetched
                     /\ r = (None, Some ErrNoAvailableSlot)
                 | Some slot =>
                     (calls = usersFound ids users ++ eventsFetched req ids fetched
                              ++ eventsCreated newEvent req slot ids
                      /\ r = (Some (responseFor meetingID req slot), None))
                     \/ exists j id e,
                          ids !! j = Some id
                          /\ calls = usersFound ids users ++ eventsFetched req ids fetched
                                     ++ eventsCreated newEvent req slot (take j ids)
                                     ++ [answered
                                           (CreateEvent (eventCreated newEvent req slot id))
                                           (Some e)]
                          /\ r = (None, Some ErrInternalError)
                 end).
Proof.
  intros Hvalid. unfold Schedule. rewrite Hvalid.
  rewrite exec_Schedule_users_iff.
  etransitivity; [apply or_comm|]. apply or_iff_compat_l.
  split.
  - intros (users & rest & Husers & -> & Hrest). exists users. split; [exact Husers|].
    apply exec_Schedule_events_iff in Hrest
      as [(fetched & rest' & Hfetched & -> & Hrest)
         |(j & id & fetched & userEvents & e & Hj & Hfetched & -> & ->)].
    2: { left. now exists j, id, fetched, userEvents, e. }
    right. exists fetched. split; [exact Hfetched|].
    pose proof (FindOptimalSlot_no_error mapRange req (collected ids fetched ∅)) as Hnoerr.
    destruct (FindOptimalSlot mapRange req _) as [[slot|] err]; simpl in Hnoerr; subst err;
      cbn [fst].
    + change (if bool_decide (ScheduleRequest.Title req = "") then "New Meeting"
              else ScheduleRequest.Title req) with (meetingTitle req) in Hrest.
      apply exec_Schedule_create_iff in Hrest
        as [(rest'' & -> & [-> ->])|(j & id & e & Hj & -> & ->)].
      * left. now rewrite app_nil_r.
      * right. now exists j, id, e.
    + destruct Hrest as [-> ->]. now rewrite app_nil_r.
  - intros (users & Husers & Hrun). 
    destruct Hrun as [(j & id & fetched & userEvents & e & Hj & Hfetched & -> & ->)
                     |(fetched & Hfetched & Hrun)].
    + exists users. eexists. split; [exact Husers|]. split; [reflexivity|].
      apply exec_Schedule_events_iff. right. now exists j, id, fetched, userEvents, e.
    + pose proof (FindOptimalSlot_no_error mapRange req (collected ids fetched ∅)) as Hnoerr.
      destruct (FindOptimalSlot mapRange req (collected ids fetched ∅))
        as [[slot|] err] eqn:Hfind; simpl in Hnoerr; subst err; cbn [fst] in Hrun.
      * destruct Hrun as [[-> ->]|(j & id & e & Hj & -> & ->)].
        -- exists users. eexists. split; [exact Husers|]. split; [reflexivity|].
           apply exec_Schedule_events_iff. left. exists fetched. eexists.
           split; [exact Hfetched|]. split; [reflexivity|]. rewrite Hfind.
           change (if bool_decide (ScheduleRequest.Title req = "") then "New Meeting"
                   else ScheduleRequest.Title req) with (meetingTitle req).
           apply exec_Schedule_create_iff. left. exists []. now rewrite app_nil_r.
        -- exists users. eexists. split; [exact Husers|]. split; [reflexivity|].
           apply exec_Schedule_events_iff. left. exists fetched. eexists.
           split; [exact Hfetched|]. split; [reflexivity|]. rewrite Hfind.
           change (if bool_decide (ScheduleRequest.Title req = "") then "New Meeting"
                   else ScheduleRequest.Title req) with (meetingTitle req).
           apply exec_Schedule_create_iff. right. now exists j, id, e.
      * destruct Hrun as [-> ->].
        exists users. eexists. split; [exact Husers|]. split; [reflexivity|].
        apply exec_Schedule_events_iff. left. exists fetched, [].
        split; [exact Hfetched|]. rewrite app_nil_r. split; [reflexivity|]. now rewrite Hfind.
Qed.

End Schedule_outcomes.

(** X4. A run of [Schedule] returns a response in one case only: the request
    passed [validateScheduleRequest], the run made one [GetUser] call for
    each participant, then one [GetUserEvents] call for each, all answered
    without an error, the search found a slot for the events fetched, and
    the run then made one [CreateEvent] call for each participant, in the
    order of the request, each for an event with the meeting's title, the
    slot's start and end and that participant's identifier. The response
    has no error with it and carries the meeting's identifier, the title
    (["New Meeting"] when the request has none), the request's participants
    and the slot. *)
Theorem Schedule_success_run (mapRange : MapRange) (AddDate : Time -> Z -> Z -> Z -> Time)
    (meetingID : string) (newEvent : string -> string * Time * Time)
    (now : Time) (req : ScheduleRequest.t)
    (calls : list Answered) (resp : ScheduleResponse.t) (err : option error) :
  let ids := ScheduleRequest.ParticipantIDs req in
  exec (Schedule mapRange AddDate meetingID newEvent now req) calls (Some resp, err)
  <-> validateScheduleRequest AddDate now req = None
      /\ err = None
      /\ exists users fetched slot,
           length users = length ids /\ length fetched = length ids
           /\ (FindOptimalSlot mapRange req (collected ids fetched ∅)).1 = Some slot
           /\ calls = usersFound ids users ++ eventsFetched req ids fetched
                      ++ eventsCreated newEvent req slot ids
           /\ resp = responseFor meetingID req slot.
Proof.
  intros ids. subst ids.
  destruct (validateScheduleRequest AddDate now req) as [err'|] eqn:Hvalid.
  { unfold Schedule. rewrite Hvalid. simpl. split; [now intros [_ [=]]|now intros [[=] _]]. }
  rewrite exec_Schedule_iff by exact Hvalid. split.
  - intros [(j & id & users & user & e & _ & _ & _ & [=])
           |(users & Husers & [(j & id & fetched & userEvents & e & _ & _ & _ & [=])
                              |(fetched & Hfetched & Hfind)])].
    destruct (FindOptimalSlot mapRange req _).1 as [slot|] eqn:Hslot.
    + destruct Hfind as [[-> [= -> ->]]|(j & id & e & _ & _ & [=])].
      split; [reflexivity|]. split; [reflexivity|]. now exists users, fetched, slot.
    + now destruct Hfind as [_ [=]].
  - intros (_ & -> & users & fetched & slot & Husers & Hfetched & Hslot & -> & ->).
    right. exists users. split; [exact Husers|]. right. exists fetched.
    split; [exact Hfetched|]. rewrite Hslot. now left.
Qed.

(** X5. [Schedule] returns [ErrInternalError] in two kinds of run only, both
    after the request passed [validateScheduleRequest] and every [GetUser]
    call succeeded: a [GetUserEvents] call failed, and the run ended there;
    or every [GetUserEvents] call succeeded, the search found a slot, the
    [CreateEvent] calls for the first [j] participants succeeded and the
    next one failed. In the second kind the run ends with the failed call:
    the [j] events already created are not taken back. *)
Theorem Schedule_internal_error_runs (mapRange : MapRange)
    (AddDate : Time -> Z -> Z -> Z -> Time)
    (meetingID : string) (newEvent : string -> string * Time * Time)
    (now : Time) (req : ScheduleRequest.t)
    (calls : list Answered) (resp : option ScheduleResponse.t) :
  let ids := ScheduleRequest.ParticipantIDs req in
  let window := ScheduleRequest.TimeRange req in
  exec (Schedule mapRange AddDate meetingID newEvent now req) calls
       (resp, Some ErrInternalError)
  <-> resp = None
      /\ validateScheduleRequest AddDate now req = None
      /\ exists users, length users = length ids /\
           ((exists j id fetched userEvents e,
               ids !! j = Some id /\ length fetched = j
               /\ calls = usersFound ids users ++ eventsFetched req (take j ids) fetched
                          ++ [answered (GetUserEvents id (TimeRange.Start window)
                                                      (TimeRange.End window))
                                       (userEvents, Some e)])
            \/ (exists fetched slot j id e,
                  length fetched = length ids
                  /\ (FindOptimalSlot mapRange req (collected ids fetched ∅)).1 = Some slot
                  /\ ids !! j = Some id
                  /\ calls = usersFound ids users ++ eventsFetched req ids fetched
                             ++ eventsCreated newEvent req slot (take j ids)
                             ++ [answered (CreateEvent (eventCreated newEvent req slot id))
                                          (Some e)])).
Proof.
  intros ids window. subst ids window.
  destruct (validateScheduleRequest AddDate now req) as [err'|] eqn:Hvalid.
  { unfold Schedule. rewrite Hvalid. simpl. split; [|now intros (_ & [=] & _)].
    intros [_ [= -> <-]]. now apply validateScheduleRequest_errors_New in Hvalid as [text [=]]. }
  rewrite exec_Schedule_iff by exact Hvalid. split.
  - intros [(j & id & users & user & e & _ & _ & _ & [=])
           |(users & Husers & [(j & id & fetched & userEvents & e & Hj & Hfetched & -> & [= ->])
                              |(fetched & Hfetched & Hfind)])].
    + split; [reflexivity|]. split; [reflexivity|]. exists users. split; [exact Husers|].
      left. now exists j, id, fetched, userEvents, e.
    + destruct (FindOptimalSlot mapRange req _).1 as [slot|] eqn:Hslot.
      * destruct Hfind as [[_ [=]]|(j & id & e & Hj & -> & [= ->])].
        split; [reflexivity|]. split; [reflexivity|]. exists users. split; [exact Husers|].
        right. now exists fetched, slot, j, id, e.
      * now destruct Hfind as [_ [=]].
  - intros (-> & _ & users & Husers
            & [(j & id & fetched & userEvents & e & Hj & Hfetched & ->)
              |(fetched & slot & j & id & e & Hfetched & Hslot & Hj & ->)]).
    + right. exists users. split; [exact Husers|]. left.
      now exists j, id, fetched, userEvents, e.
    + right. exists users. split; [exact Husers|]. right. exists fetched.
      split; [exact Hfetched|]. rewrite Hslot. right. now exists j, id, e.
Qed.

(** X6. [Schedule] returns [ErrUserNotFound] in one kind of run only: the
    request passed [validateScheduleRequest], the [GetUser] calls for the
    first [j] participants succeeded and the next one failed. That failed
    call is the last of the run: no calendar is read and nothing is
    created. *)
Theorem Schedule_user_not_found_runs (mapRange : MapRange)
    (AddDate : Time -> Z -> Z -> Z -> Time)
    (meetingID : string) (newEvent : string -> string * Time * Time)
    (now : Time) (req : ScheduleRequest.t)
    (calls : list Answered) (resp : option ScheduleResponse.t) :
  let ids := ScheduleRequest.ParticipantIDs req in
  exec (Schedule mapRange AddDate meetingID newEvent now req) calls
       (resp, Some ErrUserNotFound)
  <-> resp = None
      /\ validateScheduleRequest AddDate now req = None
      /\ exists j id users user e,
           ids !! j = Some id /\ length users = j
           /\ calls = usersFound (take j ids) users ++ [answered (GetUser id) (user, Some e)].
Proof.
  intros ids. subst ids.
  destruct (validateScheduleRequest AddDate now req) as [err'|] eqn:Hvalid.
  { unfold Schedule. rewrite Hvalid. simpl. split; [|now intros (_ & [=] & _)].
    intros [_ [= -> <-]]. now apply validateScheduleRequest_errors_New in Hvalid as [text [=]]. }
  rewrite exec_Schedule_iff by exact Hvalid. split.
  - intros [(j & id & users & user & e & Hj & Husers & -> & [= ->])
           |(users & Husers & [(j & id & fetched & userEvents & e & _ & _ & _ & [=])
                              |(fetched & Hfetched & Hfind)])].
    + split; [reflexivity|]. split; [reflexivity|]. now exists j, id, users, user, e.
    + destruct (FindOptimalSlot mapRange req _).1 as [slot|].
      * now destruct Hfind as [[_ [=]]|(j & id & e & _ & _ & [=])].
      * now destruct Hfind as [_ [=]].
  - intros (-> & _ & j & id & users & user & e & Hj & Husers & ->).
    left. now exists j, id, users, user, e.
Qed.

(** ** What a valid request guarantees, and what the response is free of *)

Lemma validateScheduleRequest_None_iff (AddDate : Time -> Z -> Z -> Z -> Time) now req :
  let ids := ScheduleRequest.ParticipantIDs req in
  let d := ScheduleRequest.DurationMinutes req in
  let start := instant (TimeRange.Start (ScheduleRequest.TimeRange req)) in
  let end_ := instant (TimeRange.End (ScheduleRequest.TimeRange req)) in
  validateScheduleRequest AddDate now req = None
  <-> ids <> [] /\ ("" ∉ ids) /\ NoDup ids /\ 0 < d <= 480
      /\ start <> 0 /\ end_ <> 0 /\ start <= end_ /\ instant now <= start
      /\ end_ <= instant (AddDate now 1 0 0) /\ start + d * Minute <= end_.
Proof.
  intros ids d start end_. split.
  - intros Hvalid.
    assert (Hids : ids <> [] /\ ("" ∉ ids) /\ NoDup ids).
    { unfold validateScheduleRequest in Hvalid. fold ids in Hvalid.
      destruct ids as [|id ids']; [discriminate|]. split; [discriminate|].
      cbn [length] in Hvalid.
      replace (Z.of_nat (S (length ids')) =? 0) with false in Hvalid
        by (symmetry; apply Z.eqb_neq; lia).
      destruct (validateParticipantIDs (id :: ids') ∅) eqn:Hloop; [discriminate|].
      apply (validateParticipantIDs_None _ _ [] holds_empty) in Hloop. tauto. }
    destruct Hids as (Hsome & Hempty & Hnodup).
    rewrite validateScheduleRequest_clean in Hvalid by assumption.
    cbv zeta in Hvalid. fold d start end_ in Hvalid.
    repeat match type of Hvalid with
           | (if ?test then _ else _) = _ => destruct test eqn:?; [discriminate|]
           end.
    rewrite ?Z.leb_gt, ?Z.ltb_ge, ?Z.eqb_neq in *. repeat split; try assumption; lia.
  - intros (Hsome & Hempty & Hnodup & Hd & Hstart & Hend & Horder & Hnow & Hyear & Hfits).
    now apply validateScheduleRequest_accepts.
Qed.

Lemma collected_lookup_ne ids : forall fetched (allEvents : Events) id,
  id ∉ ids -> collected ids fetched allEvents !! id = allEvents !! id.
Proof.
  unfold collected.
  induction ids as [|id' ids IH]; intros [|userEvents fetched] allEvents id Hnotin;
    simpl; try reflexivity.
  apply not_elem_of_cons in Hnotin as [Hne Hnotin].
  rewrite IH by exact Hnotin. now rewrite lookup_insert_ne.
Qed.

Lemma collected_lookup ids : forall fetched (allEvents : Events) j id userEvents,
  NoDup ids -> ids !! j = Some id -> fetched !! j = Some userEvents ->
  collected ids fetched allEvents !! id = Some userEvents.
Proof.
  induction ids as [|id' ids IH]; intros [|userEvents' fetched] allEvents j id userEvents Hnodup;
    try (intros; now destruct j).
  apply NoDup_cons in Hnodup as [Hnotin Hnodup].
  destruct j as [|j]; simpl.
  - intros [= ->] [= ->]. unfold collected. simpl.
    change (fold_left _ (zip ids fetched) ?m) with (collected ids fetched m).
    rewrite collected_lookup_ne by exact Hnotin. now rewrite lookup_insert_eq.
  - intros Hid Hevents. unfold collected. simpl.
    change (fold_left _ (zip ids fetched) ?m) with (collected ids fetched m).
    now apply (IH _ _ j).
Qed.

Lemma collected_lookup_inv ids : forall fetched (allEvents : Events) id userEvents,
  length fetched = length ids ->
  collected ids fetched allEvents !! id = Some userEvents ->
  userEvents ∈ fetched \/ allEvents !! id = Some userEvents.
Proof.
  induction ids as [|id' ids IH]; intros [|userEvents' fetched] allEvents id userEvents;
    try discriminate; simpl.
  - intros _ Hlookup. now right.
  - intros [= Hlen]. unfold collected. simpl.
    change (fold_left _ (zip ids fetched) ?m) with (collected ids fetched m).
    intros [Hin|Hlookup]%IH; [left; now right| |exact Hlen].
    destruct (decide (id' = id)) as [->|Hne].
    + rewrite lookup_insert_eq in Hlookup. injection Hlookup as ->. left. left.
    + rewrite lookup_insert_ne in Hlookup by exact Hne. now right.
Qed.

Lemma elem_of_concat {A : Type} (x : A) (ls : list (list A)) :
  x ∈ concat ls <-> exists l, x ∈ l /\ l ∈ ls.
Proof.
  induction ls as [|l ls IH]; simpl.
  - split; [intros H; inversion H|intros (l & _ & H); inversion H].
  - rewrite elem_of_app, IH. split.
    + intros [Hx|(l' & Hx & Hl')]; [exists l; split; [exact Hx|left]|].
      exists l'. split; [exact Hx|now right].
    + intros (l' & Hx & [->|Hl']%elem_of_cons); [now left|right; now exists l'].
Qed.

Lemma eventsSeen_app calls1 calls2 :
  eventsSeen (calls1 ++ calls2) = eventsSeen calls1 ++ eventsSeen calls2.
Proof. unfold eventsSeen. now rewrite map_app, concat_app. Qed.

Lemma eventsSeen_usersFound ids : forall users, eventsSeen (usersFound ids users) = [].
Proof.
  induction ids as [|id ids IH]; intros [|user users]; try reflexivity.
  unfold usersFound, eventsSeen in *. simpl. apply IH.
Qed.

Lemma eventsSeen_eventsFetched req ids : forall fetched,
  length fetched = length ids -> eventsSeen (eventsFetched req ids fetched) = concat fetched.
Proof.
  induction ids as [|id ids IH]; intros [|userEvents fetched]; try discriminate;
    [reflexivity|].
  intros [= Hlen]. unfold eventsFetched, eventsSeen in *. simpl. f_equal. now apply IH.
Qed.

Lemma eventsSeen_eventsCreated newEvent req slot ids :
  eventsSeen (eventsCreated newEvent req slot ids) = [].
Proof.
  induction ids as [|id ids IH]; [reflexivity|].
  unfold eventsCreated, eventsSeen in *. simpl. apply IH.
Qed.

(** The slot that the search returns: where it lies and what it is free
    of. *)
Lemma FindOptimalSlot_slot mapRange req events slot :
  MapRange_ok mapRange ->
  (FindOptimalSlot mapRange req events).1 = Some slot ->
  exists k : nat,
    TimeSlot.Start slot = gridStart req k
    /\ TimeSlot.End slot = Add (gridStart req k) (requestDuration req)
    /\ instant (TimeSlot.Start slot) < instant (TimeRange.End (ScheduleRequest.TimeRange req))
    /\ instant (TimeSlot.End slot) < instant (TimeRange.End (ScheduleRequest.TimeRange req))
    /\ freeForAll (TimeSlot.Start slot) (TimeSlot.End slot) events.
Proof.
  intros Hok (candidate & Hin & ->)%FindOptimalSlot_Some%elem_of_scoreSlots.
  apply elem_of_findAvailableSlots in Hin as (k & -> & Hprod).
  unfold produced in Hprod. apply andb_true_iff in Hprod as [Hin Hprod].
  apply andb_true_iff in Hprod as [Hend Havail].
  exists k. cbn [candidateAt TimeSlot.Start TimeSlot.End] in *.
  split; [reflexivity|]. split; [reflexivity|].
  unfold Before in *. rewrite Z.ltb_lt in *. split; [exact Hin|]. split; [exact Hend|].
  now apply (isSlotAvailable_true mapRange).
Qed.

(** X7. When a run of [Schedule] returns a response, the meeting is free of
    every event that the run's [GetUserEvents] calls returned (it ends
    strictly before the event starts, or starts strictly after it ends),
    it starts a whole number of quarters of an hour after the window's
    start, lasts [DurationMinutes] minutes, and ends strictly before the
    window's end; it does not start before the instant at which the request
    was validated and ends less than a year after it. *)
Theorem Schedule_response_is_free_and_inside (mapRange : MapRange)
    (AddDate : Time -> Z -> Z -> Z -> Time)
    (meetingID : string) (newEvent : string -> string * Time * Time)
    (now : Time) (req : ScheduleRequest.t)
    (calls : list Answered) (resp : ScheduleResponse.t) (err : option error) :
  MapRange_ok mapRange ->
  exec (Schedule mapRange AddDate meetingID newEvent now req) calls (Some resp, err) ->
  let window := ScheduleRequest.TimeRange req in
  let start := ScheduleResponse.StartTime resp in
  let end_ := ScheduleResponse.EndTime resp in
  (forall b, b ∈ eventsSeen calls -> isFree start end_ b)
  /\ (exists k : nat, start = Add (TimeRange.Start window) (Z.of_nat k * (15 * Minute)))
  /\ end_ = Add start (ScheduleRequest.DurationMinutes req * Minute)
  /\ instant end_ < instant (TimeRange.End window)
  /\ instant now <= instant start
  /\ instant end_ < instant (AddDate now 1 0 0).
Proof.
  intros Hok Hrun window start end_. subst window start end_.
  destruct (validateScheduleRequest AddDate now req) as [err'|] eqn:Hvalid.
  { unfold Schedule in Hrun. rewrite Hvalid in Hrun. now destruct Hrun as [_ [=]]. }
  apply exec_Schedule_iff in Hrun; [|exact Hvalid].
  destruct Hrun as [(j & id & users & user & e & _ & _ & _ & [=])
                   |(users & Husers & [(j & id & fetched & userEvents & e & _ & _ & _ & [=])
                                      |(fetched & Hfetched & Hfind)])].
  destruct (FindOptimalSlot mapRange req _).1 as [slot|] eqn:Hslot;
    [|now destruct Hfind as [_ [=]]].
  destruct Hfind as [[-> [= -> ->]]|(j & id & e & _ & _ & [=])].
  apply validateScheduleRequest_None_iff in Hvalid
    as (_ & _ & Hnodup & Hd & _ & _ & _ & Hnow & Hyear & _).
  apply (FindOptimalSlot_slot _ _ _ _ Hok) in Hslot as (k & Hstart & Hend & _ & Hinside & Hfree).
  cbn [responseFor ScheduleResponse.StartTime ScheduleResponse.EndTime].
  split; [|split; [|split; [|split; [|split]]]].
  - intros b. rewrite !eventsSeen_app, eventsSeen_usersFound, eventsSeen_eventsCreated,
      eventsSeen_eventsFetched, app_nil_r by exact Hfetched. simpl.
    intros (userEvents & Hb & Hin)%elem_of_concat.
    apply list_elem_of_lookup in Hin as [j Hj].
    destruct (ScheduleRequest.ParticipantIDs req !! j) as [id|] eqn:Hid.
    2: { apply lookup_ge_None in Hid. apply lookup_lt_Some in Hj. lia. }
    apply (Hfree id userEvents); [|exact Hb].
    now apply (collected_lookup _ _ _ j).
  - exists k. exact Hstart.
  - rewrite Hend, Hstart. now rewrite requestDuration_exact by lia.
  - exact Hinside.
  - rewrite Hstart, gridStart_instant. lia.
  - lia.
Qed.

(** ** [GetUserCalendar], the endpoints and the status of an error *)

(** X8. The runs of [GetUserCalendar]: it asks for the user and, when the
    user is found, for the user's events, and never creates anything. It
    returns [ErrUserNotFound] when the first call fails, [ErrInternalError]
    when the second fails, an error of its own when the repository returns
    no event, and otherwise the events as the repository returned them,
    without an error; events and an error never come together. *)
Theorem GetUserCalendar_runs (userID : string) (start end_ : Time)
    (calls : list Answered) (events : list CalendarEvent.t) (err : option error) :
  exec (GetUserCalendar userID start end_) calls (events, err)
  <-> (exists user e,
         calls = [answered (GetUser userID) (user, Some e)]
         /\ events = [] /\ err = Some ErrUserNotFound)
      \/ exists user userEvents,
           (exists e,
              calls = [answered (GetUser userID) (user, None);
                       answered (GetUserEvents userID start end_) (userEvents, Some e)]
              /\ events = [] /\ err = Some ErrInternalError)
           \/ calls = [answered (GetUser userID) (user, None);
                       answered (GetUserEvents userID start end_) (userEvents, None)]
              /\ (userEvents = [] /\ events = []
                  /\ err = Some (errors_New
                             "no meetings found for the specified user and time window")
                  \/ userEvents <> [] /\ events = userEvents /\ err = None).
Proof.
  unfold GetUserCalendar. simpl. split.
  - intros ([user [e|]] & rest & -> & Hrest); simpl in Hrest.
    { destruct Hrest as [-> [= -> ->]]. left. now exists user, e. }
    destruct Hrest as ([userEvents [e|]] & rest' & -> & Hrest); simpl in Hrest.
    { destruct Hrest as [-> [= -> ->]]. right. exists user, userEvents. left. now exists e. }
    right. exists user, userEvents. right.
    destruct userEvents as [|event userEvents]; simpl in Hrest.
    + destruct Hrest as [-> [= -> ->]]. split; [reflexivity|]. now left.
    + destruct Hrest as [-> [= -> ->]]. split; [reflexivity|]. now right.
  - intros [(user & e & -> & -> & ->)
           |(user & userEvents & [(e & -> & -> & ->)|(-> & Hevents)])].
    + now exists (user, Some e), [].
    + exists (user, None). eexists. split; [reflexivity|]. simpl.
      now exists (userEvents, Some e), [].
    + exists (user, None). eexists. split; [reflexivity|]. simpl.
      exists (userEvents, None), []. split; [reflexivity|]. simpl.
      destruct Hevents as [(-> & -> & ->)|(Hsome & -> & ->)]; [easy|].
      now destruct userEvents.
Qed.

Lemma validateParticipantIDs_Error ids : forall participantMap err,
  validateParticipantIDs ids participantMap = Some err ->
  Error err <> Error ErrInvalidRequest.
Proof.
  induction ids as [|id ids IH]; intros participantMap err; simpl; [discriminate|].
  destruct (bool_decide _); [now intros [= <-]|].
  destruct (default false _); [now intros [= <-]|]. apply IH.
Qed.

Lemma validateScheduleRequest_Error (AddDate : Time -> Z -> Z -> Z -> Time) now req err :
  validateScheduleRequest AddDate now req = Some err ->
  Error err <> Error ErrInvalidRequest.
Proof.
  unfold validateScheduleRequest.
  destruct (_ =? 0); [now intros [= <-]|].
  destruct (validateParticipantIDs _ _) as [err'|] eqn:Hids.
  { intros [= <-]. eapply validateParticipantIDs_Error, Hids. }
  repeat match goal with
         | |- context [if ?test then _ else _] => destruct test; [now intros [= <-]|]
         end.
  discriminate.
Qed.

(** The errors of [Schedule]. *)
Lemma exec_Schedule_error mapRange AddDate meetingID newEvent now req calls resp err :
  exec (Schedule mapRange AddDate meetingID newEvent now req) calls (resp, Some err) ->
  resp = None
  /\ (validateScheduleRequest AddDate now req = Some err
      \/ validateScheduleRequest AddDate now req = None
         /\ (err = ErrUserNotFound \/ err = ErrInternalError \/ err = ErrNoAvailableSlot)).
Proof.
  intros Hrun. apply exec_Schedule_inv in Hrun. cbv zeta in Hrun.
  destruct (validateScheduleRequest AddDate now req) as [err'|].
  { destruct Hrun as [_ [= -> ->]]. split; [reflexivity|]. now left. }
  destruct Hrun as [[= -> ->]|[[= -> ->]|(users & fetched & rest & _ & _ & _ & Hfind)]];
    [split; [reflexivity|]; right; split; [reflexivity|]; tauto..|].
  destruct (FindOptimalSlot mapRange req _).1 as [slot|].
  - now destruct Hfind as (resp' & [=] & _).
  - destruct Hfind as [_ [= -> ->]]. split; [reflexivity|]. right. tauto.
Qed.

(** X9. The endpoint of [Schedule] hands on what [Schedule] returns: with an
    error, the [nil] interface and that error; without one, the response.
    The case it makes of an error whose text is that of [ErrInvalidRequest]
    never applies, since no error of [Schedule] has that text. A request
    that is not a [domain.ScheduleRequest] makes the endpoint panic before
    any call to the service. *)
Theorem makeScheduleEndpoint_hands_on (mapRange : MapRange)
    (AddDate : Time -> Z -> Z -> Z -> Time)
    (meetingID : string) (newEvent : string -> string * Time * Time) (now : Time) :
  let s := NewService mapRange AddDate meetingID newEvent now in
  (forall req calls out,
     exec (Endpoints.Schedule (MakeEndpoints s) (any_ScheduleRequest req)) calls out
     <-> exists resp err,
           exec (Schedule mapRange AddDate meetingID newEvent now req) calls (resp, err)
           /\ out = returns (match err with
                             | Some _ => any_nil
                             | None => any_ScheduleResponse resp
                             end, err))
  /\ (forall req calls resp e,
        exec (Schedule mapRange AddDate meetingID newEvent now req) calls (resp, Some e) ->
        Error e <> Error ErrInvalidRequest)
  /\ (forall request,
        (forall req, request <> any_ScheduleRequest req) ->
        Endpoints.Schedule (MakeEndpoints s) request = Ret panics).
Proof.
  intros s.
  assert (Htext : forall req calls resp e,
            exec (Schedule mapRange AddDate meetingID newEvent now req) calls (resp, Some e) ->
            Error e <> Error ErrInvalidRequest).
  { intros req calls resp e [_ [Hinvalid|[_ [->|[->| ->]]]]]%exec_Schedule_error;
      [|discriminate..].
    eapply validateScheduleRequest_Error, Hinvalid. }
  split; [|split; [exact Htext|]].
  - intros req calls out. cbn [MakeEndpoints Endpoints.Schedule makeScheduleEndpoint s
                               NewService SchedulerService_Schedule].
    rewrite exec_bind. split.
    + intros (calls1 & calls2 & [resp err] & -> & Hrun & Hout).
      exists resp, err. destruct err as [e|]; cbn beta iota in Hout.
      * apply Htext in Hrun as Hne. apply String.eqb_neq in Hne. rewrite Hne in Hout.
        destruct Hout as [-> ->]. now rewrite app_nil_r.
      * destruct Hout as [-> ->]. now rewrite app_nil_r.
    + intros (resp & err & Hrun & ->). exists calls, [], (resp, err).
      rewrite app_nil_r. split; [reflexivity|]. split; [exact Hrun|].
      destruct err as [e|]; cbn beta iota; [|easy].
      apply Htext in Hrun as Hne. apply String.eqb_neq in Hne. now rewrite Hne.
  - intros request Hother. destruct request; try reflexivity. now destruct (Hother req).
Qed.

(** X10. The status [encodeError] writes for an error of [Schedule]: 409 for
    [ErrNoAvailableSlot], 404 for [ErrUserNotFound], and 500 for
    [ErrInternalError] as well as for every error of
    [validateScheduleRequest]; status 400 is never written. The body names
    the error's text under ["error"]. *)
Theorem encodeError_after_Schedule (mapRange : MapRange)
    (AddDate : Time -> Z -> Z -> Z -> Time)
    (meetingID : string) (newEvent : string -> string * Time * Time)
    (now : Time) (req : ScheduleRequest.t)
    (calls : list Answered) (resp : option ScheduleResponse.t) (err : error)
    (w : list Written) :
  exec (Schedule mapRange AddDate meetingID newEvent now req) calls (resp, Some err) ->
  exists statusCode,
    encodeError err w
    = w ++ [Header_Set "Content-Type" "application/json; charset=utf-8";
            WriteHeader statusCode;
            Encode "error" (Error err)]
    /\ (statusCode = 409 /\ err = ErrNoAvailableSlot
        \/ statusCode = 404 /\ err = ErrUserNotFound
        \/ statusCode = 500
           /\ (err = ErrInternalError
               \/ validateScheduleRequest AddDate now req = Some err)).
Proof.
  intros [_ [Hinvalid|[_ [->|[->| ->]]]]]%exec_Schedule_error.
  - exists 500. apply validateScheduleRequest_errors_New in Hinvalid as Hnew.
    destruct Hnew as [text ->]. unfold encodeError. simpl.
    rewrite <- !app_assoc. split; [reflexivity|]. right. right. tauto.
  - exists 404. unfold encodeError. simpl. rewrite <- !app_assoc. split; [reflexivity|]. tauto.
  - exists 500. unfold encodeError. simpl. rewrite <- !app_assoc. split; [reflexivity|]. tauto.
  - exists 409. unfold encodeError. simpl. rewrite <- !app_assoc. split; [reflexivity|]. tauto.
Qed.

(** X11. The status [encodeError] writes for an error of [GetUserCalendar]:
    404 when the user is not found, and 500 otherwise, which is the status
    for a user who has no event in the window. *)
Theorem encodeError_after_GetUserCalendar (userID : string) (start end_ : Time)
    (calls : list Answered) (events : list CalendarEvent.t) (err : error)
    (w : list Written) :
  exec (GetUserCalendar userID start end_) calls (events, Some err) ->
  exists statusCode,
    encodeError err w
    = w ++ [Header_Set "Content-Type" "application/json; charset=utf-8";
            WriteHeader statusCode;
            Encode "error" (Error err)]
    /\ (statusCode = 404 /\ err = ErrUserNotFound
          /\ (exists user e, calls = [answered (GetUser userID) (user, Some e)])
        \/ statusCode = 500 /\ err = ErrInternalError
        \/ statusCode = 500
           /\ err = errors_New "no meetings found for the specified user and time window"
           /\ exists user,
                calls = [answered (GetUser userID) (user, None);
                         answered (GetUserEvents userID start end_) ([], None)]).
Proof.
  unfold GetUserCalendar. simpl.
  intros ([user [e|]] & rest & -> & Hrest); simpl in Hrest.
  { destruct Hrest as [-> [= -> ->]]. exists 404. unfold encodeError. simpl.
    rewrite <- !app_assoc. split; [reflexivity|]. left. eauto. }
  destruct Hrest as ([userEvents [e|]] & rest' & -> & Hrest); simpl in Hrest.
  { destruct Hrest as [-> [= -> ->]]. exists 500. unfold encodeError. simpl.
    rewrite <- !app_assoc. split; [reflexivity|]. tauto. }
  destruct userEvents as [|event userEvents]; simpl in Hrest.
  - destruct Hrest as [-> [= -> ->]]. exists 500. unfold encodeError. simpl.
    rewrite <- !app_assoc. split; [reflexivity|]. right. right. eauto.
  - now destruct Hrest as [_ [=]].
Qed.

(** ** [Schedule] against the [MockRepository] of the tests *)

(** A run against the repository is one of the runs of [exec]. *)
Lemma run_exec {R : Type} (p : Prog R) : forall m,
  exec p (run p m).2 (run p m).1.1.
Proof.
  induction p as [r|X call k IH]; intros m; simpl; [easy|].
  destruct (MockRepository_answer m call) as [x m'] eqn:Hanswer.
  specialize (IH x m'). destruct (run (k x) m') as [[r m''] calls]. simpl in *.
  now exists x, calls.
Qed.

Lemma GetUserEvents_loop_filter start end_ events : forall filtered,
  MockRepository.GetUserEvents_loop start end_ events filtered
  = filtered ++ List.filter (MockRepository.within start end_) events.
Proof.
  induction events as [|event events IH]; intros filtered; simpl.
  - now rewrite app_nil_r.
  - destruct (MockRepository.within start end_ event); rewrite IH; [|reflexivity].
    now rewrite <- app_assoc.
Qed.

Lemma MockRepository_GetUserEvents_filter m userID start end_ :
  MockRepository.GetUserEvents m userID start end_
  = (List.filter (MockRepository.within start end_) (stored m userID), None).
Proof. unfold MockRepository.GetUserEvents. now rewrite GetUserEvents_loop_filter. Qed.

Section run_Schedule.

Context {R : Type}.
Implicit Types (k : Prog (option R * option error)).

Lemma run_Schedule_users_known ids k m :
  (forall id, id ∈ ids -> is_Some (MockRepository.users m !! id)) ->
  (run (Schedule_users ids k) m).1 = (run k m).1.
Proof.
  induction ids as [|id ids IH]; intros Hknown; simpl; [reflexivity|].
  unfold MockRepository.GetUser.
  destruct (Hknown id) as [user ->]; [left|].
  rewrite <- IH by (intros id' Hin; apply Hknown; now right).
  now destruct (run (Schedule_users ids k) m) as [[r m'] calls].
Qed.

Lemma run_Schedule_users_unknown ids k m id :
  id ∈ ids -> MockRepository.users m !! id = None ->
  (run (Schedule_users ids k) m).1 = ((None, Some ErrUserNotFound), m).
Proof.
  induction ids as [|id' ids IH]; intros Hin Hunknown; [inversion Hin|]. simpl.
  unfold MockRepository.GetUser.
  destruct (MockRepository.users m !! id') as [user|] eqn:Hid'; [|reflexivity].
  apply elem_of_cons in Hin as [->|Hin]; [congruence|].
  specialize (IH Hin Hunknown).
  destruct (run (Schedule_users ids k) m) as [[r m'] calls]. exact IH.
Qed.

Lemma run_Schedule_events req ids (kont : Events -> Prog (option R * option error)) m :
  forall allEvents,
  (run (Schedule_events req ids allEvents kont) m).1
  = (run (kont (collected ids (fetchedFrom m req ids) allEvents)) m).1.
Proof.
  induction ids as [|id ids IH]; intros allEvents; simpl; [reflexivity|].
  specialize (IH (<[id := (MockRepository.GetUserEvents m id
                            (TimeRange.Start (ScheduleRequest.TimeRange req))
                            (TimeRange.End (ScheduleRequest.TimeRange req))).1]> allEvents)).
  unfold MockRepository.GetUserEvents in *. simpl in *.
  destruct (run (Schedule_events req ids _ kont) m) as [[r m'] calls].
  exact IH.
Qed.

Lemma run_Schedule_create newEvent req slot ids k : forall m,
  (run (Schedule_create newEvent (meetingTitle req) slot ids k) m).1
  = (run k (createdIn newEvent req slot ids m)).1.
Proof.
  induction ids as [|id ids IH]; intros m; simpl; [reflexivity|].
  specialize (IH (MockRepository.CreateEvent m (eventCreated newEvent req slot id)).1).
  simpl in IH.
  destruct (run (Schedule_create newEvent (meetingTitle req) slot ids k) _) as [[r m'] calls].
  exact IH.
Qed.

End run_Schedule.

(** [Schedule] against the repository, in one step. *)
Lemma run_Schedule mapRange AddDate meetingID newEvent now req m :
  let ids := ScheduleRequest.ParticipantIDs req in
  (run (Schedule mapRange AddDate meetingID newEvent now req) m).1
  = match validateScheduleRequest AddDate now req with
    | Some err => ((None, Some err), m)
    | None =>
        if bool_decide (Forall (fun id => is_Some (MockRepository.users m !! id)) ids) then
          match (FindOptimalSlot mapRange req (collected ids (fetchedFrom m req ids) ∅)).1 with
          | None => ((None, Some ErrNoAvailableSlot), m)
          | Some slot =>
              ((Some (responseFor meetingID req slot), None),
               createdIn newEvent req slot ids m)
          end
        else ((None, Some ErrUserNotFound), m)
    end.
Proof.
  intros ids. subst ids. unfold Schedule.
  destruct (validateScheduleRequest AddDate now req) as [err|]; [reflexivity|].
  destruct (bool_decide_reflect
              (Forall (fun id => is_Some (MockRepository.users m !! id))
                      (ScheduleRequest.ParticipantIDs req))) as [Hknown|Hunknown].
  - rewrite run_Schedule_users_known by (now apply Forall_forall).
    rewrite run_Schedule_events.
    pose proof (FindOptimalSlot_no_error mapRange req
                  (collected (ScheduleRequest.ParticipantIDs req)
                     (fetchedFrom m req (ScheduleRequest.ParticipantIDs req)) ∅)) as Hnoerr.
    destruct (FindOptimalSlot mapRange req _) as [[slot|] err]; simpl in Hnoerr; subst err;
      [|reflexivity].
    cbn [fst].
    change (if bool_decide (ScheduleRequest.Title req = "") then "New Meeting"
            else ScheduleRequest.Title req) with (meetingTitle req).
    now rewrite run_Schedule_create.
  - apply not_Forall_Exists in Hunknown; [|apply _].
    apply Exists_exists in Hunknown as (id & Hin & Hnone).
    apply eq_None_not_Some in Hnone.
    now apply (run_Schedule_users_unknown _ _ _ id).
Qed.

Lemma eventCreated_fields newEvent req slot userID :
  CalendarEvent.UserID (eventCreated newEvent req slot userID) = userID
  /\ CalendarEvent.Title (eventCreated newEvent req slot userID) = meetingTitle req
  /\ CalendarEvent.StartTime (eventCreated newEvent req slot userID) = TimeSlot.Start slot
  /\ CalendarEvent.EndTime (eventCreated newEvent req slot userID) = TimeSlot.End slot.
Proof.
  unfold eventCreated, NewCalendarEvent. now destruct (newEvent userID) as [[id createdAt] updatedAt].
Qed.

Lemma createdIn_users newEvent req slot ids : forall m,
  MockRepository.users (createdIn newEvent req slot ids m) = MockRepository.users m.
Proof.
  induction ids as [|id ids IH]; intros m; [reflexivity|].
  change (createdIn newEvent req slot (id :: ids) m)
    with (createdIn newEvent req slot ids
            (MockRepository.CreateEvent m (eventCreated newEvent req slot id)).1).
  now rewrite IH.
Qed.

Lemma stored_CreateEvent m event userID :
  stored (MockRepository.CreateEvent m event).1 userID
  = stored m userID ++ (if bool_decide (userID = CalendarEvent.UserID event) then [event] else []).
Proof.
  unfold stored, MockRepository.CreateEvent. simpl.
  destruct (bool_decide_reflect (userID = CalendarEvent.UserID event)) as [->|Hne].
  - now rewrite lookup_insert_eq.
  - rewrite lookup_insert_ne by congruence. now rewrite app_nil_r.
Qed.

Lemma createdIn_stored newEvent req slot ids : forall m userID,
  NoDup ids ->
  stored (createdIn newEvent req slot ids m) userID
  = stored m userID
    ++ (if bool_decide (userID ∈ ids) then [eventCreated newEvent req slot userID] else []).
Proof.
  induction ids as [|id ids IH]; intros m userID Hnodup.
  - simpl. now rewrite app_nil_r.
  - apply NoDup_cons in Hnodup as [Hnotin Hnodup].
    change (createdIn newEvent req slot (id :: ids) m)
      with (createdIn newEvent req slot ids
              (MockRepository.CreateEvent m (eventCreated newEvent req slot id)).1).
    rewrite IH by exact Hnodup. rewrite stored_CreateEvent.
    destruct (eventCreated_fields newEvent req slot id) as (-> & _).
    destruct (bool_decide_reflect (userID = id)) as [->|Hne].
    + rewrite (bool_decide_eq_false_2 (id ∈ ids)) by exact Hnotin.
      rewrite (bool_decide_eq_true_2 (id ∈ id :: ids)) by left.
      now rewrite app_nil_r.
    + rewrite app_nil_r. f_equal.
      destruct (bool_decide_reflect (userID ∈ ids)) as [Hin|Hnotin'].
      * rewrite bool_decide_eq_true_2; [reflexivity|now right].
      * rewrite bool_decide_eq_false_2; [reflexivity|].
        intros [?|?]%elem_of_cons; congruence.
Qed.

Lemma fetchedFrom_lookup m req ids j id :
  ids !! j = Some id ->
  fetchedFrom m req ids !! j
  = Some (List.filter (MockRepository.within (TimeRange.Start (ScheduleRequest.TimeRange req))
                                             (TimeRange.End (ScheduleRequest.TimeRange req)))
                      (stored m id)).
Proof.
  revert j. induction ids as [|id' ids IH]; intros [|j]; simpl; try discriminate.
  - intros [= ->]. now rewrite GetUserEvents_loop_filter.
  - apply IH.
Qed.

(** X12. [Schedule] against the [MockRepository]: it never returns
    [ErrInternalError]; it returns [ErrUserNotFound] exactly when the request
    is valid and some participant is not among the repository's users; when
    it returns no response the repository is left as it was; and when it
    returns a response the users are left as they were and every
    participant's events are the ones held before followed by the new
    meeting, with the response's title, start and end, the events of
    everybody else being untouched. *)
Theorem Schedule_on_MockRepository (mapRange : MapRange)
    (AddDate : Time -> Z -> Z -> Z -> Time)
    (meetingID : string) (newEvent : string -> string * Time * Time)
    (now : Time) (req : ScheduleRequest.t) (m : MockRepository.t) :
  let ids := ScheduleRequest.ParticipantIDs req in
  let after := run (Schedule mapRange AddDate meetingID newEvent now req) m in
  let resp := after.1.1.1 in
  let err := after.1.1.2 in
  let m' := after.1.2 in
  err <> Some ErrInternalError
  /\ (err = Some ErrUserNotFound
      <-> validateScheduleRequest AddDate now req = None
          /\ exists id, id ∈ ids /\ MockRepository.users m !! id = None)
  /\ (resp = None -> m' = m /\ err <> None)
  /\ (forall r, resp = Some r ->
        err = None
        /\ MockRepository.users m' = MockRepository.users m
        /\ forall userID,
             stored m' userID
             = stored m userID
               ++ (if bool_decide (userID ∈ ids)
                   then [NewCalendarEvent newEvent (ScheduleResponse.Title r)
                           (ScheduleResponse.StartTime r) (ScheduleResponse.EndTime r) userID]
                   else [])).
Proof.
  intros ids after resp err m'. subst resp err m' after.
  rewrite run_Schedule. fold ids.
  destruct (validateScheduleRequest AddDate now req) as [e|] eqn:Hvalid.
  { cbn [fst snd]. apply validateScheduleRequest_errors_New in Hvalid as [text ->].
    split; [discriminate|]. split; [split; [discriminate|now intros [[=] _]]|].
    split; [now intros _|discriminate]. }
  apply validateScheduleRequest_None_iff in Hvalid as (_ & _ & Hnodup & _).
  destruct (bool_decide_reflect
              (Forall (fun id => is_Some (MockRepository.users m !! id)) ids))
    as [Hknown|Hunknown].
  - destruct (FindOptimalSlot mapRange req _).1 as [slot|]; cbn [fst snd].
    + split; [discriminate|]. split.
      { split; [discriminate|]. intros (_ & id & Hin & Hnone).
        rewrite Forall_forall in Hknown. destruct (Hknown id Hin) as [user Huser]. congruence. }
      split; [discriminate|]. intros r [= <-]. split; [reflexivity|].
      split; [apply createdIn_users|].
      intros userID. now rewrite createdIn_stored by exact Hnodup.
    + split; [discriminate|]. split.
      { split; [discriminate|]. intros (_ & id & Hin & Hnone).
        rewrite Forall_forall in Hknown. destruct (Hknown id Hin) as [user Huser]. congruence. }
      split; [now intros _|discriminate].
  - cbn [fst snd]. split; [discriminate|]. split.
    { split; [|reflexivity]. intros _. split; [reflexivity|].
      apply not_Forall_Exists in Hunknown; [|apply _].
      apply Exists_exists in Hunknown as (id & Hin & Hnone).
      apply eq_None_not_Some in Hnone. now exists id. }
    split; [now intros _|discriminate].
Qed.

Lemma fetchedFrom_length m req ids : length (fetchedFrom m req ids) = length ids.
Proof. unfold fetchedFrom. apply length_map. Qed.

(** What the search is free of, when the events come from the repository:
    every event held for a participant that lies within the window. *)
Lemma freeForAll_fetchedFrom m req start end_ :
  let ids := ScheduleRequest.ParticipantIDs req in
  NoDup ids ->
  freeForAll start end_ (collected ids (fetchedFrom m req ids) ∅) ->
  forall id b,
    id ∈ ids -> b ∈ stored m id ->
    MockRepository.within (TimeRange.Start (ScheduleRequest.TimeRange req))
                          (TimeRange.End (ScheduleRequest.TimeRange req)) b = true ->
    isFree start end_ b.
Proof.
  intros ids Hnodup Hfree id b Hin Hb Hwithin.
  apply list_elem_of_lookup in Hin as [j Hj].
  apply (Hfree id (List.filter (MockRepository.within
                                  (TimeRange.Start (ScheduleRequest.TimeRange req))
                                  (TimeRange.End (ScheduleRequest.TimeRange req)))
                               (stored m id))).
  - apply (collected_lookup _ _ _ j); [exact Hnodup|exact Hj|].
    now apply fetchedFrom_lookup.
  - apply list_elem_of_In, filter_In. split; [now apply list_elem_of_In|exact Hwithin].
Qed.

(** X13. When [Schedule] against the [MockRepository] returns a response,
    the meeting is free of every event the repository held for a
    participant that starts at or after the window's start and ends at or
    before the window's end: it ends strictly before such an event starts
    or starts strictly after it ends. *)
Theorem Schedule_on_MockRepository_is_free (mapRange : MapRange)
    (AddDate : Time -> Z -> Z -> Z -> Time)
    (meetingID : string) (newEvent : string -> string * Time * Time)
    (now : Time) (req : ScheduleRequest.t) (m : MockRepository.t)
    (resp : ScheduleResponse.t) (id : string) (b : CalendarEvent.t) :
  let window := ScheduleRequest.TimeRange req in
  MapRange_ok mapRange ->
  (run (Schedule mapRange AddDate meetingID newEvent now req) m).1.1.1 = Some resp ->
  id ∈ ScheduleRequest.ParticipantIDs req ->
  b ∈ stored m id ->
  instant (TimeRange.Start window) <= instant (CalendarEvent.StartTime b) ->
  instant (CalendarEvent.EndTime b) <= instant (TimeRange.End window) ->
  instant (ScheduleResponse.EndTime resp) < instant (CalendarEvent.StartTime b)
  \/ instant (CalendarEvent.EndTime b) < instant (ScheduleResponse.StartTime resp).
Proof.
  intros window Hok Hresp Hin Hb Hstart Hend. subst window.
  rewrite run_Schedule in Hresp.
  destruct (validateScheduleRequest AddDate now req) as [e|] eqn:Hvalid; [discriminate|].
  apply validateScheduleRequest_None_iff in Hvalid as (_ & _ & Hnodup & _).
  destruct (bool_decide _); [|discriminate].
  destruct (FindOptimalSlot mapRange req _).1 as [slot|] eqn:Hslot; [|discriminate].
  injection Hresp as <-.
  apply (FindOptimalSlot_slot _ _ _ _ Hok) in Hslot as (k & _ & _ & _ & _ & Hfree).
  apply (freeForAll_fetchedFrom m req _ _ Hnodup Hfree id b Hin Hb).
  unfold MockRepository.within, Equal, After, Before.
  apply andb_true_iff. split; apply orb_true_iff; rewrite Z.eqb_eq, Z.ltb_lt; lia.
Qed.

Lemma fetchedFrom_ext m1 m2 req ids :
  (forall id, id ∈ ids ->
     List.filter (MockRepository.within (TimeRange.Start (ScheduleRequest.TimeRange req))
                                        (TimeRange.End (ScheduleRequest.TimeRange req)))
                 (stored m1 id)
     = List.filter (MockRepository.within (TimeRange.Start (ScheduleRequest.TimeRange req))
                                          (TimeRange.End (ScheduleRequest.TimeRange req)))
                   (stored m2 id)) ->
  fetchedFrom m1 req ids = fetchedFrom m2 req ids.
Proof.
  intros Hsame. unfold fetchedFrom. apply map_ext_in. intros id Hin%list_elem_of_In.
  rewrite !MockRepository_GetUserEvents_filter. cbn [fst]. now apply Hsame.
Qed.

(** X14. An event that starts before the window's start or ends after the
    window's end is not seen by [Schedule]: with that event added to the
    [MockRepository], for whichever user, [Schedule] returns what it returns
    without it, even when the event overlaps the meeting. *)
Theorem Schedule_does_not_see_events_across_the_window (mapRange : MapRange)
    (AddDate : Time -> Z -> Z -> Z -> Time)
    (meetingID : string) (newEvent : string -> string * Time * Time)
    (now : Time) (req : ScheduleRequest.t) (m : MockRepository.t) (b : CalendarEvent.t) :
  let window := ScheduleRequest.TimeRange req in
  instant (CalendarEvent.StartTime b) < instant (TimeRange.Start window)
  \/ instant (TimeRange.End window) < instant (CalendarEvent.EndTime b) ->
  (run (Schedule mapRange AddDate meetingID newEvent now req)
       (MockRepository.CreateEvent m b).1).1.1
  = (run (Schedule mapRange AddDate meetingID newEvent now req) m).1.1.
Proof.
  intros window Hacross. subst window. rewrite !run_Schedule.
  destruct (validateScheduleRequest AddDate now req) as [e|]; [reflexivity|].
  change (MockRepository.users (MockRepository.CreateEvent m b).1)
    with (MockRepository.users m).
  destruct (bool_decide _); [|reflexivity].
  rewrite (fetchedFrom_ext (MockRepository.CreateEvent m b).1 m).
  - now destruct (FindOptimalSlot mapRange req _).1.
  - intros id _. rewrite stored_CreateEvent.
    destruct (bool_decide _); [|now rewrite app_nil_r].
    rewrite List.filter_app. simpl.
    replace (MockRepository.within _ _ b) with false; [now rewrite app_nil_r|].
    symmetry. unfold MockRepository.within, Equal, After, Before.
    apply andb_false_iff. rewrite !orb_false_iff, !Z.eqb_neq, !Z.ltb_ge. lia.
Qed.

(** X15. Two meetings that [Schedule] makes one after the other against the
    same [MockRepository] do not overlap when they share a participant and
    the first meeting lies within the window of the second request: the
    second meeting ends strictly before the first starts, or starts strictly
    after it ends. *)
Theorem successive_meetings_do_not_overlap
    (mapRange1 mapRange2 : MapRange) (AddDate1 AddDate2 : Time -> Z -> Z -> Z -> Time)
    (meetingID1 meetingID2 : string) (newEvent1 newEvent2 : string -> string * Time * Time)
    (now1 now2 : Time) (req1 req2 : ScheduleRequest.t) (m : MockRepository.t)
    (resp1 resp2 : ScheduleResponse.t) (id : string) :
  let first := run (Schedule mapRange1 AddDate1 meetingID1 newEvent1 now1 req1) m in
  let second := run (Schedule mapRange2 AddDate2 meetingID2 newEvent2 now2 req2) first.1.2 in
  let window2 := ScheduleRequest.TimeRange req2 in
  MapRange_ok mapRange2 ->
  first.1.1.1 = Some resp1 ->
  second.1.1.1 = Some resp2 ->
  id ∈ ScheduleRequest.ParticipantIDs req1 ->
  id ∈ ScheduleRequest.ParticipantIDs req2 ->
  instant (TimeRange.Start window2) <= instant (ScheduleResponse.StartTime resp1) ->
  instant (ScheduleResponse.EndTime resp1) <= instant (TimeRange.End window2) ->
  instant (ScheduleResponse.EndTime resp2) < instant (ScheduleResponse.StartTime resp1)
  \/ instant (ScheduleResponse.EndTime resp1) < instant (ScheduleResponse.StartTime resp2).
Proof.
  intros first second window2 Hok Hresp1 Hresp2 Hin1 Hin2 Hstart Hend.
  subst first second window2.
  pose (event := NewCalendarEvent newEvent1 (ScheduleResponse.Title resp1)
                   (ScheduleResponse.StartTime resp1) (ScheduleResponse.EndTime resp1) id).
  assert (Hstored : event ∈ stored (run (Schedule mapRange1 AddDate1 meetingID1 newEvent1 now1
                                           req1) m).1.2 id).
  { rewrite run_Schedule in Hresp1 |- *.
    destruct (validateScheduleRequest AddDate1 now1 req1) as [e|] eqn:Hvalid; [discriminate|].
    apply validateScheduleRequest_None_iff in Hvalid as (_ & _ & Hnodup & _).
    destruct (bool_decide _); [|discriminate].
    destruct (FindOptimalSlot mapRange1 req1 _).1 as [slot|]; [|discriminate].
    injection Hresp1 as <-. cbn [snd].
    rewrite createdIn_stored by exact Hnodup.
    rewrite bool_decide_eq_true_2 by exact Hin1.
    apply elem_of_app. right. left. }
  assert (Hfields : CalendarEvent.StartTime event = ScheduleResponse.StartTime resp1
                    /\ CalendarEvent.EndTime event = ScheduleResponse.EndTime resp1).
  { subst event. unfold NewCalendarEvent. now destruct (newEvent1 id) as [[? ?] ?]. }
  destruct Hfields as [Hs He].
  rewrite run_Schedule in Hresp2.
  destruct (validateScheduleRequest AddDate2 now2 req2) as [e|] eqn:Hvalid; [discriminate|].
  apply validateScheduleRequest_None_iff in Hvalid as (_ & _ & Hnodup & _).
  destruct (bool_decide _); [|discriminate].
  destruct (FindOptimalSlot mapRange2 req2 _).1 as [slot|] eqn:Hslot; [|discriminate].
  injection Hresp2 as <-.
  apply (FindOptimalSlot_slot _ _ _ _ Hok) in Hslot as (k & _ & _ & _ & _ & Hfree).
  cbn [responseFor ScheduleResponse.StartTime ScheduleResponse.EndTime].
  rewrite <- Hs, <- He.
  apply (freeForAll_fetchedFrom _ req2 _ _ Hnodup Hfree id event Hin2 Hstored).
  unfold MockRepository.within, Equal, After, Before. rewrite Hs, He.
  apply andb_true_iff. split; apply orb_true_iff; rewrite Z.eqb_eq, Z.ltb_lt; lia.
Qed.

(** X16. A meeting that [Schedule] made shows in the calendar of each of
    its participants: against the [MockRepository] that [Schedule] left,
    [GetUserCalendar] for a participant and the request's window returns,
    without an error, the participant's earlier events within the window
    followed by the meeting. *)
Theorem GetUserCalendar_after_Schedule (mapRange : MapRange)
    (AddDate : Time -> Z -> Z -> Z -> Time)
    (meetingID : string) (newEvent : string -> string * Time * Time)
    (now : Time) (req : ScheduleRequest.t) (m : MockRepository.t)
    (resp : ScheduleResponse.t) (id : string) :
  let window := ScheduleRequest.TimeRange req in
  let after := run (Schedule mapRange AddDate meetingID newEvent now req) m in
  MapRange_ok mapRange ->
  after.1.1.1 = Some resp ->
  id ∈ ScheduleRequest.ParticipantIDs req ->
  (run (GetUserCalendar id (TimeRange.Start window) (TimeRange.End window)) after.1.2).1.1
  = (List.filter (MockRepository.within (TimeRange.Start window) (TimeRange.End window))
                 (stored m id)
     ++ [NewCalendarEvent newEvent (ScheduleResponse.Title resp)
           (ScheduleResponse.StartTime resp) (ScheduleResponse.EndTime resp) id],
     None).
Proof.
  intros window after Hok Hresp Hin. subst window after.
  rewrite run_Schedule in Hresp |- *.
  destruct (validateScheduleRequest AddDate now req) as [e|] eqn:Hvalid; [discriminate|].
  apply validateScheduleRequest_None_iff in Hvalid as (_ & _ & Hnodup & Hd & _).
  destruct (bool_decide_reflect
              (Forall (fun id => is_Some (MockRepository.users m !! id))
                      (ScheduleRequest.ParticipantIDs req))) as [Hknown|]; [|discriminate].
  destruct (FindOptimalSlot mapRange req _).1 as [slot|] eqn:Hslot; [|discriminate].
  injection Hresp as <-. cbn [snd].
  apply (FindOptimalSlot_slot _ _ _ _ Hok) in Hslot as (k & Hstart & Hend & _ & Hinside & _).
  rewrite Forall_forall in Hknown. destruct (Hknown id Hin) as [user Huser].
  unfold GetUserCalendar. simpl. unfold MockRepository.GetUser.
  rewrite createdIn_users, Huser. simpl.
  rewrite GetUserEvents_loop_filter. simpl.
  change (default [] (MockRepository.events ?m !! id)) with (stored m id).
  rewrite createdIn_stored by exact Hnodup.
  rewrite bool_decide_eq_true_2 by exact Hin.
  rewrite List.filter_app. simpl.
  replace (MockRepository.within _ _ (eventCreated newEvent req slot id)) with true.
  2: { symmetry. destruct (eventCreated_fields newEvent req slot id) as (_ & _ & Hs & He).
       unfold MockRepository.within, Equal, After, Before. rewrite Hs, He.
       rewrite Hstart in *. rewrite gridStart_instant.
       apply andb_true_iff. split; apply orb_true_iff; rewrite Z.eqb_eq, Z.ltb_lt; lia. }
  destruct (List.filter _ (stored m id) ++ [eventCreated newEvent req slot id]) eqn:Happ.
  - now apply app_eq_nil in Happ as [_ [=]].
  - simpl. rewrite <- Happ. reflexivity.
Qed.

(** ** The candidates and the calendar *)

(** X17. More busy intervals never make a candidate appear: when every busy
    interval of one calendar is also in another, under whichever
    participant, every candidate that [findAvailableSlots] produces for the
    larger calendar is one it produces for the smaller, and a search that
    finds no slot for the smaller finds none for the larger. *)
Theorem findAvailableSlots_antitone (mapRange1 mapRange2 : MapRange)
    (req : ScheduleRequest.t) (events1 events2 : Events) :
  MapRange_ok mapRange1 -> MapRange_ok mapRange2 ->
  (forall user userEvents b,
     events1 !! user = Some userEvents -> b ∈ userEvents ->
     exists user' userEvents', events2 !! user' = Some userEvents' /\ b ∈ userEvents') ->
  (forall slot,
     slot ∈ findAvailableSlots mapRange2 req events2 ->
     slot ∈ findAvailableSlots mapRange1 req events1)
  /\ ((FindOptimalSlot mapRange1 req events1).1 = None ->
      (FindOptimalSlot mapRange2 req events2).1 = None).
Proof.
  intros Hok1 Hok2 Hsub.
  assert (Hslots : forall slot,
            slot ∈ findAvailableSlots mapRange2 req events2 ->
            slot ∈ findAvailableSlots mapRange1 req events1).
  { intros slot (k & -> & Hprod)%elem_of_findAvailableSlots.
    apply elem_of_findAvailableSlots. exists k. split; [reflexivity|].
    unfold produced in *. apply andb_true_iff in Hprod as [Hin Hprod].
    apply andb_true_iff in Hprod as [Hend Havail].
    rewrite Hin, Hend. simpl.
    apply (isSlotAvailable_true mapRange1); [exact Hok1|].
    apply (isSlotAvailable_true mapRange2) in Havail; [|exact Hok2].
    intros user userEvents b Huser Hb.
    destruct (Hsub user userEvents b Huser Hb) as (user' & userEvents' & Huser' & Hb').
    apply (Havail user' userEvents' b Huser' Hb'). }
  split; [exact Hslots|].
  rewrite !FindOptimalSlot_None. intros Hnone.
  destruct (findAvailableSlots mapRange2 req events2) as [|slot slots]; [reflexivity|].
  specialize (Hslots slot (list_elem_of_here _ _)). rewrite Hnone in Hslots.
  inversion Hslots.
Qed.

Lemma filter_all {A : Type} (P : A -> Prop) `{forall x, Decision (P x)} (l : list A) :
  (forall x, x ∈ l -> P x) -> filter P l = l.
Proof.
  induction l as [|x l IH]; intros Hall; [reflexivity|].
  rewrite filter_cons_True by (apply Hall; left).
  f_equal. apply IH. intros y Hy. apply Hall. now right.
Qed.

Lemma filter_lt_seq (n rounds : nat) :
  (n <= rounds)%nat -> filter (fun k => (k < n)%nat) (seq 0 rounds) = seq 0 n.
Proof.
  intros Hle. replace rounds with (n + (rounds - n))%nat by lia.
  rewrite seq_app, filter_app.
  rewrite filter_all by (intros k Hk%elem_of_seq; lia).
  rewrite filter_none by (intros k Hk%elem_of_seq; lia).
  apply app_nil_r.
Qed.

(** X18. With no busy interval at all and a duration that is not negative,
    the candidates are the slots that start [k] quarters of an hour after
    the window's start, for the [k] from 0 up to, and without, the number
    of quarters of an hour, rounded up, by which the window is longer than
    the duration; there is none when the window is not longer. *)
Theorem findAvailableSlots_no_events (mapRange : MapRange)
    (req : ScheduleRequest.t) (events : Events) :
  let window := ScheduleRequest.TimeRange req in
  let longer :=
    instant (TimeRange.End window) - instant (TimeRange.Start window) - requestDuration req in
  MapRange_ok mapRange ->
  (forall user userEvents, events !! user = Some userEvents -> userEvents = []) ->
  0 <= requestDuration req ->
  findAvailableSlots mapRange req events
  = map (candidateAt req) (seq 0 (Z.to_nat ((longer + 15 * Minute - 1) / (15 * Minute)))).
Proof.
  intros window longer Hok Hnone Hd. subst window longer.
  rewrite findAvailableSlots_spec.
  set (s := instant (TimeRange.Start _)). set (e := instant (TimeRange.End _)).
  set (d := requestDuration req) in *.
  set (n := Z.to_nat ((e - s - d + 15 * Minute - 1) / (15 * Minute))).
  assert (Hprod : forall k, produced mapRange req events k = true <-> (k < n)%nat).
  { intros k. unfold produced.
    replace (isSlotAvailable mapRange _ _ events) with true.
    2: { symmetry. apply (isSlotAvailable_true mapRange); [exact Hok|].
         intros user userEvents b Huser Hb. apply Hnone in Huser. subst userEvents.
         inversion Hb. }
    rewrite !andb_true_r, andb_true_iff. unfold Before, candidateAt.
    cbn [TimeSlot.End Add instant]. rewrite !Z.ltb_lt, gridStart_instant.
    fold s e d. subst n. change (15 * Minute) with 900000000000.
    pose proof (Z.div_mod (e - s - d + 900000000000 - 1) 900000000000 ltac:(lia)) as Hdiv.
    pose proof (Z.mod_pos_bound (e - s - d + 900000000000 - 1) 900000000000 ltac:(lia)) as Hmod.
    assert (Hn : Z.of_nat (Z.to_nat ((e - s - d + 900000000000 - 1) / 900000000000))
                 = Z.max 0 ((e - s - d + 900000000000 - 1) / 900000000000)) by lia.
    split.
    - intros [_ Hend]. apply Nat2Z.inj_lt. rewrite Hn. nia.
    - intros Hk. apply Nat2Z.inj_lt in Hk. rewrite Hn in Hk. nia. }
  rewrite (list_filter_iff _ (fun k => (k < n)%nat)) by exact Hprod.
  rewrite filter_lt_seq; [reflexivity|].
  subst n. unfold findAvailableSlots_rounds. fold s e.
  assert ((e - s - d + 15 * Minute - 1) / (15 * Minute)
          <= (e - s + 15 * Minute - 1) / (15 * Minute)).
  { apply Z.div_le_mono; [reflexivity|lia]. }
  lia.
Qed.

Lemma findAvailableSlots_too_short mapRange req events :
  instant (TimeRange.End (ScheduleRequest.TimeRange req))
  <= instant (TimeRange.Start (ScheduleRequest.TimeRange req))
  \/ instant (TimeRange.End (ScheduleRequest.TimeRange req))
     <= instant (TimeRange.Start (ScheduleRequest.TimeRange req)) + requestDuration req ->
  findAvailableSlots mapRange req events = [].
Proof.
  intros Hshort. rewrite findAvailableSlots_spec.
  rewrite filter_none; [reflexivity|].
  intros k _ Hprod. unfold produced in Hprod.
  apply andb_true_iff in Hprod as [Hin Hprod]. apply andb_true_iff in Hprod as [Hend _].
  unfold Before, candidateAt in Hin, Hend. cbn [TimeSlot.End Add instant] in Hend.
  rewrite Z.ltb_lt, gridStart_instant in Hin, Hend.
  change (15 * Minute) with 900000000000 in Hin, Hend. lia.
Qed.

(** X19. When the window is empty or ends before it starts, and when it is
    not longer than the duration, [findAvailableSlots] produces no candidate
    and [FindOptimalSlot] returns neither a slot nor an error, whatever the
    calendars hold. *)
Theorem FindOptimalSlot_window_too_short (mapRange : MapRange)
    (req : ScheduleRequest.t) (events : Events) :
  let window := ScheduleRequest.TimeRange req in
  instant (TimeRange.End window) <= instant (TimeRange.Start window)
  \/ instant (TimeRange.End window)
     <= instant (TimeRange.Start window) + requestDuration req ->
  findAvailableSlots mapRange req events = []
  /\ FindOptimalSlot mapRange req events = (None, None).
Proof.
  intros window Hshort. subst window.
  pose proof (findAvailableSlots_too_short mapRange req events Hshort) as Hnone.
  split; [exact Hnone|]. rewrite FindOptimalSlot_unfold. now rewrite Hnone.
Qed.

(** X22. A valid request among participants who are known and have no event
    within the window is always scheduled, unless the duration fills the
    window exactly: against the [MockRepository], [Schedule] returns a
    response when the window is longer than the duration, and
    [ErrNoAvailableSlot] when it is just as long. *)
Theorem Schedule_free_participants (mapRange : MapRange)
    (AddDate : Time -> Z -> Z -> Z -> Time)
    (meetingID : string) (newEvent : string -> string * Time * Time)
    (now : Time) (req : ScheduleRequest.t) (m : MockRepository.t) :
  let ids := ScheduleRequest.ParticipantIDs req in
  let window := ScheduleRequest.TimeRange req in
  let fits := instant (TimeRange.Start window) + ScheduleRequest.DurationMinutes req * Minute in
  let result := (run (Schedule mapRange AddDate meetingID newEvent now req) m).1.1 in
  MapRange_ok mapRange ->
  validateScheduleRequest AddDate now req = None ->
  (forall id, id ∈ ids -> is_Some (MockRepository.users m !! id)) ->
  (forall id b, id ∈ ids -> b ∈ stored m id ->
     MockRepository.within (TimeRange.Start window) (TimeRange.End window) b = false) ->
  (fits < instant (TimeRange.End window) -> exists resp, result = (Some resp, None))
  /\ (fits = instant (TimeRange.End window) -> result = (None, Some ErrNoAvailableSlot))
  /\ fits <= instant (TimeRange.End window).
Proof.
  intros ids window fits result Hok Hvalid Hknown Hfree. subst result fits window.
  rewrite run_Schedule, Hvalid. fold ids.
  rewrite bool_decide_eq_true_2 by (now apply Forall_forall).
  apply validateScheduleRequest_None_iff in Hvalid
    as (_ & _ & Hnodup & Hd & _ & _ & _ & _ & _ & Hfits).
  pose proof (requestDuration_exact req ltac:(lia)) as Hduration.
  set (events := collected ids (fetchedFrom m req ids) ∅).
  assert (Hempty : forall start end_, freeForAll start end_ events).
  { intros start end_ user userEvents b Huser Hb. exfalso.
    apply collected_lookup_inv in Huser as [Hin|Huser]; [|now rewrite lookup_empty in Huser
                                                         |apply fetchedFrom_length].
    unfold fetchedFrom in Hin. apply list_elem_of_In, in_map_iff in Hin as (id & <- & Hid).
    rewrite MockRepository_GetUserEvents_filter in Hb. cbn [fst] in Hb.
    apply list_elem_of_In, filter_In in Hb as [Hb Hwithin].
    rewrite (Hfree id b) in Hwithin; [discriminate|now apply list_elem_of_In|].
    now apply list_elem_of_In. }
  split; [|split; [|exact Hfits]].
  - intros Hlonger.
    destruct (FindOptimalSlot mapRange req events).1 as [slot|] eqn:Hslot; [now eexists|].
    apply FindOptimalSlot_None in Hslot. exfalso.
    assert (Hin : candidateAt req 0 ∈ findAvailableSlots mapRange req events).
    { apply elem_of_findAvailableSlots. exists 0%nat. split; [reflexivity|].
      unfold produced, Before, candidateAt. cbn [TimeSlot.End Add instant].
      rewrite gridStart_instant, Hduration.
      replace (isSlotAvailable mapRange _ _ events) with true
        by (symmetry; now apply (isSlotAvailable_true mapRange)).
      rewrite andb_true_r, andb_true_iff, !Z.ltb_lt.
      change Minute with 60000000000 in *. lia. }
    rewrite Hslot in Hin. inversion Hin.
  - intros Hexact.
    rewrite (proj2 (FindOptimalSlot_None mapRange req events)); [reflexivity|].
    apply findAvailableSlots_too_short. right. rewrite Hduration. lia.
Qed.

(** ** [getEnv] *)

(** X20. [getEnv] returns the variable's value when it is set and not empty,
    and the default otherwise: a variable set to the empty string counts as
    not set, and the result is never empty unless the default is. *)
Theorem getEnv_value_or_default (environ : gmap string string) (key defaultValue : string) :
  (forall value, environ !! key = Some value -> value <> "" ->
     getEnv environ key defaultValue = value)
  /\ (environ !! key = None \/ environ !! key = Some "" ->
      getEnv environ key defaultValue = defaultValue)
  /\ (defaultValue <> "" -> getEnv environ key defaultValue <> "").
Proof.
  unfold getEnv, os_Getenv. split; [|split].
  - intros value -> Hvalue. simpl. apply String.eqb_neq in Hvalue. now rewrite Hvalue.
  - now intros [-> | ->].
  - intros Hdefault. destruct (environ !! key) as [value|]; simpl; [|exact Hdefault].
    destruct (String.eqb_spec value ""); simpl; assumption.
Qed.

(** ** [sort.Slice] on a slice of at most twelve elements: insertion sort *)

Section insertion_sort.

Context {A : Type} (less : A -> A -> bool).

Lemma sort_index_middle (l1 l2 : list A) x :
  sort.index (l1 ++ x :: l2) (Z.of_nat (length l1)) = Some x.
Proof.
  unfold sort.index. replace (Z.of_nat (length l1) <? 0) with false
    by (symmetry; apply Z.ltb_ge; lia).
  rewrite Nat2Z.id. apply list_lookup_middle. reflexivity.
Qed.

Lemma sort_insertionShift_bubble : forall n r y rest,
  length r = n ->
  sort.insertionShift less (reverse r ++ y :: rest) 0 n = reverse (bubble less y r) ++ rest.
Proof.
  induction n as [|n IH]; intros r y rest Hlen.
  - destruct r; [reflexivity|discriminate].
  - destruct r as [|z r]; [discriminate|]. injection Hlen as Hlen.
    cbn [sort.insertionShift bubble]. rewrite reverse_cons.
    replace (0 + Z.of_nat (S n)) with (Z.of_nat (length (reverse r ++ [z])))
      by (rewrite length_app, length_reverse; simpl; lia).
    unfold sort.Less, sort.Swap.
    rewrite sort_index_middle.
    replace (Z.of_nat (length (reverse r ++ [z])) - 1) with (Z.of_nat (length (reverse r)))
      by (rewrite length_app; simpl; lia).
    rewrite <- (app_assoc (reverse r) [z]). cbn [app].
    rewrite sort_index_middle.
    destruct (less y z).
    + rewrite !Nat2Z.id.
      rewrite (insert_app_r_alt (reverse r)) by lia.
      rewrite Nat.sub_diag. cbn [insert list_insert].
      rewrite (insert_app_r_alt (reverse r)) by (rewrite length_app; simpl; lia).
      replace (length (reverse r ++ [z]) - length (reverse r))%nat with 1%nat
        by (rewrite length_app; simpl; lia).
      cbn [insert list_insert].
      rewrite IH by exact Hlen.
      rewrite reverse_cons. now rewrite <- app_assoc.
    + rewrite !reverse_cons. now rewrite <- !app_assoc.
Qed.

Lemma bubble_length y r : length (bubble less y r) = S (length r).
Proof.
  induction r as [|z r IH]; simpl; [reflexivity|].
  destruct (less y z); simpl; [now rewrite IH|reflexivity].
Qed.

Lemma isortr_snoc p y : isortr less (p ++ [y]) = bubble less y (isortr less p).
Proof. unfold isortr. now rewrite fold_left_app. Qed.

Lemma isortr_length p : length (isortr less p) = length p.
Proof.
  induction p as [|y p IH] using rev_ind; [reflexivity|].
  now rewrite isortr_snoc, bubble_length, length_app, IH, Nat.add_comm.
Qed.

Lemma sort_insertionSort_steps : forall rest p,
  fold_left (fun data i => sort.insertionShift less data 0 (Z.to_nat (i - 0)))
            (seqZ (Z.of_nat (length p)) (Z.of_nat (length rest)))
            (reverse (isortr less p) ++ rest)
  = reverse (isortr less (p ++ rest)).
Proof.
  induction rest as [|y rest IH]; intros p.
  - simpl. now rewrite !app_nil_r.
  - cbn [length]. rewrite Nat2Z.inj_succ, seqZ_cons by lia. cbn [fold_left].
    rewrite Z.sub_0_r, Nat2Z.id.
    rewrite sort_insertionShift_bubble by apply isortr_length.
    rewrite <- isortr_snoc.
    replace (Z.succ (Z.of_nat (length p))) with (Z.of_nat (length (p ++ [y])))
      by (rewrite length_app; simpl; lia).
    rewrite Z.pred_succ, IH. now rewrite <- app_assoc.
Qed.

Lemma sort_insertionSort_isortr (x : list A) :
  sort.insertionSort_func less x 0 (Z.of_nat (length x)) = reverse (isortr less x).
Proof.
  unfold sort.insertionSort_func. destruct x as [|x0 x]; [reflexivity|].
  cbn [length]. replace (Z.of_nat (S (length x)) - 0 - 1) with (Z.of_nat (length x)) by lia.
  apply (sort_insertionSort_steps x [x0]).
Qed.

Lemma sort_Slice_small (x : list A) :
  (length x <= 12)%nat -> sort.Slice less x = reverse (isortr less x).
Proof.
  intros Hsmall. unfold sort.Slice, sort.pdqsort_func.
  rewrite <- sort_insertionSort_isortr.
  destruct (Z.to_nat (Z.of_nat (length x) - 0)); cbn [sort.pdqsort_loop]; [reflexivity|].
  replace (Z.of_nat (length x) - 0 <=? 12) with true by (symmetry; apply Z.leb_le; lia).
  reflexivity.
Qed.

(** The order that [less] gives to the elements that are [ok]. *)
Variable ok : A -> Prop.
Hypothesis less_asym : forall a b, ok a -> ok b -> less a b = true -> less b a = false.
Hypothesis less_negtrans : forall a b c,
  ok a -> ok b -> ok c -> less a b = false -> less b c = false -> less a c = false.

Lemma bubble_sorted y r :
  ok y -> Forall ok r ->
  StronglySorted (fun a b => less a b = false) r ->
  StronglySorted (fun a b => less a b = false) (bubble less y r).
Proof.
  intros Hy Hr Hsorted. induction Hsorted as [|z r Hsorted IH Hz]; simpl.
  - repeat constructor.
  - apply Forall_cons in Hr as [Hokz Hr].
    destruct (less y z) eqn:Hyz.
    + constructor; [now apply IH|].
      clear IH Hsorted. induction r as [|c r IHr]; simpl.
      * constructor; [|constructor]. now apply less_asym.
      * apply Forall_cons in Hz as [Hzc Hz]. apply Forall_cons in Hr as [Hokc Hr].
        destruct (less y c).
        -- constructor; [exact Hzc|now apply IHr].
        -- constructor; [now apply less_asym|]. now constructor.
    + constructor; [now constructor|].
      constructor; [exact Hyz|].
      rewrite Forall_forall in Hz, Hr. apply Forall_forall. intros c Hc.
      apply (less_negtrans y z c); auto.
Qed.

Lemma bubble_last y r h :
  ok y -> Forall ok r ->
  StronglySorted (fun a b => less a b = false) r ->
  last r = Some h ->
  last (bubble less y r) = Some y /\ Forall (fun z => less y z = true) r
  \/ last (bubble less y r) = Some h /\ less y h = false.
Proof.
  intros Hy Hr Hsorted. revert h. induction Hsorted as [|z r Hsorted IH Hz]; intros h Hlast.
  - discriminate.
  - apply Forall_cons in Hr as [Hokz Hr]. simpl.
    destruct (less y z) eqn:Hyz.
    + destruct r as [|c r].
      * injection Hlast as <-. left. simpl. split; [reflexivity|]. now constructor.
      * change (last (z :: c :: r)) with (last (c :: r)) in Hlast.
        destruct (IH Hr h Hlast) as [[Hl Hall]|[Hl Hh]].
        -- left. split; [|now constructor].
           rewrite last_cons, Hl. reflexivity.
        -- right. split; [|exact Hh]. rewrite last_cons, Hl. reflexivity.
    + right. change (last (y :: z :: r)) with (last (z :: r)). split; [exact Hlast|].
      destruct r as [|c r].
      * now injection Hlast as <-.
      * change (last (z :: c :: r)) with (last (c :: r)) in Hlast.
        assert (Hin : h ∈ c :: r).
        { apply last_Some in Hlast as [l' ->]. apply elem_of_app. right. left. }
        rewrite Forall_forall in Hz, Hr.
        apply (less_negtrans y z h); auto.
Qed.

(** The head of the sorted slice is the first of the elements that no
    element is [less] than. *)
Lemma isortr_last (x : list A) :
  Forall ok x -> x <> [] ->
  StronglySorted (fun a b => less a b = false) (isortr less x)
  /\ isortr less x ≡ₚ x
  /\ exists before h after_,
       x = before ++ h :: after_
       /\ last (isortr less x) = Some h
       /\ Forall (fun y => less h y = true) before
       /\ Forall (fun y => less y h = false) after_.
Proof.
  induction x as [|y x IH] using rev_ind; intros Hok Hne; [congruence|].
  apply Forall_app in Hok as [Hokx Hoky]. apply Forall_cons in Hoky as [Hoky _].
  rewrite isortr_snoc.
  destruct x as [|x0 x].
  - simpl. split; [repeat constructor|]. split; [reflexivity|].
    exists [], y, []. repeat split; constructor.
  - destruct (IH Hokx ltac:(discriminate))
      as (Hsorted & Hperm & before & h & after_ & Hx & Hlast & Hbefore & Hafter).
    assert (Hokr : Forall ok (isortr less (x0 :: x))) by (now rewrite Hperm).
    split; [now apply bubble_sorted|].
    split.
    { transitivity (isortr less (x0 :: x) ++ [y]); [|now apply Permutation_app_tail].
      clear. induction (isortr less (x0 :: x)) as [|z r IHr]; simpl.
      - reflexivity.
      - destruct (less y z).
        + now constructor.
        + apply (Permutation_app_comm [y] (z :: r)). }
    destruct (bubble_last y _ h Hoky Hokr Hsorted Hlast) as [[Hl Hall]|[Hl Hh]].
    + exists (x0 :: x), y, []. split; [reflexivity|]. split; [exact Hl|].
      split; [now rewrite <- Hperm|constructor].
    + exists before, h, (after_ ++ [y]).
      split; [rewrite Hx; now rewrite <- app_assoc|].
      split; [exact Hl|]. split; [exact Hbefore|].
      apply Forall_app. split; [exact Hafter|]. now constructor.
Qed.

End insertion_sort.

(** ** The order of [<] on [float64] *)

Lemma SFltb_lexlt (f1 f2 : spec_float) :
  f1 <> S754_nan -> f2 <> S754_nan ->
  SFltb f1 f2 = true <-> lexlt (SFrank f1) (SFrank f2).
Proof.
  intros Hf1 Hf2. unfold SFltb, lexlt.
  destruct f1 as [s1|s1| |s1 m1 e1], f2 as [s2|s2| |s2 m2 e2]; try congruence;
    try destruct s1; try destruct s2; simpl;
    try (split; [discriminate|lia]); try (split; [lia|reflexivity]);
    try (split; [intros _; lia|reflexivity]).
  - change (PosDef.Pos.compare_cont Eq m1 m2) with (Pos.compare m1 m2).
    change (IntDef.Z.compare e1 e2) with (Z.compare e1 e2).
    destruct (Z.compare_spec e1 e2); destruct (Pos.compare_spec m1 m2); simpl;
      split; try discriminate; try reflexivity; lia.
  - change (PosDef.Pos.compare_cont Eq m1 m2) with (Pos.compare m1 m2).
    change (IntDef.Z.compare e1 e2) with (Z.compare e1 e2).
    destruct (Z.compare_spec e1 e2); destruct (Pos.compare_spec m1 m2); simpl;
      split; try discriminate; try reflexivity; lia.
Qed.

Lemma is_nan_Prim2SF (f : float) : is_nan f = false -> Prim2SF f <> S754_nan.
Proof.
  unfold is_nan. rewrite FloatAxioms.eqb_spec. intros Hnan Heq. rewrite Heq in Hnan.
  discriminate.
Qed.

Lemma ltb_lexlt (f1 f2 : float) :
  is_nan f1 = false -> is_nan f2 = false ->
  (f1 <? f2)%float = true <-> lexlt (SFrank (Prim2SF f1)) (SFrank (Prim2SF f2)).
Proof.
  intros H1%is_nan_Prim2SF H2%is_nan_Prim2SF. rewrite FloatAxioms.ltb_spec.
  now apply SFltb_lexlt.
Qed.

Lemma ltb_false_lexlt (f1 f2 : float) :
  is_nan f1 = false -> is_nan f2 = false ->
  (f1 <? f2)%float = false <-> ~ lexlt (SFrank (Prim2SF f1)) (SFrank (Prim2SF f2)).
Proof.
  intros H1 H2. rewrite <- (ltb_lexlt f1 f2 H1 H2). now destruct (f1 <? f2)%float.
Qed.

Lemma higherScore_asym (a b : TimeSlot.t) :
  is_nan (TimeSlot.Score a) = false -> is_nan (TimeSlot.Score b) = false ->
  higherScore a b = true -> higherScore b a = false.
Proof.
  intros Ha Hb. unfold higherScore.
  rewrite (ltb_lexlt _ _ Hb Ha), (ltb_false_lexlt _ _ Ha Hb). unfold lexlt.
  destruct (SFrank _) as [[? ?] ?], (SFrank _) as [[? ?] ?]. simpl. lia.
Qed.

Lemma higherScore_negtrans (a b c : TimeSlot.t) :
  is_nan (TimeSlot.Score a) = false -> is_nan (TimeSlot.Score b) = false ->
  is_nan (TimeSlot.Score c) = false ->
  higherScore a b = false -> higherScore b c = false -> higherScore a c = false.
Proof.
  intros Ha Hb Hc. unfold higherScore.
  rewrite (ltb_false_lexlt _ _ Hb Ha), (ltb_false_lexlt _ _ Hc Hb),
    (ltb_false_lexlt _ _ Hc Ha). unfold lexlt.
  destruct (SFrank (Prim2SF (TimeSlot.Score a))) as [[? ?] ?],
           (SFrank (Prim2SF (TimeSlot.Score b))) as [[? ?] ?],
           (SFrank (Prim2SF (TimeSlot.Score c))) as [[? ?] ?]. simpl. lia.
Qed.

Lemma scoreSlots_sorted mapRange slots events :
  StronglySorted (fun s1 s2 => instant (TimeSlot.Start s1) < instant (TimeSlot.Start s2)) slots ->
  StronglySorted (fun s1 s2 => instant (TimeSlot.Start s1) < instant (TimeSlot.Start s2))
    (scoreSlots mapRange slots events).
Proof.
  intros Hsorted. induction Hsorted as [|slot slots Hsorted IH Hall]; [constructor|].
  unfold scoreSlots in *. simpl. constructor; [exact IH|].
  apply Forall_forall. intros s (candidate & <- & Hin%list_elem_of_In)%list_elem_of_In%in_map_iff.
  rewrite Forall_forall in Hall. simpl. now apply Hall.
Qed.

(** X21. When there are at most twelve candidates, and no score is NaN,
    [FindOptimalSlot] returns the earliest of the candidates with the
    highest score: no candidate has a higher score than the slot returned,
    and every candidate that starts earlier has a strictly lower one. *)
Theorem FindOptimalSlot_earliest_of_the_best (mapRange : MapRange)
    (req : ScheduleRequest.t) (events : Events) (slot : TimeSlot.t) :
  let scored := scoreSlots mapRange (findAvailableSlots mapRange req events) events in
  (length (findAvailableSlots mapRange req events) <= 12)%nat ->
  Forall (fun s => is_nan (TimeSlot.Score s) = false) scored ->
  (FindOptimalSlot mapRange req events).1 = Some slot ->
  slot ∈ scored
  /\ (forall s, s ∈ scored -> (TimeSlot.Score slot <? TimeSlot.Score s)%float = false)
  /\ (forall s, s ∈ scored ->
        instant (TimeSlot.Start s) < instant (TimeSlot.Start slot) ->
        (TimeSlot.Score s <? TimeSlot.Score slot)%float = true).
Proof.
  intros scored Hsmall Hok Hslot.
  pose proof (scoreSlots_sorted mapRange _ events
                (findAvailableSlots_sorted mapRange req events)) as Hsorted.
  fold scored in Hsorted.
  rewrite FindOptimalSlot_unfold in Hslot.
  destruct (findAvailableSlots mapRange req events) as [|c l] eqn:Hslots; [discriminate|].
  cbn [fst] in Hslot. fold scored in Hslot.
  rewrite sort_Slice_small in Hslot
    by (subst scored; unfold scoreSlots; now rewrite length_map).
  rewrite head_reverse in Hslot.
  destruct (isortr_last higherScore (fun s => is_nan (TimeSlot.Score s) = false)
              higherScore_asym higherScore_negtrans scored Hok)
    as (_ & _ & before & h & after_ & Hscored & Hlast & Hbefore & Hafter).
  { subst scored. unfold scoreSlots. discriminate. }
  rewrite Hlast in Hslot. injection Hslot as ->.
  rewrite Forall_forall in Hbefore, Hafter, Hok.
  assert (Hin : slot ∈ scored) by (rewrite Hscored; apply elem_of_app; right; left).
  split; [exact Hin|]. split.
  - intros s Hs. rewrite Hscored in Hs.
    apply elem_of_app in Hs as [Hs|[->|Hs]%elem_of_cons].
    + apply (higherScore_asym slot s); auto. apply Hok. rewrite Hscored.
      apply elem_of_app. now left.
    + apply ltb_false_lexlt; auto. unfold lexlt.
      destruct (SFrank _) as [[? ?] ?]. simpl. lia.
    + now apply Hafter.
  - intros s Hs Hearlier. apply Hbefore.
    rewrite Hscored in Hs, Hsorted.
    apply elem_of_app in Hs as [Hs|[->|Hs]%elem_of_cons]; [exact Hs|lia|].
    apply StronglySorted_app_1_r in Hsorted.
    apply StronglySorted_inv in Hsorted as [_ Hall].
    rewrite Forall_forall in Hall. specialize (Hall s Hs). lia.
Qed.

(** ** [sort.Slice] puts a least element first

    The steps of [pdqsort_func], each with what it does to its range, and
    the sort as a whole by induction on its depth. *)

(** ** [sort.Slice] puts a least element first

    The slice as an array: what is at an index, what a [Swap] does to it,
    and which part of it a function has moved. *)

Section sort_array.

Context {A : Type} (less : A -> A -> bool).

Lemma sort_index_Some (data : list A) i :
  0 <= i < Z.of_nat (length data) -> exists x, sort.index data i = Some x.
Proof.
  intros Hi. unfold sort.index.
  replace (i <? 0) with false by (symmetry; apply Z.ltb_ge; lia).
  apply lookup_lt_is_Some. lia.
Qed.

Lemma sort_index_inv (data : list A) i x :
  sort.index data i = Some x -> 0 <= i < Z.of_nat (length data).
Proof.
  unfold sort.index. destruct (Z.ltb_spec i 0); [discriminate|].
  intros Hx%lookup_lt_Some. lia.
Qed.

Lemma sort_index_None (data : list A) i :
  ~ 0 <= i < Z.of_nat (length data) -> sort.index data i = None.
Proof.
  intros Hi. destruct (sort.index data i) eqn:Hx; [|reflexivity].
  now apply sort_index_inv in Hx.
Qed.

Lemma sort_Swap_length (data : list A) i j : length (sort.Swap data i j) = length data.
Proof.
  unfold sort.Swap. destruct (sort.index data i), (sort.index data j); try reflexivity.
  now rewrite !length_insert.
Qed.

Lemma sort_Swap_index (data : list A) i j k :
  0 <= i < Z.of_nat (length data) -> 0 <= j < Z.of_nat (length data) ->
  sort.index (sort.Swap data i j) k
  = sort.index data (if k =? i then j else if k =? j then i else k).
Proof.
  intros Hi Hj. unfold sort.Swap.
  destruct (sort_index_Some data i Hi) as [x Hx], (sort_index_Some data j Hj) as [y Hy].
  rewrite Hx, Hy.
  destruct (Z.eqb_spec k i) as [->|Hki].
  - rewrite Hy. unfold sort.index.
    replace (i <? 0) with false by (symmetry; apply Z.ltb_ge; lia).
    apply list_lookup_insert_eq. rewrite length_insert. lia.
  - destruct (Z.eqb_spec k j) as [->|Hkj].
    + rewrite Hx. unfold sort.index.
      replace (j <? 0) with false by (symmetry; apply Z.ltb_ge; lia).
      rewrite list_lookup_insert_ne by lia.
      apply list_lookup_insert_eq. lia.
    + unfold sort.index. destruct (Z.ltb_spec k 0); [reflexivity|].
      rewrite !list_lookup_insert_ne by lia. reflexivity.
Qed.

Lemma sort_Swap_Less (data : list A) i j k l :
  0 <= i < Z.of_nat (length data) -> 0 <= j < Z.of_nat (length data) ->
  sort.Less less (sort.Swap data i j) k l
  = sort.Less less data (if k =? i then j else if k =? j then i else k)
                        (if l =? i then j else if l =? j then i else l).
Proof. intros Hi Hj. unfold sort.Less. now rewrite !sort_Swap_index. Qed.

Lemma moved_refl a b (data : list A) : moved a b data data.
Proof. split; [reflexivity|]. intros k. exists k. split; [reflexivity|now left]. Qed.

Lemma moved_trans a b (data1 data2 data3 : list A) :
  moved a b data1 data2 -> moved a b data2 data3 -> moved a b data1 data3.
Proof.
  intros [Hlen1 H1] [Hlen2 H2]. split; [congruence|].
  intros k. destruct (H2 k) as (j & Hj & Hjk). destruct (H1 j) as (i & Hi & Hij).
  exists i. split; [congruence|]. lia.
Qed.

Lemma moved_mono a b a' b' (data data' : list A) :
  a <= a' -> b' <= b -> moved a' b' data data' -> moved a b data data'.
Proof.
  intros Ha Hb [Hlen H]. split; [exact Hlen|].
  intros k. destruct (H k) as (j & Hj & Hjk). exists j. split; [exact Hj|]. lia.
Qed.

Lemma moved_Swap a b (data : list A) i j :
  a <= i < b -> a <= j < b -> moved a b data (sort.Swap data i j).
Proof.
  intros Hi Hj. split; [apply sort_Swap_length|]. intros k.
  destruct (decide (0 <= i < Z.of_nat (length data) /\ 0 <= j < Z.of_nat (length data)))
    as [[Hi' Hj']|Hout].
  - rewrite sort_Swap_index by assumption.
    destruct (Z.eqb_spec k i) as [->|Hki]; [exists j; split; [reflexivity|lia]|].
    destruct (Z.eqb_spec k j) as [->|Hkj]; [exists i; split; [reflexivity|lia]|].
    exists k. split; [reflexivity|now left].
  - exists k. split; [|now left]. unfold sort.Swap.
    destruct (sort.index data i) as [x|] eqn:Hx; [|reflexivity].
    destruct (sort.index data j) as [y|] eqn:Hy; [|reflexivity].
    apply sort_index_inv in Hx, Hy. lia.
Qed.

Lemma moved_outside a b (data data' : list A) k :
  moved a b data data' -> ~ a <= k < b -> sort.index data' k = sort.index data k.
Proof.
  intros [_ H] Hk. destruct (H k) as (j & Hj & [->|?]); [exact Hj|lia].
Qed.

Lemma moved_inside a b (data data' : list A) k :
  moved a b data data' -> a <= k < b ->
  exists j, a <= j < b /\ sort.index data' k = sort.index data j.
Proof.
  intros [_ H] Hk. destruct (H k) as (j & Hj & Hjk). exists j. split; [lia|exact Hj].
Qed.

(** What holds of the elements between [a] and [b] against an element
    outside holds of them wherever they were moved. *)
Lemma moved_Less_l a b (data data' : list A) c v :
  moved a b data data' -> ~ a <= c < b ->
  (forall i, a <= i < b -> sort.Less less data i c = v) ->
  forall i, a <= i < b -> sort.Less less data' i c = v.
Proof.
  intros Hmoved Hc Hall i Hi. destruct (moved_inside _ _ _ _ i Hmoved Hi) as (j & Hj & Hij).
  unfold sort.Less. rewrite Hij, (moved_outside _ _ _ _ c Hmoved Hc). now apply Hall.
Qed.

Lemma moved_Less_r a b (data data' : list A) c v :
  moved a b data data' -> ~ a <= c < b ->
  (forall i, a <= i < b -> sort.Less less data c i = v) ->
  forall i, a <= i < b -> sort.Less less data' c i = v.
Proof.
  intros Hmoved Hc Hall i Hi. destruct (moved_inside _ _ _ _ i Hmoved Hi) as (j & Hj & Hij).
  unfold sort.Less. rewrite Hij, (moved_outside _ _ _ _ c Hmoved Hc). now apply Hall.
Qed.

Lemma moved_Less_outside a b (data data' : list A) i j :
  moved a b data data' -> ~ a <= i < b -> ~ a <= j < b ->
  sort.Less less data' i j = sort.Less less data i j.
Proof.
  intros Hmoved Hi Hj. unfold sort.Less.
  now rewrite (moved_outside _ _ _ _ i Hmoved Hi), (moved_outside _ _ _ _ j Hmoved Hj).
Qed.

(** The elements of the slice are among those that [less] orders. *)
Variable ok : A -> Prop.
Hypothesis less_asym : forall x y, ok x -> ok y -> less x y = true -> less y x = false.
Hypothesis less_negtrans : forall x y z,
  ok x -> ok y -> ok z -> less x y = false -> less y z = false -> less x z = false.

Lemma moved_all_ok a b (data data' : list A) :
  moved a b data data' -> all_ok ok data -> all_ok ok data'.
Proof.
  intros [_ H] Hok i x Hx. destruct (H i) as (j & Hj & _). rewrite Hj in Hx. eauto.
Qed.

Lemma sort_Less_irrefl (data : list A) i : all_ok ok data -> sort.Less less data i i = false.
Proof.
  intros Hok. unfold sort.Less. destruct (sort.index data i) as [x|] eqn:Hx; [|reflexivity].
  destruct (less x x) eqn:Hxx; [|reflexivity].
  rewrite <- Hxx. apply less_asym; eauto.
Qed.

Lemma sort_Less_asym (data : list A) i j :
  all_ok ok data -> sort.Less less data i j = true -> sort.Less less data j i = false.
Proof.
  intros Hok. unfold sort.Less.
  destruct (sort.index data i) as [x|] eqn:Hx; [|discriminate].
  destruct (sort.index data j) as [y|] eqn:Hy; [|discriminate].
  apply less_asym; eauto.
Qed.

Lemma sort_Less_negtrans (data : list A) i j k :
  all_ok ok data -> 0 <= j < Z.of_nat (length data) ->
  sort.Less less data i j = false -> sort.Less less data j k = false ->
  sort.Less less data i k = false.
Proof.
  intros Hok Hj. unfold sort.Less. destruct (sort_index_Some data j Hj) as [y Hy]. rewrite Hy.
  destruct (sort.index data i) as [x|] eqn:Hx; [|reflexivity].
  destruct (sort.index data k) as [z|] eqn:Hz; [|reflexivity].
  apply less_negtrans; eauto.
Qed.

Lemma sort_Less_trans (data : list A) i j k :
  all_ok ok data ->
  sort.Less less data i j = true -> sort.Less less data j k = true ->
  sort.Less less data i k = true.
Proof.
  intros Hok Hij Hjk.
  destruct (sort.Less less data i k) eqn:Hik; [reflexivity|].
  assert (Hj : 0 <= k < Z.of_nat (length data)).
  { unfold sort.Less in Hjk. destruct (sort.index data j); [|discriminate].
    destruct (sort.index data k) eqn:Hk; [|discriminate]. eapply sort_index_inv, Hk. }
  apply sort_Less_asym in Hjk; [|exact Hok].
  rewrite (sort_Less_negtrans data i k j Hok Hj Hik Hjk) in Hij. discriminate.
Qed.

(** [k] is not less than [j], and [i] is less than [j]: [k] is not less
    than [i]. *)
Lemma sort_Less_above (data : list A) i j k :
  all_ok ok data ->
  sort.Less less data i j = true -> sort.Less less data k j = false ->
  sort.Less less data k i = false.
Proof.
  intros Hok Hij Hkj.
  assert (Hj : 0 <= j < Z.of_nat (length data)).
  { unfold sort.Less in Hij. destruct (sort.index data i); [|discriminate].
    destruct (sort.index data j) eqn:Hj; [|discriminate]. eapply sort_index_inv, Hj. }
  apply (sort_Less_negtrans data k j i Hok Hj Hkj).
  now apply sort_Less_asym.
Qed.

End sort_array.

Section sort_moved.

Context {A : Type} (less : A -> A -> bool).

Lemma moved_fold_left {I : Type} a b (f : list A -> I -> list A) (l : list I) :
  (forall data i, i ∈ l -> moved a b data (f data i)) ->
  forall data, moved a b data (fold_left f l data).
Proof.
  induction l as [|i l IH]; intros Hf data; simpl; [apply moved_refl|].
  apply (moved_trans _ _ _ (f data i)); [apply Hf; left|].
  apply IH. intros data' i' Hi'. apply Hf. now right.
Qed.

Lemma moved_insertionShift n : forall (data : list A) a,
  moved a (a + Z.of_nat n + 1) data (sort.insertionShift less data a n).
Proof.
  induction n as [|n IH]; intros data a; [apply moved_refl|].
  cbn [sort.insertionShift]. destruct (sort.Less _ _ _ _); [|apply moved_refl].
  apply (moved_trans _ _ _ (sort.Swap data (a + Z.of_nat (S n)) (a + Z.of_nat (S n) - 1))).
  - apply moved_Swap; lia.
  - eapply moved_mono; [| |apply IH]; lia.
Qed.

Lemma moved_insertionSort (data : list A) a b :
  moved a b data (sort.insertionSort_func less data a b).
Proof.
  unfold sort.insertionSort_func. apply moved_fold_left.
  intros data' i Hi. apply elem_of_seqZ in Hi.
  eapply moved_mono; [| |apply moved_insertionShift]; lia.
Qed.

Lemma moved_reverseRange_loop a b rounds : forall (data : list A) i j,
  a <= i -> j < b -> moved a b data (sort.reverseRange_loop rounds data i j).
Proof.
  induction rounds as [|rounds IH]; intros data i j Hi Hj; [apply moved_refl|].
  cbn [sort.reverseRange_loop]. destruct (Z.ltb_spec i j); [|apply moved_refl].
  apply (moved_trans _ _ _ (sort.Swap data i j)); [apply moved_Swap; lia|].
  apply IH; lia.
Qed.

Lemma moved_reverseRange (data : list A) a b :
  moved a b data (sort.reverseRange_func data a b).
Proof. unfold sort.reverseRange_func. apply moved_reverseRange_loop; lia. Qed.

Lemma sort_nextPowerOfTwo length :
  8 <= length ->
  length < sort.nextPowerOfTwo length <= 2 * length
  /\ sort.nextPowerOfTwo length - 1 = Z.ones (sort.bits_Len length).
Proof.
  intros Hlen. unfold sort.nextPowerOfTwo, sort.bits_Len.
  replace (length <=? 0) with false by (symmetry; apply Z.leb_gt; lia).
  pose proof (Z.log2_nonneg length) as Hnonneg.
  rewrite Z.shiftl_1_l, Z.ones_equiv.
  pose proof (Z.log2_spec length ltac:(lia)) as [Hlow Hhigh].
  rewrite Z.pow_succ_r in Hhigh by exact Hnonneg.
  replace (Z.log2 length + 1) with (Z.succ (Z.log2 length)) by lia.
  rewrite Z.pow_succ_r by exact Hnonneg. lia.
Qed.

Lemma moved_breakPatterns (data : list A) a b :
  moved a b data (sort.breakPatterns_func data a b).
Proof.
  unfold sort.breakPatterns_func. destruct (Z.leb_spec 8 (b - a)) as [Hlen|]; [|apply moved_refl].
  destruct (sort_nextPowerOfTwo (b - a) Hlen) as [Hpow Hones].
  assert (Hq : 2 <= Z.quot (b - a) 4 /\ 4 * Z.quot (b - a) 4 <= b - a).
  { rewrite Z.quot_div_nonneg by lia.
    pose proof (Z.div_mod (b - a) 4 ltac:(lia)). pose proof (Z.mod_pos_bound (b - a) 4 ltac:(lia)).
    lia. }
  assert (Hother : forall random,
            0 <= (if b - a <=? Z.land random (sort.nextPowerOfTwo (b - a) - 1)
                  then Z.land random (sort.nextPowerOfTwo (b - a) - 1) - (b - a)
                  else Z.land random (sort.nextPowerOfTwo (b - a) - 1)) < b - a).
  { intros random. rewrite Hones, Z.land_ones.
    2: { unfold sort.bits_Len. destruct (_ <=? _); [lia|]. pose proof (Z.log2_nonneg (b - a)). lia. }
    pose proof (Z.mod_pos_bound random (2 ^ sort.bits_Len (b - a))) as Hmod.
    rewrite Z.ones_equiv in Hones.
    destruct (Z.leb_spec (b - a) (random mod 2 ^ sort.bits_Len (b - a))); lia. }
  change (seqZ 0 3) with [0; 1; 2]. cbn [fold_left fst].
  repeat match goal with
         | |- moved _ _ _ (sort.Swap ?d ?i ?j) =>
             apply (moved_trans _ _ _ d); [|apply moved_Swap; [lia|]]
         end.
  - apply moved_refl.
  - pose proof (Hother (sort.xorshift_Next (b - a))). lia.
  - pose proof (Hother (sort.xorshift_Next (sort.xorshift_Next (b - a)))). lia.
  - pose proof (Hother (sort.xorshift_Next (sort.xorshift_Next (sort.xorshift_Next (b - a))))).
    lia.
Qed.

Lemma sort_median_in (data : list A) x y z swaps :
  let m := (sort.median_func less data x y z swaps).1 in m = x \/ m = y \/ m = z.
Proof.
  unfold sort.median_func, sort.order2_func.
  repeat (destruct (sort.Less _ _ _ _); cbn [fst]); tauto.
Qed.

Lemma sort_choosePivot_range (data : list A) a b :
  12 < b - a -> a <= (sort.choosePivot_func less data a b).1 < b.
Proof.
  intros Hlen. unfold sort.choosePivot_func.
  assert (Hq : 3 <= Z.quot (b - a) 4 /\ 4 * Z.quot (b - a) 4 <= b - a).
  { rewrite Z.quot_div_nonneg by lia.
    pose proof (Z.div_mod (b - a) 4 ltac:(lia)). pose proof (Z.mod_pos_bound (b - a) 4 ltac:(lia)).
    lia. }
  replace (8 <=? b - a) with true by (symmetry; apply Z.leb_le; lia).
  set (q := Z.quot (b - a) 4) in *.
  destruct (50 <=? b - a).
  - unfold sort.medianAdjacent_func.
    pose proof (sort_median_in data (a + q * 1 - 1) (a + q * 1) (a + q * 1 + 1) 0) as H1.
    destruct (sort.median_func less data (a + q * 1 - 1) _ _ 0) as [i s1]. cbn [fst] in H1.
    pose proof (sort_median_in data (a + q * 2 - 1) (a + q * 2) (a + q * 2 + 1) s1) as H2.
    destruct (sort.median_func less data (a + q * 2 - 1) _ _ s1) as [j s2]. cbn [fst] in H2.
    pose proof (sort_median_in data (a + q * 3 - 1) (a + q * 3) (a + q * 3 + 1) s2) as H3.
    destruct (sort.median_func less data (a + q * 3 - 1) _ _ s2) as [k s3]. cbn [fst] in H3.
    pose proof (sort_median_in data i j k s3) as H4.
    destruct (sort.median_func less data i j k s3) as [m s4]. cbn [fst] in H4.
    destruct (s4 =? 0); [cbn [fst]; lia|]. destruct (s4 =? _); cbn [fst]; lia.
  - pose proof (sort_median_in data (a + q * 1) (a + q * 2) (a + q * 3) 0) as H4.
    destruct (sort.median_func less data _ _ _ 0) as [m s4]. cbn [fst] in H4.
    destruct (s4 =? 0); [cbn [fst]; lia|]. destruct (s4 =? _); cbn [fst]; lia.
Qed.

End sort_moved.

Section sort_partition.

Context {A : Type} (less : A -> A -> bool).

Lemma sort_partition_up_spec (data : list A) a n : forall i,
  let i' := sort.partition_up less data a i n in
  i <= i' <= i + Z.of_nat n
  /\ (forall k, i <= k < i' -> sort.Less less data k a = true)
  /\ (i' < i + Z.of_nat n -> sort.Less less data i' a = false).
Proof.
  induction n as [|n IH]; intros i; cbn [sort.partition_up].
  - split; [lia|]. split; intros; lia.
  - destruct (sort.Less less data i a) eqn:Hless.
    + destruct (IH (i + 1)) as (Hrange & Hbelow & Hat).
      split; [lia|]. split.
      * intros k Hk. destruct (decide (k = i)) as [->|]; [exact Hless|]. apply Hbelow. lia.
      * intros Hlt. apply Hat. lia.
    + split; [lia|]. split; [intros; lia|]. now intros _.
Qed.

Lemma sort_partition_down_spec (data : list A) a n : forall j,
  let j' := sort.partition_down less data a j n in
  j - Z.of_nat n <= j' <= j
  /\ (forall k, j' < k <= j -> sort.Less less data k a = false)
  /\ (j - Z.of_nat n < j' -> sort.Less less data j' a = true).
Proof.
  induction n as [|n IH]; intros j; cbn [sort.partition_down].
  - split; [lia|]. split; intros; lia.
  - destruct (sort.Less less data j a) eqn:Hless; cbn [negb].
    + split; [lia|]. split; [intros; lia|]. now intros _.
    + destruct (IH (j - 1)) as (Hrange & Habove & Hat).
      split; [lia|]. split.
      * intros k Hk. destruct (decide (k = j)) as [->|]; [exact Hless|]. apply Habove. lia.
      * intros Hlt. apply Hat. lia.
Qed.

Lemma sort_partition_loop_spec a b rounds : forall (data : list A) i j,
  0 <= a -> b <= Z.of_nat (length data) ->
  a + 1 <= i -> j <= b - 1 -> i <= j + 1 ->
  j + 1 - i < Z.of_nat rounds ->
  (forall k, a + 1 <= k < i -> sort.Less less data k a = true) ->
  (forall k, j < k < b -> sort.Less less data k a = false) ->
  let data' := (sort.partition_loop less rounds data a i j).1 in
  let j' := (sort.partition_loop less rounds data a i j).2 in
  moved (a + 1) b data data'
  /\ a <= j' < b
  /\ (forall k, a + 1 <= k <= j' -> sort.Less less data' k a = true)
  /\ (forall k, j' < k < b -> sort.Less less data' k a = false).
Proof.
  induction rounds as [|rounds IH]; intros data i j Ha Hb Hi Hj Hij Hrounds Hbelow Habove;
    [lia|].
  cbn [sort.partition_loop].
  pose proof (sort_partition_up_spec data a (Z.to_nat (j + 1 - i)) i) as (Hi1 & Hbelow1 & Hat1).
  set (i1 := sort.partition_up less data a i (Z.to_nat (j + 1 - i))) in *.
  pose proof (sort_partition_down_spec data a (Z.to_nat (j + 1 - i1)) j) as (Hj1 & Habove1 & Hat1').
  set (j1 := sort.partition_down less data a j (Z.to_nat (j + 1 - i1))) in *.
  destruct (Z.ltb_spec j1 i1) as [Hlt|Hge]; cbn [fst snd].
  - split; [apply moved_refl|]. split; [lia|]. split.
    + intros k Hk. destruct (Z.lt_ge_cases k i); [apply Hbelow|apply Hbelow1]; lia.
    + intros k Hk. destruct (Z.lt_ge_cases j k); [apply Habove|apply Habove1]; lia.
  - assert (Hless_i : sort.Less less data i1 a = false) by (apply Hat1; lia).
    assert (Hless_j : sort.Less less data j1 a = true) by (apply Hat1'; lia).
    assert (i1 < j1) by (destruct (decide (i1 = j1)) as [Heq|]; [rewrite Heq in *; congruence|lia]).
    assert (Hswap : forall k, k <> a ->
              sort.Less less (sort.Swap data i1 j1) k a
              = sort.Less less data (if k =? i1 then j1 else if k =? j1 then i1 else k) a).
    { intros k Hk. rewrite sort_Swap_Less by lia.
      replace (a =? i1) with false by (symmetry; apply Z.eqb_neq; lia).
      now replace (a =? j1) with false by (symmetry; apply Z.eqb_neq; lia). }
    destruct (IH (sort.Swap data i1 j1) (i1 + 1) (j1 - 1)) as (Hmoved & Hj' & Hbelow' & Habove');
      try lia.
    + now rewrite sort_Swap_length.
    + intros k Hk. rewrite Hswap by lia.
      destruct (Z.eqb_spec k i1); [exact Hless_j|].
      replace (k =? j1) with false by (symmetry; apply Z.eqb_neq; lia).
      destruct (Z.lt_ge_cases k i); [apply Hbelow|apply Hbelow1]; lia.
    + intros k Hk. rewrite Hswap by lia.
      replace (k =? i1) with false by (symmetry; apply Z.eqb_neq; lia).
      destruct (Z.eqb_spec k j1); [exact Hless_i|].
      destruct (Z.lt_ge_cases j k); [apply Habove|apply Habove1]; lia.
    + split; [|now split].
      apply (moved_trans _ _ _ (sort.Swap data i1 j1)); [apply moved_Swap; lia|exact Hmoved].
Qed.

Lemma sort_partition_spec (data : list A) a b pivot :
  0 <= a -> a <= pivot < b -> b <= Z.of_nat (length data) ->
  let data' := (sort.partition_func less data a b pivot).1.1 in
  let mid := (sort.partition_func less data a b pivot).1.2 in
  moved a b data data'
  /\ a <= mid < b
  /\ (forall k, a <= k < mid -> sort.Less less data' k mid = true)
  /\ (forall k, mid < k < b -> sort.Less less data' k mid = false).
Proof.
  intros Ha Hpivot Hb. unfold sort.partition_func.
  set (data1 := sort.Swap data a pivot).
  assert (Hmoved1 : moved a b data data1) by (apply moved_Swap; lia).
  assert (Hlen1 : length data1 = length data) by apply sort_Swap_length.
  pose proof (sort_partition_up_spec data1 a (Z.to_nat (b - 1 + 1 - (a + 1))) (a + 1))
    as (Hi1 & Hbelow1 & Hat1).
  set (i1 := sort.partition_up less data1 a (a + 1) _) in *.
  pose proof (sort_partition_down_spec data1 a (Z.to_nat (b - 1 + 1 - i1)) (b - 1))
    as (Hj1 & Habove1 & Hat1').
  set (j1 := sort.partition_down less data1 a (b - 1) _) in *.
  assert (Hfinal : forall (d : list A) j,
            length d = length data -> moved a b data d -> a <= j < b ->
            (forall k, a + 1 <= k <= j -> sort.Less less d k a = true) ->
            (forall k, j < k < b -> sort.Less less d k a = false) ->
            moved a b data (sort.Swap d j a)
            /\ a <= j < b
            /\ (forall k, a <= k < j -> sort.Less less (sort.Swap d j a) k j = true)
            /\ (forall k, j < k < b -> sort.Less less (sort.Swap d j a) k j = false)).
  { intros d j Hlen Hmoved Hj Hbelow Habove.
    split; [apply (moved_trans _ _ _ d); [exact Hmoved|apply moved_Swap; lia]|].
    split; [exact Hj|]. split.
    - intros k Hk. rewrite sort_Swap_Less by lia.
      replace (k =? j) with false by (symmetry; apply Z.eqb_neq; lia).
      rewrite Z.eqb_refl.
      destruct (Z.eqb_spec k a); [apply Hbelow; lia|apply Hbelow; lia].
    - intros k Hk. rewrite sort_Swap_Less by lia.
      replace (k =? j) with false by (symmetry; apply Z.eqb_neq; lia).
      rewrite Z.eqb_refl.
      replace (k =? a) with false by (symmetry; apply Z.eqb_neq; lia).
      apply Habove. lia. }
  destruct (Z.ltb_spec j1 i1) as [Hlt|Hge]; cbn [fst snd].
  - apply Hfinal; try assumption; try lia.
    + intros k Hk. apply Hbelow1. lia.
    + intros k Hk. apply Habove1. lia.
  - assert (Hless_i : sort.Less less data1 i1 a = false) by (apply Hat1; lia).
    assert (Hless_j : sort.Less less data1 j1 a = true) by (apply Hat1'; lia).
    assert (i1 < j1) by (destruct (decide (i1 = j1)) as [Heq|]; [rewrite Heq in *; congruence|lia]).
    assert (Hswap : forall k, k <> a ->
              sort.Less less (sort.Swap data1 i1 j1) k a
              = sort.Less less data1 (if k =? i1 then j1 else if k =? j1 then i1 else k) a).
    { intros k Hk. rewrite sort_Swap_Less by lia.
      replace (a =? i1) with false by (symmetry; apply Z.eqb_neq; lia).
      now replace (a =? j1) with false by (symmetry; apply Z.eqb_neq; lia). }
    pose proof (sort_partition_loop_spec a b (Z.to_nat (b - a)) (sort.Swap data1 i1 j1)
                  (i1 + 1) (j1 - 1)) as Hloop.
    destruct (sort.partition_loop less (Z.to_nat (b - a)) (sort.Swap data1 i1 j1) a
                (i1 + 1) (j1 - 1)) as [data2 j2].
    cbn [fst snd] in *.
    destruct Hloop as (Hmoved2 & Hj2 & Hbelow2 & Habove2); try lia.
    + rewrite sort_Swap_length. lia.
    + intros k Hk. rewrite Hswap by lia.
      destruct (Z.eqb_spec k i1); [exact Hless_j|].
      replace (k =? j1) with false by (symmetry; apply Z.eqb_neq; lia).
      apply Hbelow1. lia.
    + intros k Hk. rewrite Hswap by lia.
      replace (k =? i1) with false by (symmetry; apply Z.eqb_neq; lia).
      destruct (Z.eqb_spec k j1); [exact Hless_i|].
      apply Habove1. lia.
    + apply Hfinal; try assumption.
      * destruct Hmoved2 as [-> _]. now rewrite sort_Swap_length.
      * apply (moved_trans _ _ _ data1); [exact Hmoved1|].
        apply (moved_trans _ _ _ (sort.Swap data1 i1 j1)); [apply moved_Swap; lia|].
        eapply moved_mono; [| |exact Hmoved2]; lia.
Qed.

End sort_partition.

Section sort_partitionEqual.

Context {A : Type} (less : A -> A -> bool).

Lemma sort_partitionEqual_up_spec (data : list A) a n : forall i,
  let i' := sort.partitionEqual_up less data a i n in
  i <= i' <= i + Z.of_nat n
  /\ (forall k, i <= k < i' -> sort.Less less data a k = false)
  /\ (i' < i + Z.of_nat n -> sort.Less less data a i' = true).
Proof.
  induction n as [|n IH]; intros i; cbn [sort.partitionEqual_up].
  - split; [lia|]. split; intros; lia.
  - destruct (sort.Less less data a i) eqn:Hless; cbn [negb].
    + split; [lia|]. split; [intros; lia|]. now intros _.
    + destruct (IH (i + 1)) as (Hrange & Hbelow & Hat).
      split; [lia|]. split.
      * intros k Hk. destruct (decide (k = i)) as [->|]; [exact Hless|]. apply Hbelow. lia.
      * intros Hlt. apply Hat. lia.
Qed.

Lemma sort_partitionEqual_down_spec (data : list A) a n : forall j,
  let j' := sort.partitionEqual_down less data a j n in
  j - Z.of_nat n <= j' <= j
  /\ (forall k, j' < k <= j -> sort.Less less data a k = true)
  /\ (j - Z.of_nat n < j' -> sort.Less less data a j' = false).
Proof.
  induction n as [|n IH]; intros j; cbn [sort.partitionEqual_down].
  - split; [lia|]. split; intros; lia.
  - destruct (sort.Less less data a j) eqn:Hless.
    + destruct (IH (j - 1)) as (Hrange & Habove & Hat).
      split; [lia|]. split.
      * intros k Hk. destruct (decide (k = j)) as [->|]; [exact Hless|]. apply Habove. lia.
      * intros Hlt. apply Hat. lia.
    + split; [lia|]. split; [intros; lia|]. now intros _.
Qed.

Lemma sort_partitionEqual_loop_spec a b rounds : forall (data : list A) i j,
  0 <= a -> b <= Z.of_nat (length data) ->
  a + 1 <= i -> j <= b - 1 -> i <= j + 1 ->
  j + 1 - i < Z.of_nat rounds ->
  (forall k, a + 1 <= k < i -> sort.Less less data a k = false) ->
  (forall k, j < k < b -> sort.Less less data a k = true) ->
  let data' := (sort.partitionEqual_loop less rounds data a i j).1 in
  let mid := (sort.partitionEqual_loop less rounds data a i j).2 in
  moved (a + 1) b data data'
  /\ a + 1 <= mid <= b
  /\ (forall k, a + 1 <= k < mid -> sort.Less less data' a k = false)
  /\ (forall k, mid <= k < b -> sort.Less less data' a k = true).
Proof.
  induction rounds as [|rounds IH]; intros data i j Ha Hb Hi Hj Hij Hrounds Hbelow Habove;
    [lia|].
  cbn [sort.partitionEqual_loop].
  pose proof (sort_partitionEqual_up_spec data a (Z.to_nat (j + 1 - i)) i)
    as (Hi1 & Hbelow1 & Hat1).
  set (i1 := sort.partitionEqual_up less data a i (Z.to_nat (j + 1 - i))) in *.
  pose proof (sort_partitionEqual_down_spec data a (Z.to_nat (j + 1 - i1)) j)
    as (Hj1 & Habove1 & Hat1').
  set (j1 := sort.partitionEqual_down less data a j (Z.to_nat (j + 1 - i1))) in *.
  destruct (Z.ltb_spec j1 i1) as [Hlt|Hge]; cbn [fst snd].
  - split; [apply moved_refl|]. split; [lia|]. split.
    + intros k Hk. destruct (Z.lt_ge_cases k i); [apply Hbelow|apply Hbelow1]; lia.
    + intros k Hk. destruct (Z.lt_ge_cases j k); [apply Habove|apply Habove1]; lia.
  - assert (Hless_i : sort.Less less data a i1 = true) by (apply Hat1; lia).
    assert (Hless_j : sort.Less less data a j1 = false) by (apply Hat1'; lia).
    assert (i1 < j1) by (destruct (decide (i1 = j1)) as [Heq|]; [rewrite Heq in *; congruence|lia]).
    assert (Hswap : forall k, k <> a ->
              sort.Less less (sort.Swap data i1 j1) a k
              = sort.Less less data a (if k =? i1 then j1 else if k =? j1 then i1 else k)).
    { intros k Hk. rewrite sort_Swap_Less by lia.
      replace (a =? i1) with false by (symmetry; apply Z.eqb_neq; lia).
      now replace (a =? j1) with false by (symmetry; apply Z.eqb_neq; lia). }
    destruct (IH (sort.Swap data i1 j1) (i1 + 1) (j1 - 1)) as (Hmoved & Hj' & Hbelow' & Habove');
      try lia.
    + now rewrite sort_Swap_length.
    + intros k Hk. rewrite Hswap by lia.
      destruct (Z.eqb_spec k i1); [exact Hless_j|].
      replace (k =? j1) with false by (symmetry; apply Z.eqb_neq; lia).
      destruct (Z.lt_ge_cases k i); [apply Hbelow|apply Hbelow1]; lia.
    + intros k Hk. rewrite Hswap by lia.
      replace (k =? i1) with false by (symmetry; apply Z.eqb_neq; lia).
      destruct (Z.eqb_spec k j1); [exact Hless_i|].
      destruct (Z.lt_ge_cases j k); [apply Habove|apply Habove1]; lia.
    + split; [|now split].
      apply (moved_trans _ _ _ (sort.Swap data i1 j1)); [apply moved_Swap; lia|exact Hmoved].
Qed.

Variable ok : A -> Prop.
Hypothesis less_asym : forall x y, ok x -> ok y -> less x y = true -> less y x = false.
Hypothesis less_negtrans : forall x y z,
  ok x -> ok y -> ok z -> less x y = false -> less y z = false -> less x z = false.

(** The elements from [mid] on are greater than the pivot, and so not less
    than the element before [mid], which is not. *)
Lemma sort_partitionEqual_spec (data : list A) a b pivot :
  0 <= a -> a <= pivot < b -> b <= Z.of_nat (length data) -> all_ok ok data ->
  let data' := (sort.partitionEqual_func less data a b pivot).1 in
  let mid := (sort.partitionEqual_func less data a b pivot).2 in
  moved a b data data'
  /\ a < mid <= b
  /\ (forall k, mid <= k < b -> sort.Less less data' k (mid - 1) = false).
Proof.
  intros Ha Hpivot Hb Hok. unfold sort.partitionEqual_func.
  set (data1 := sort.Swap data a pivot).
  assert (Hmoved1 : moved a b data data1) by (apply moved_Swap; lia).
  assert (Hlen1 : length data1 = length data) by apply sort_Swap_length.
  pose proof (sort_partitionEqual_loop_spec a b (S (Z.to_nat (b - a))) data1 (a + 1) (b - 1))
    as Hloop.
  destruct (sort.partitionEqual_loop less (S (Z.to_nat (b - a))) data1 a (a + 1) (b - 1))
    as [data2 mid].
  cbn [fst snd] in *.
  destruct Hloop as (Hmoved2 & Hmid & Hbelow & Habove); try lia.
  assert (Hmoved : moved a b data data2).
  { apply (moved_trans _ _ _ data1); [exact Hmoved1|].
    eapply moved_mono; [| |exact Hmoved2]; lia. }
  split; [exact Hmoved|]. split; [lia|].
  pose proof (moved_all_ok ok _ _ _ _ Hmoved Hok) as Hok2.
  intros k Hk.
  destruct (sort.Less less data2 k (mid - 1)) eqn:Hless; [|reflexivity].
  pose proof (sort_Less_trans less ok less_asym less_negtrans data2 a k (mid - 1) Hok2
                (Habove k Hk) Hless) as Htrans.
  destruct (decide (mid - 1 = a)) as [Heq|Hne].
  - rewrite Heq in Htrans.
    rewrite (sort_Less_irrefl less ok less_asym data2 a Hok2) in Htrans. discriminate.
  - rewrite Hbelow in Htrans by lia. discriminate.
Qed.

End sort_partitionEqual.

Section sort_partialInsertionSort.

Context {A : Type} (less : A -> A -> bool).

Lemma sort_partialInsertion_scan_spec (data : list A) n : forall i,
  let i' := sort.partialInsertion_scan less data i n in
  i <= i' <= i + Z.of_nat n
  /\ (forall k, i <= k < i' -> sort.Less less data k (k - 1) = false)
  /\ (i' < i + Z.of_nat n -> sort.Less less data i' (i' - 1) = true).
Proof.
  induction n as [|n IH]; intros i; cbn [sort.partialInsertion_scan].
  - split; [lia|]. split; intros; lia.
  - destruct (sort.Less less data i (i - 1)) eqn:Hless; cbn [negb].
    + split; [lia|]. split; [intros; lia|]. now intros _.
    + destruct (IH (i + 1)) as (Hrange & Hbelow & Hat).
      split; [lia|]. split.
      * intros k Hk. destruct (decide (k = i)) as [->|]; [exact Hless|]. apply Hbelow. lia.
      * intros Hlt. apply Hat. lia.
Qed.

Lemma moved_shiftRight i b n : forall (data : list A) j,
  i < j -> j + Z.of_nat n <= b -> moved i b data (sort.shiftRight less data j n).
Proof.
  induction n as [|n IH]; intros data j Hj Hn; [apply moved_refl|].
  cbn [sort.shiftRight]. destruct (negb _); [apply moved_refl|].
  apply (moved_trans _ _ _ (sort.Swap data j (j - 1))); [apply moved_Swap; lia|].
  apply IH; lia.
Qed.

Variable ok : A -> Prop.
Hypothesis less_asym : forall x y, ok x -> ok y -> less x y = true -> less y x = false.
Hypothesis less_negtrans : forall x y z,
  ok x -> ok y -> ok z -> less x y = false -> less y z = false -> less x z = false.

(** The element at [j] goes down to its place among the elements from [a]
    on, which are not less than the element before [a]. *)
Lemma sort_shiftLeft_spec a top n : forall (data : list A),
  let j := Z.of_nat n in
  0 <= a -> a <= j <= top -> top < Z.of_nat (length data) -> all_ok ok data ->
  (0 < a -> forall k, a <= k <= top -> sort.Less less data k (a - 1) = false) ->
  ascending less data a j ->
  (forall k, j < k <= top -> sort.Less less data k (k - 1) = false) ->
  (j < top -> a < j -> sort.Less less data (j + 1) (j - 1) = false) ->
  moved a (top + 1) data (sort.shiftLeft less data n)
  /\ ascending less (sort.shiftLeft less data n) a (top + 1).
Proof.
  induction n as [|n IH]; intros data j Ha Hj Htop Hok Hpred Hlow Hhigh Hglue; subst j.
  - cbn [sort.shiftLeft]. split; [apply moved_refl|].
    intros k Hk. apply Hhigh. lia.
  - cbn [sort.shiftLeft].
    set (j := Z.of_nat (S n)) in *.
    destruct (sort.Less less data j (j - 1)) eqn:Hless; cbn [negb].
    2: { split; [apply moved_refl|]. intros k Hk.
         destruct (Z.lt_trichotomy k j) as [?|[->|?]];
           [apply Hlow; lia|exact Hless|apply Hhigh; lia]. }
    assert (Hja : a < j).
    { destruct (decide (j = a)) as [Heq|]; [|lia].
      rewrite Heq, Hpred in Hless by lia. discriminate. }
    assert (Hswap : forall k l,
              sort.Less less (sort.Swap data j (j - 1)) k l
              = sort.Less less data (if k =? j then j - 1 else if k =? j - 1 then j else k)
                                    (if l =? j then j - 1 else if l =? j - 1 then j else l)).
    { intros k l. apply sort_Swap_Less; lia. }
    assert (Hmoved : moved a (top + 1) data (sort.Swap data j (j - 1))).
    { apply moved_Swap; lia. }
    destruct (IH (sort.Swap data j (j - 1))) as [Hmoved' Hasc]; try lia.
    + rewrite sort_Swap_length. lia.
    + eapply moved_all_ok; eassumption.
    + intros Hpos k Hk. apply (moved_Less_l less _ _ _ _ _ _ Hmoved); [lia| |lia].
      intros k' Hk'. apply Hpred; lia.
    + intros k Hk. rewrite Hswap.
      replace (k =? j) with false by (symmetry; apply Z.eqb_neq; lia).
      replace (k =? j - 1) with false by (symmetry; apply Z.eqb_neq; lia).
      replace (k - 1 =? j) with false by (symmetry; apply Z.eqb_neq; lia).
      replace (k - 1 =? j - 1) with false by (symmetry; apply Z.eqb_neq; lia).
      apply Hlow. lia.
    + intros k Hk. rewrite Hswap.
      destruct (Z.eqb_spec k j) as [->|Hkj].
      * replace (j - 1 =? j) with false by (symmetry; apply Z.eqb_neq; lia).
        rewrite Z.eqb_refl.
        now apply (sort_Less_asym less ok less_asym data j (j - 1)).
      * replace (k =? j - 1) with false by (symmetry; apply Z.eqb_neq; lia).
        replace (k - 1 =? j - 1) with false by (symmetry; apply Z.eqb_neq; lia).
        destruct (Z.eqb_spec (k - 1) j) as [Heq|Hne].
        -- replace k with (j + 1) by lia. apply Hglue; lia.
        -- apply Hhigh. lia.
    + intros _ Ha'. rewrite Hswap.
      replace (Z.of_nat n) with (j - 1) by lia.
      replace (j - 1 + 1 =? j) with true by (symmetry; apply Z.eqb_eq; lia).
      replace (j - 1 - 1 =? j) with false by (symmetry; apply Z.eqb_neq; lia).
      replace (j - 1 - 1 =? j - 1) with false by (symmetry; apply Z.eqb_neq; lia).
      apply Hlow. lia.
    + split; [exact (moved_trans _ _ _ _ _ Hmoved Hmoved')|exact Hasc].
Qed.

Lemma sort_partialInsertionSort_loop_spec a b steps : forall (data : list A) i,
  0 <= a -> a + 1 <= i <= b -> b <= Z.of_nat (length data) -> all_ok ok data ->
  (0 < a -> forall k, a <= k < b -> sort.Less less data k (a - 1) = false) ->
  ascending less data a i ->
  let data' := (sort.partialInsertionSort_loop less steps data a b i).1 in
  let sorted := (sort.partialInsertionSort_loop less steps data a b i).2 in
  moved a b data data' /\ (sorted = true -> ascending less data' a b).
Proof.
  induction steps as [|steps IH]; intros data i Ha Hi Hb Hok Hpred Hasc.
  - cbn [sort.partialInsertionSort_loop fst snd]. split; [apply moved_refl|discriminate].
  - cbn [sort.partialInsertionSort_loop].
    pose proof (sort_partialInsertion_scan_spec data (Z.to_nat (b - i)) i) as (Hi1 & Hscan & Hat).
    set (i1 := sort.partialInsertion_scan less data i (Z.to_nat (b - i))) in *.
    assert (Hasc1 : ascending less data a i1).
    { intros k Hk. destruct (Z.lt_ge_cases k i); [apply Hasc|apply Hscan]; lia. }
    destruct (Z.eqb_spec i1 b) as [Heq|Hne]; cbn [fst snd].
    { split; [apply moved_refl|]. intros _. now rewrite <- Heq. }
    destruct (b - a <? 50); cbn [fst snd]; [split; [apply moved_refl|discriminate]|].
    assert (Hless : sort.Less less data i1 (i1 - 1) = true) by (apply Hat; lia).
    set (d1 := sort.Swap data i1 (i1 - 1)).
    assert (Hmoved1 : moved a b data d1) by (apply moved_Swap; lia).
    assert (Hlen1 : length d1 = length data) by apply sort_Swap_length.
    assert (Hswap : forall k l,
              sort.Less less d1 k l
              = sort.Less less data (if k =? i1 then i1 - 1 else if k =? i1 - 1 then i1 else k)
                                    (if l =? i1 then i1 - 1 else if l =? i1 - 1 then i1 else l)).
    { intros k l. apply sort_Swap_Less; lia. }
    assert (Hpred1 : 0 < a -> forall k, a <= k < b -> sort.Less less d1 k (a - 1) = false).
    { intros Hpos. apply (moved_Less_l less _ _ _ _ _ _ Hmoved1); [lia|]. now apply Hpred. }
    set (d2 := if 2 <=? i1 - a then sort.shiftLeft less d1 (Z.to_nat (i1 - 1)) else d1).
    assert (H2 : moved a b d1 d2 /\ ascending less d2 a i1).
    { subst d2. destruct (Z.leb_spec 2 (i1 - a)) as [Hge|Hlt].
      - destruct (sort_shiftLeft_spec a (i1 - 1) (Z.to_nat (i1 - 1)) d1) as [Hm Ha2];
          try lia.
        + eapply moved_all_ok; eassumption.
        + intros Hpos k Hk. apply Hpred1; lia.
        + rewrite Z2Nat.id by lia. intros k Hk. rewrite Hswap.
          replace (k =? i1) with false by (symmetry; apply Z.eqb_neq; lia).
          replace (k =? i1 - 1) with false by (symmetry; apply Z.eqb_neq; lia).
          replace (k - 1 =? i1) with false by (symmetry; apply Z.eqb_neq; lia).
          replace (k - 1 =? i1 - 1) with false by (symmetry; apply Z.eqb_neq; lia).
          apply Hasc1. lia.
        + replace (i1 - 1 + 1) with i1 in * by lia.
          split; [eapply moved_mono; [| |exact Hm]; lia|exact Ha2].
      - split; [apply moved_refl|]. intros k Hk. lia. }
    destruct H2 as [Hmoved2 Hasc2].
    set (d3 := if 2 <=? b - i1 then sort.shiftRight less d2 (i1 + 1) (Z.to_nat (b - (i1 + 1)))
               else d2).
    assert (H3 : moved i1 b d2 d3).
    { subst d3. destruct (Z.leb_spec 2 (b - i1)); [|apply moved_refl].
      apply moved_shiftRight; lia. }
    assert (Hmoved3 : moved a b data d3).
    { apply (moved_trans _ _ _ d1); [exact Hmoved1|].
      apply (moved_trans _ _ _ d2); [exact Hmoved2|].
      eapply moved_mono; [| |exact H3]; lia. }
    destruct (IH d3 i1) as [Hmoved' Hsorted']; try lia.
    + destruct Hmoved3 as [-> _]. lia.
    + eapply moved_all_ok; eassumption.
    + intros Hpos. apply (moved_Less_l less _ _ _ _ _ _ Hmoved3); [lia|]. now apply Hpred.
    + intros k Hk. rewrite (moved_Less_outside less _ _ _ _ _ _ H3) by lia.
      apply Hasc2. lia.
    + split; [exact (moved_trans _ _ _ _ _ Hmoved3 Hmoved')|exact Hsorted'].
Qed.

Lemma sort_partialInsertionSort_spec (data : list A) a b :
  0 <= a -> a < b -> b <= Z.of_nat (length data) -> all_ok ok data ->
  (0 < a -> forall k, a <= k < b -> sort.Less less data k (a - 1) = false) ->
  let data' := (sort.partialInsertionSort_func less data a b).1 in
  let sorted := (sort.partialInsertionSort_func less data a b).2 in
  moved a b data data' /\ (sorted = true -> ascending less data' a b).
Proof.
  intros Ha Hab Hb Hok Hpred. unfold sort.partialInsertionSort_func.
  apply sort_partialInsertionSort_loop_spec; try assumption; try lia.
  intros k Hk. lia.
Qed.

(** In a range in order no element is less than the first. *)
Lemma ascending_first (data : list A) a b :
  0 <= a -> b <= Z.of_nat (length data) -> all_ok ok data -> ascending less data a b ->
  forall k, a <= k < b -> sort.Less less data k a = false.
Proof.
  intros Ha Hb Hok Hasc k Hk.
  replace k with (a + Z.of_nat (Z.to_nat (k - a))) by lia.
  assert (Hn : a + Z.of_nat (Z.to_nat (k - a)) < b) by lia.
  induction (Z.to_nat (k - a)) as [|n IH].
  - rewrite Z.add_0_r. now apply (sort_Less_irrefl less ok less_asym).
  - apply (sort_Less_negtrans less ok less_negtrans data _ (a + Z.of_nat n)); try assumption.
    + lia.
    + replace (a + Z.of_nat n) with (a + Z.of_nat (S n) - 1) by lia. apply Hasc. lia.
    + apply IH. lia.
Qed.

End sort_partialInsertionSort.

Section sort_heapSort.

Context {A : Type} (less : A -> A -> bool).

Lemma moved_siftDown_loop first hi rounds : forall (data : list A) root,
  0 <= root ->
  moved (first + root) (first + hi) data (sort.siftDown_loop less rounds data root hi first).
Proof.
  induction rounds as [|rounds IH]; intros data root Hroot; [apply moved_refl|].
  cbn [sort.siftDown_loop]. destruct (Z.leb_spec hi (2 * root + 1)); [apply moved_refl|].
  set (child := if _ && _ then _ else _).
  assert (Hchild : 2 * root + 1 <= child < hi).
  { subst child. destruct (Z.ltb_spec (2 * root + 1 + 1) hi); simpl; [|lia].
    destruct (sort.Less _ _ _ _); lia. }
  destruct (negb _); [apply moved_refl|].
  apply (moved_trans _ _ _ (sort.Swap data (first + root) (first + child)));
    [apply moved_Swap; lia|].
  eapply moved_mono; [| |apply IH]; lia.
Qed.

Lemma moved_siftDown (data : list A) lo hi first :
  0 <= lo -> moved (first + lo) (first + hi) data (sort.siftDown_func less data lo hi first).
Proof. intros Hlo. unfold sort.siftDown_func. now apply moved_siftDown_loop. Qed.

Lemma moved_heapSort (data : list A) a b :
  moved a b data (sort.heapSort_func less data a b).
Proof.
  unfold sort.heapSort_func.
  apply (moved_trans _ _ _
           (fold_left (fun data i => sort.siftDown_func less data i (b - a) a)
                      (rev (seqZ 0 (Z.quot (b - a - 1) 2 + 1))) data)).
  - apply moved_fold_left. intros d i Hi%list_elem_of_In%in_rev%list_elem_of_In%elem_of_seqZ.
    eapply moved_mono; [| |apply moved_siftDown]; lia.
  - apply moved_fold_left. intros d i Hi%list_elem_of_In%in_rev%list_elem_of_In%elem_of_seqZ.
    apply (moved_trans _ _ _ (sort.Swap d a (a + i))); [apply moved_Swap; lia|].
    eapply moved_mono; [| |apply moved_siftDown]; lia.
Qed.

Variable ok : A -> Prop.
Hypothesis less_asym : forall x y, ok x -> ok y -> less x y = true -> less y x = false.
Hypothesis less_negtrans : forall x y z,
  ok x -> ok y -> ok z -> less x y = false -> less y z = false -> less x z = false.

Lemma sort_siftDown_loop_heap first lo hi rounds : forall (data : list A) root,
  0 <= first -> 0 <= lo <= root -> first + hi <= Z.of_nat (length data) -> all_ok ok data ->
  hi - root <= Z.of_nat rounds ->
  (forall k c, lo <= k -> k <> root -> c = 2 * k + 1 \/ c = 2 * k + 2 -> c < hi ->
     sort.Less less data (first + k) (first + c) = false) ->
  (forall q c, lo <= q -> root = 2 * q + 1 \/ root = 2 * q + 2 ->
     c = 2 * root + 1 \/ c = 2 * root + 2 -> c < hi ->
     sort.Less less data (first + q) (first + c) = false) ->
  heap less (sort.siftDown_loop less rounds data root hi first) first lo hi.
Proof.
  induction rounds as [|rounds IH]; intros data root Hfirst Hlo Hhi Hok Hrounds H1 H2.
  { cbn [sort.siftDown_loop]. intros k c Hk Hc Hchi.
    destruct (decide (k = root)) as [->|Hne]; [lia|]. now apply H1. }
  cbn [sort.siftDown_loop]. destruct (Z.leb_spec hi (2 * root + 1)) as [Hleaf|Hinner].
  { intros k c Hk Hc Hchi. destruct (decide (k = root)) as [->|Hne]; [lia|]. now apply H1. }
  set (child := if _ && _ then _ else _).
  assert (Hchild : (child = 2 * root + 1 \/ child = 2 * root + 2) /\ child < hi
                   /\ forall o, o = 2 * root + 1 \/ o = 2 * root + 2 -> o < hi ->
                        sort.Less less data (first + child) (first + o) = false).
  { subst child. destruct (Z.ltb_spec (2 * root + 1 + 1) hi) as [Hboth|Hone]; cbn [andb].
    - destruct (sort.Less less data (first + (2 * root + 1)) (first + (2 * root + 1) + 1))
        eqn:Hless.
      + split; [lia|]. split; [lia|]. intros o [->| ->] _.
        * replace (first + (2 * root + 1 + 1)) with (first + (2 * root + 1) + 1) by lia.
          now apply (sort_Less_asym less ok less_asym).
        * replace (first + (2 * root + 2)) with (first + (2 * root + 1 + 1)) by lia.
          now apply (sort_Less_irrefl less ok less_asym).
      + split; [lia|]. split; [lia|]. intros o [->| ->] _.
        * now apply (sort_Less_irrefl less ok less_asym).
        * replace (first + (2 * root + 2)) with (first + (2 * root + 1) + 1) by lia.
          exact Hless.
    - split; [lia|]. split; [lia|]. intros o [->| ->] Ho; [|lia].
      now apply (sort_Less_irrefl less ok less_asym). }
  clearbody child. destruct Hchild as (Hc & Hchi & Hmax).
  destruct (sort.Less less data (first + root) (first + child)) eqn:Hless; cbn [negb].
  2: { intros k c Hk Hkc Hclt. destruct (decide (k = root)) as [->|Hne]; [|now apply H1].
       apply (sort_Less_negtrans less ok less_negtrans data _ (first + child)); try assumption.
       - lia.
       - now apply Hmax. }
  assert (Hswap : forall k l,
            sort.Less less (sort.Swap data (first + root) (first + child)) (first + k) (first + l)
            = sort.Less less data
                (first + (if k =? root then child else if k =? child then root else k))
                (first + (if l =? root then child else if l =? child then root else l))).
  { intros k l. rewrite sort_Swap_Less by lia.
    f_equal.
    - destruct (Z.eqb_spec k root) as [->|]; [now rewrite Z.eqb_refl|].
      replace (first + k =? first + root) with false by (symmetry; apply Z.eqb_neq; lia).
      destruct (Z.eqb_spec k child) as [->|]; [now rewrite Z.eqb_refl|].
      now replace (first + k =? first + child) with false by (symmetry; apply Z.eqb_neq; lia).
    - destruct (Z.eqb_spec l root) as [->|]; [now rewrite Z.eqb_refl|].
      replace (first + l =? first + root) with false by (symmetry; apply Z.eqb_neq; lia).
      destruct (Z.eqb_spec l child) as [->|]; [now rewrite Z.eqb_refl|].
      now replace (first + l =? first + child) with false by (symmetry; apply Z.eqb_neq; lia). }
  apply IH; try assumption; try lia.
  - rewrite sort_Swap_length. lia.
  - eapply moved_all_ok; [|exact Hok]. apply (moved_Swap first (first + hi)); lia.
  - intros k c Hk Hne Hkc Hclt. rewrite Hswap.
    destruct (Z.eqb_spec k root) as [->|Hkroot].
    + destruct (Z.eqb_spec c root); [lia|].
      destruct (Z.eqb_spec c child) as [->|Hcc].
      * now apply (sort_Less_asym less ok less_asym).
      * now apply Hmax.
    + replace (k =? child) with false by (symmetry; apply Z.eqb_neq; lia).
      destruct (Z.eqb_spec c root) as [->|Hcroot].
      * now apply (H2 k child).
      * replace (c =? child) with false by (symmetry; apply Z.eqb_neq; lia).
        now apply H1.
  - intros q c Hq Hqc Hcc Hclt. rewrite Hswap.
    assert (q = root) as -> by lia.
    rewrite Z.eqb_refl.
    replace (c =? root) with false by (symmetry; apply Z.eqb_neq; lia).
    replace (c =? child) with false by (symmetry; apply Z.eqb_neq; lia).
    apply H1; try assumption; lia.
Qed.

Lemma sort_siftDown_heap (data : list A) lo hi first :
  0 <= first -> 0 <= lo -> first + hi <= Z.of_nat (length data) -> all_ok ok data ->
  heap less data first (lo + 1) hi ->
  heap less (sort.siftDown_func less data lo hi first) first lo hi.
Proof.
  intros Hfirst Hlo Hhi Hok Hheap. unfold sort.siftDown_func.
  apply sort_siftDown_loop_heap; try assumption; try lia.
  intros k c Hk Hne Hkc Hclt. apply Hheap; try assumption. lia.
Qed.

(** The root of a heap is not less than any of its elements. *)
Lemma heap_root (data : list A) first hi :
  0 <= first -> first + hi <= Z.of_nat (length data) -> all_ok ok data ->
  heap less data first 0 hi ->
  forall m, 0 <= m < hi -> sort.Less less data first (first + m) = false.
Proof.
  intros Hfirst Hhi Hok Hheap m Hm.
  assert (Hall : forall n m : nat, (m <= n)%nat -> Z.of_nat m < hi ->
            sort.Less less data first (first + Z.of_nat m) = false).
  { clear m Hm. induction n as [|n IH]; intros m Hmn Hm'.
    - replace m with 0%nat by lia. rewrite Z.add_0_r.
      now apply (sort_Less_irrefl less ok less_asym).
    - destruct m as [|m]; [apply IH; lia|].
      apply (sort_Less_negtrans less ok less_negtrans data _
               (first + Z.of_nat (m / 2))); try assumption.
      + pose proof (Nat.div_mod_eq m 2). pose proof (Nat.mod_upper_bound m 2). lia.
      + apply IH; [|pose proof (Nat.div_mod_eq m 2); pose proof (Nat.mod_upper_bound m 2); lia].
        pose proof (Nat.div_mod_eq m 2). lia.
      + apply Hheap; [lia| |lia].
        pose proof (Nat.div_mod_eq m 2). pose proof (Nat.mod_upper_bound m 2 ltac:(lia)).
        lia. }
  replace m with (Z.of_nat (Z.to_nat m)) by lia. apply (Hall (Z.to_nat m)); lia.
Qed.

Lemma rev_seqZ_S (n : nat) :
  rev (seqZ 0 (Z.of_nat (S n))) = Z.of_nat n :: rev (seqZ 0 (Z.of_nat n)).
Proof. rewrite seqZ_S, rev_app_distr. reflexivity. Qed.

(** The first loop of [heapSort_func] makes the range a heap. *)
Lemma sort_heapSort_build first hi (n : nat) : forall (data : list A),
  0 <= first -> first + hi <= Z.of_nat (length data) -> all_ok ok data ->
  heap less data first (Z.of_nat n) hi ->
  let data' := fold_left (fun data i => sort.siftDown_func less data i hi first)
                         (rev (seqZ 0 (Z.of_nat n))) data in
  moved first (first + hi) data data' /\ heap less data' first 0 hi.
Proof.
  induction n as [|n IH]; intros data Hfirst Hhi Hok Hheap.
  - cbn. split; [apply moved_refl|exact Hheap].
  - rewrite rev_seqZ_S. cbn [fold_left].
    assert (Hmoved : moved first (first + hi) data
                       (sort.siftDown_func less data (Z.of_nat n) hi first)).
    { eapply moved_mono; [| |apply moved_siftDown]; lia. }
    destruct (IH (sort.siftDown_func less data (Z.of_nat n) hi first)) as [Hmoved' Hheap'];
      try assumption.
    + destruct Hmoved as [-> _]. exact Hhi.
    + eapply moved_all_ok; eassumption.
    + apply sort_siftDown_heap; try assumption; try lia.
      now replace (Z.of_nat n + 1) with (Z.of_nat (S n)) by lia.
    + split; [exact (moved_trans _ _ _ _ _ Hmoved Hmoved')|exact Hheap'].
Qed.

(** The second loop takes the root away, again and again; what is left in
    front at the end is an element that none is less than. *)
Lemma sort_heapSort_pop first hi (n : nat) : forall (data : list A),
  0 <= first -> first + hi <= Z.of_nat (length data) -> all_ok ok data ->
  (1 <= n)%nat -> Z.of_nat n <= hi ->
  heap less data first 0 (Z.of_nat n) ->
  (forall m k, 0 <= m < Z.of_nat n -> Z.of_nat n <= k < hi ->
     sort.Less less data (first + k) (first + m) = false) ->
  let data' := fold_left (fun data i =>
                            sort.siftDown_func less (sort.Swap data first (first + i)) 0 i first)
                         (rev (seqZ 0 (Z.of_nat n))) data in
  forall k, 0 <= k < hi -> sort.Less less data' (first + k) first = false.
Proof.
  induction n as [|n IH]; intros data Hfirst Hhi Hok Hn Hnhi Hheap Htail; [lia|].
  rewrite rev_seqZ_S. cbn [fold_left].
  set (i := Z.of_nat n) in *.
  set (d1 := sort.Swap data first (first + i)).
  set (d2 := sort.siftDown_func less d1 0 i first).
  assert (Hmoved1 : moved first (first + i + 1) data d1) by (apply moved_Swap; lia).
  assert (Hlen1 : length d1 = length data) by apply sort_Swap_length.
  assert (Hok1 : all_ok ok d1) by (eapply moved_all_ok; eassumption).
  assert (Hmoved2 : moved first (first + i) d1 d2).
  { pose proof (moved_siftDown d1 0 i first ltac:(lia)) as H.
    now rewrite Z.add_0_r in H. }
  assert (Hlen2 : length d2 = length data) by (destruct Hmoved2 as [-> _]; exact Hlen1).
  assert (Hok2 : all_ok ok d2) by (eapply moved_all_ok; eassumption).
  assert (Hswap : forall k l,
            sort.Less less d1 (first + k) (first + l)
            = sort.Less less data
                (first + (if k =? 0 then i else if k =? i then 0 else k))
                (first + (if l =? 0 then i else if l =? i then 0 else l))).
  { intros k l. subst d1. rewrite sort_Swap_Less by lia.
    f_equal.
    - destruct (Z.eqb_spec k 0) as [->|].
      { rewrite Z.add_0_r, Z.eqb_refl. reflexivity. }
      replace (first + k =? first) with false by (symmetry; apply Z.eqb_neq; lia).
      destruct (Z.eqb_spec k i) as [->|]; [now rewrite Z.eqb_refl, Z.add_0_r|].
      now replace (first + k =? first + i) with false by (symmetry; apply Z.eqb_neq; lia).
    - destruct (Z.eqb_spec l 0) as [->|].
      { rewrite Z.add_0_r, Z.eqb_refl. reflexivity. }
      replace (first + l =? first) with false by (symmetry; apply Z.eqb_neq; lia).
      destruct (Z.eqb_spec l i) as [->|]; [now rewrite Z.eqb_refl, Z.add_0_r|].
      now replace (first + l =? first + i) with false by (symmetry; apply Z.eqb_neq; lia). }
  assert (Hroot : forall m, 0 <= m < Z.of_nat (S n) ->
            sort.Less less data first (first + m) = false).
  { apply heap_root; try assumption. lia. }
  (* the elements from [i] on are not less than those before, in [d1] *)
  assert (Htail1 : forall m k, 0 <= m < i -> i <= k < hi ->
            sort.Less less d1 (first + k) (first + m) = false).
  { intros m k Hm Hk. rewrite Hswap.
    replace (k =? 0) with false by (symmetry; apply Z.eqb_neq; lia).
    destruct (Z.eqb_spec k i) as [->|Hki].
    - rewrite Z.add_0_r.
      destruct (Z.eqb_spec m 0); [apply Hroot; lia|].
      replace (m =? i) with false by (symmetry; apply Z.eqb_neq; lia).
      apply Hroot. lia.
    - destruct (Z.eqb_spec m 0); [apply Htail; lia|].
      replace (m =? i) with false by (symmetry; apply Z.eqb_neq; lia).
      apply Htail; lia. }
  assert (Htail2 : forall m k, 0 <= m < i -> i <= k < hi ->
            sort.Less less d2 (first + k) (first + m) = false).
  { intros m k Hm Hk.
    apply (moved_Less_r less first (first + i) d1 d2 (first + k) false Hmoved2); [lia| |lia].
    intros j Hj. replace j with (first + (j - first)) by lia. apply Htail1; lia. }
  destruct n as [|n].
  - (* the last round *)
    cbn [rev seqZ fold_left]. change (rev (seqZ 0 (Z.of_nat 0))) with (@nil Z).
    cbn [fold_left]. subst i. intros k Hk.
    fold d1 d2.
    destruct (decide (k = 0)) as [->|Hne].
    + rewrite Z.add_0_r. now apply (sort_Less_irrefl less ok less_asym).
    + assert (Hsame : forall j, sort.index d2 j = sort.index data j).
      { intros j. rewrite (moved_outside _ _ _ _ j Hmoved2) by lia.
        subst d1. destruct (decide (j = first)) as [->|Hj].
        - destruct (moved_inside _ _ _ _ first Hmoved1 ltac:(lia)) as (j' & Hj' & ->).
          f_equal. lia.
        - apply (moved_outside _ _ _ _ j Hmoved1). lia. }
      unfold sort.Less. rewrite !Hsame.
      specialize (Htail 0 k ltac:(lia) ltac:(lia)). rewrite Z.add_0_r in Htail. exact Htail.
  - apply (IH d2); try assumption; try lia.
    + apply sort_siftDown_heap; try assumption; try lia.
      intros k c Hk Hkc Hclt. rewrite Hswap.
      replace (k =? 0) with false by (symmetry; apply Z.eqb_neq; lia).
      replace (k =? i) with false by (symmetry; apply Z.eqb_neq; lia).
      replace (c =? 0) with false by (symmetry; apply Z.eqb_neq; lia).
      replace (c =? i) with false by (symmetry; apply Z.eqb_neq; lia).
      apply Hheap; try assumption; lia.
Qed.

Lemma sort_heapSort_first (data : list A) a b :
  0 <= a -> a < b -> b <= Z.of_nat (length data) -> all_ok ok data ->
  forall k, a <= k < b -> sort.Less less (sort.heapSort_func less data a b) k a = false.
Proof.
  intros Ha Hab Hb Hok k Hk. unfold sort.heapSort_func.
  set (hi := b - a).
  assert (Hq : 0 <= Z.quot (hi - 1) 2 /\ hi - 2 <= 2 * Z.quot (hi - 1) 2).
  { rewrite Z.quot_div_nonneg by lia.
    pose proof (Z.div_mod (hi - 1) 2 ltac:(lia)). pose proof (Z.mod_pos_bound (hi - 1) 2 ltac:(lia)).
    split; [apply Z.div_pos; lia|lia]. }
  pose proof (sort_heapSort_build a hi (Z.to_nat (Z.quot (hi - 1) 2 + 1)) data) as Hbuild.
  rewrite Z2Nat.id in Hbuild by lia.
  destruct Hbuild as [Hmoved Hheap]; try assumption; try lia.
  { intros j c Hj Hjc Hclt. lia. }
  set (d1 := fold_left _ (rev (seqZ 0 (Z.quot (hi - 1) 2 + 1))) data) in *.
  pose proof (sort_heapSort_pop a hi (Z.to_nat hi) d1) as Hpop.
  rewrite Z2Nat.id in Hpop by lia.
  replace k with (a + (k - a)) by lia.
  apply Hpop; try assumption; try lia.
  - destruct Hmoved as [-> _]. lia.
  - eapply moved_all_ok; eassumption.
Qed.

End sort_heapSort.

Section sort_insertionSort.

Context {A : Type} (less : A -> A -> bool).
Variable ok : A -> Prop.
Hypothesis less_asym : forall x y, ok x -> ok y -> less x y = true -> less y x = false.
Hypothesis less_negtrans : forall x y z,
  ok x -> ok y -> ok z -> less x y = false -> less y z = false -> less x z = false.

(** The inner loop of [insertionSort_func] carries the element at [top]
    down to its place among the ascending ones before it. *)
Lemma sort_insertionShift_spec a top n : forall (data : list A),
  0 <= a -> a + Z.of_nat n <= top -> top < Z.of_nat (length data) -> all_ok ok data ->
  ascending less data a (a + Z.of_nat n) ->
  (forall k, a + Z.of_nat n < k <= top -> sort.Less less data k (k - 1) = false) ->
  (a + Z.of_nat n < top -> 0 < Z.of_nat n ->
     sort.Less less data (a + Z.of_nat n + 1) (a + Z.of_nat n - 1) = false) ->
  ascending less (sort.insertionShift less data a n) a (top + 1).
Proof.
  induction n as [|n IH]; intros data Ha Hj Htop Hok Hlow Hhigh Hglue.
  - cbn [sort.insertionShift]. intros k Hk. apply Hhigh. lia.
  - cbn [sort.insertionShift].
    set (j := a + Z.of_nat (S n)) in *.
    destruct (sort.Less less data j (j - 1)) eqn:Hless.
    2: { intros k Hk.
         destruct (Z.lt_trichotomy k j) as [?|[->|?]];
           [apply Hlow; lia|exact Hless|apply Hhigh; lia]. }
    assert (Hswap : forall k l,
              sort.Less less (sort.Swap data j (j - 1)) k l
              = sort.Less less data (if k =? j then j - 1 else if k =? j - 1 then j else k)
                                    (if l =? j then j - 1 else if l =? j - 1 then j else l)).
    { intros k l. apply sort_Swap_Less; lia. }
    assert (Hmoved : moved a (top + 1) data (sort.Swap data j (j - 1))).
    { apply moved_Swap; lia. }
    replace (a + Z.of_nat n) with (j - 1) in IH by lia.
    apply IH; try lia.
    + rewrite sort_Swap_length. lia.
    + eapply moved_all_ok; eassumption.
    + intros k Hk. rewrite Hswap.
      replace (k =? j) with false by (symmetry; apply Z.eqb_neq; lia).
      replace (k =? j - 1) with false by (symmetry; apply Z.eqb_neq; lia).
      replace (k - 1 =? j) with false by (symmetry; apply Z.eqb_neq; lia).
      replace (k - 1 =? j - 1) with false by (symmetry; apply Z.eqb_neq; lia).
      apply Hlow. lia.
    + intros k Hk. rewrite Hswap.
      destruct (Z.eqb_spec k j) as [->|Hkj].
      * replace (j - 1 =? j) with false by (symmetry; apply Z.eqb_neq; lia).
        rewrite Z.eqb_refl.
        now apply (sort_Less_asym less ok less_asym data j (j - 1)).
      * replace (k =? j - 1) with false by (symmetry; apply Z.eqb_neq; lia).
        replace (k - 1 =? j - 1) with false by (symmetry; apply Z.eqb_neq; lia).
        destruct (Z.eqb_spec (k - 1) j) as [Heq|Hne].
        -- replace k with (j + 1) by lia. apply Hglue; lia.
        -- apply Hhigh. lia.
    + intros _ Hn. rewrite Hswap.
      replace (j - 1 + 1 =? j) with true by (symmetry; apply Z.eqb_eq; lia).
      replace (j - 1 - 1 =? j) with false by (symmetry; apply Z.eqb_neq; lia).
      replace (j - 1 - 1 =? j - 1) with false by (symmetry; apply Z.eqb_neq; lia).
      apply Hlow. lia.
Qed.

Lemma sort_insertionSort_loop_ascending a (m : nat) : forall (data : list A) i,
  0 <= a -> a < i -> i + Z.of_nat m <= Z.of_nat (length data) -> all_ok ok data ->
  ascending less data a i ->
  ascending less
    (fold_left (fun data i => sort.insertionShift less data a (Z.to_nat (i - a)))
               (seqZ i (Z.of_nat m)) data)
    a (i + Z.of_nat m).
Proof.
  induction m as [|m IH]; intros data i Ha Hi Hlen Hok Hasc.
  - cbn. now rewrite Z.add_0_r.
  - rewrite seqZ_cons by lia. cbn [fold_left].
    replace (Z.pred (Z.of_nat (S m))) with (Z.of_nat m) by lia.
    replace (i + Z.of_nat (S m)) with (Z.succ i + Z.of_nat m) by lia.
    pose proof (moved_insertionShift less (Z.to_nat (i - a)) data a) as Hmoved.
    apply IH; try lia.
    + destruct Hmoved as [-> _]. lia.
    + eapply moved_all_ok; eassumption.
    + replace (Z.succ i) with (i + 1) by lia.
      apply sort_insertionShift_spec; try assumption; try lia.
      now replace (a + Z.of_nat (Z.to_nat (i - a))) with i by lia.
Qed.

(** After [insertionSort_func] no element of the range is less than the
    first. *)
Lemma sort_insertionSort_first (data : list A) a b :
  0 <= a -> b <= Z.of_nat (length data) -> all_ok ok data ->
  forall k, a <= k < b ->
    sort.Less less (sort.insertionSort_func less data a b) k a = false.
Proof.
  intros Ha Hb Hok k Hk.
  pose proof (moved_insertionSort less data a b) as Hmoved.
  apply (ascending_first less ok less_asym less_negtrans _ a b); try assumption.
  - destruct Hmoved as [-> _]. exact Hb.
  - eapply moved_all_ok; eassumption.
  - unfold sort.insertionSort_func.
    pose proof (sort_insertionSort_loop_ascending a (Z.to_nat (b - a - 1)) data (a + 1)) as H.
    rewrite Z2Nat.id in H by lia.
    replace (a + 1 + (b - a - 1)) with b in H by lia.
    apply H; try assumption; try lia.
    intros j Hj. lia.
Qed.

End sort_insertionSort.

Section sort_pdqsort.

Context {A : Type} (less : A -> A -> bool).
Variable ok : A -> Prop.
Hypothesis less_asym : forall x y, ok x -> ok y -> less x y = true -> less y x = false.
Hypothesis less_negtrans : forall x y z,
  ok x -> ok y -> ok z -> less x y = false -> less y z = false -> less x z = false.

(** A range that is partitioned at [mid], and whose part before [mid] has
    its least element in front, has its least element in front. *)
Lemma sort_partitioned_first (data : list A) mid b :
  0 <= mid < b -> b <= Z.of_nat (length data) -> all_ok ok data ->
  (forall k, 0 <= k < mid -> sort.Less less data k mid = true) ->
  (forall k, mid < k < b -> sort.Less less data k mid = false) ->
  (forall i, 0 <= i < mid -> sort.Less less data i 0 = false) ->
  forall i, 0 <= i < b -> sort.Less less data i 0 = false.
Proof.
  intros Hmid Hb Hok Hleft Hright Hfirst i Hi.
  destruct (Z.lt_trichotomy i mid) as [Hlt|[->|Hgt]].
  - apply Hfirst; lia.
  - destruct (decide (mid = 0)) as [->|Hne];
      [now apply (sort_Less_irrefl less ok less_asym)|].
    apply (sort_Less_asym less ok less_asym); [assumption|]. apply Hleft; lia.
  - destruct (decide (mid = 0)) as [->|Hne]; [apply Hright; lia|].
    apply (sort_Less_above less ok less_asym less_negtrans data 0 mid i); [assumption| |].
    + apply Hleft; lia.
    + apply Hright; lia.
Qed.

(** [pdqsort_func] on a range whose elements are not less than the one
    before the range (the condition under which the library calls it) only
    rearranges the range; and from index 0 it leaves in front an element that
    no element of the range is less than. *)
Lemma sort_pdqsort_loop_first depth :
  forall (data : list A) a b limit wasBalanced wasPartitioned,
  0 <= a -> a <= b -> b <= Z.of_nat (length data) -> b - a <= Z.of_nat depth ->
  all_ok ok data ->
  (0 < a -> forall i, a <= i < b -> sort.Less less data i (a - 1) = false) ->
  moved a b data (sort.pdqsort_loop less depth data a b limit wasBalanced wasPartitioned)
  /\ (a = 0 -> forall i, 0 <= i < b ->
        sort.Less less (sort.pdqsort_loop less depth data a b limit wasBalanced wasPartitioned)
          i 0 = false).
Proof.
  induction depth as [|depth IH];
    intros data a b limit wasBalanced wasPartitioned Ha Hab Hb Hdepth Hok Hpred.
  { cbn [sort.pdqsort_loop]. split; [apply moved_insertionSort|].
    intros -> i Hi. lia. }
  cbn [sort.pdqsort_loop].
  destruct (Z.leb_spec (b - a) 12) as [Hsmall|Hlarge].
  { split; [apply moved_insertionSort|]. intros -> i Hi.
    apply (sort_insertionSort_first less ok less_asym less_negtrans); try assumption; lia. }
  destruct (limit =? 0).
  { split; [apply moved_heapSort|]. intros -> i Hi.
    apply (sort_heapSort_first less ok less_asym less_negtrans); try assumption; lia. }
  set (broken := if negb wasBalanced then _ else _).
  assert (Hbroken : moved a b data broken.1).
  { subst broken. destruct (negb wasBalanced); simpl;
      [apply moved_breakPatterns|apply moved_refl]. }
  destruct broken as [data1 limit1]; simpl in Hbroken.
  pose proof (sort_choosePivot_range less data1 a b Hlarge) as Hpivot.
  destruct (sort.choosePivot_func less data1 a b) as [pivot hint]. simpl in Hpivot.
  set (reversed := match hint with sort.decreasingHint => _ | _ => _ end).
  assert (Hreversed : moved a b data reversed.1.1 /\ a <= reversed.1.2 < b).
  { subst reversed. destruct hint; simpl; (split; [|lia]); try exact Hbroken.
    eapply moved_trans; [exact Hbroken|apply moved_reverseRange]. }
  destruct reversed as [[data2 pivot2] hint2]; simpl in Hreversed.
  destruct Hreversed as [Hreversed Hpivot2].
  set (partial := match wasBalanced && wasPartitioned, hint2 with
                  | true, sort.increasingHint => _ | _, _ => _ end).
  assert (Hpartial : moved a b data partial.1
                     /\ (partial.2 = true -> ascending less partial.1 a b)).
  { assert (Hok2 : all_ok ok data2) by (eapply moved_all_ok; eassumption).
    assert (Hlen2 : length data2 = length data) by apply Hreversed.
    subst partial. destruct (wasBalanced && wasPartitioned), hint2; simpl;
      try (split; [exact Hreversed|discriminate]).
    destruct (sort_partialInsertionSort_spec less ok less_asym data2 a b) as [Hm Hs];
      try assumption; try lia.
    - intros Hpos. apply (moved_Less_l less a b data data2 (a - 1) false Hreversed); [lia|].
      now apply Hpred.
    - split; [eapply moved_trans; eassumption|exact Hs]. }
  destruct partial as [data3 sorted]; simpl in Hpartial. destruct Hpartial as [Hm3 Hsorted].
  assert (Hlen3 : length data3 = length data) by apply Hm3.
  assert (Hok3 : all_ok ok data3) by (eapply moved_all_ok; eassumption).
  destruct sorted.
  { split; [exact Hm3|]. intros -> i Hi.
    apply (ascending_first less ok less_asym less_negtrans data3 0 b); try assumption; try lia.
    now apply Hsorted. }
  destruct ((0 <? a) && negb (sort.Less less data3 (a - 1) pivot2)) eqn:Hequal.
  - apply andb_true_iff in Hequal as [Hpos%Z.ltb_lt _].
    pose proof (sort_partitionEqual_spec less ok less_asym less_negtrans data3 a b pivot2
                  Ha Hpivot2 ltac:(lia) Hok3) as Hpe.
    destruct (sort.partitionEqual_func less data3 a b pivot2) as [data4 mid].
    cbv zeta in Hpe; simpl in Hpe. destruct Hpe as (Hm4 & Hmid & Hright).
    destruct (IH data4 mid b limit1 wasBalanced wasPartitioned) as [Hm5 _]; try lia.
    + destruct Hm4 as [-> _]. lia.
    + eapply moved_all_ok; eassumption.
    + intros _. exact Hright.
    + split; [|intros ->; lia].
      eapply moved_trans; [exact Hm3|]. eapply moved_trans; [exact Hm4|].
      eapply moved_mono; [| |exact Hm5]; lia.
  - clear Hequal.
    pose proof (sort_partition_spec less data3 a b pivot2 Ha Hpivot2 ltac:(lia)) as Hpart.
    destruct (sort.partition_func less data3 a b pivot2) as [[data4 mid] already].
    cbv zeta in Hpart; simpl in Hpart. destruct Hpart as (Hm4 & Hmid & Hleft & Hright).
    assert (Hlen4 : length data4 = length data) by (destruct Hm4 as [-> _]; exact Hlen3).
    assert (Hok4 : all_ok ok data4) by (eapply moved_all_ok; eassumption).
    assert (Hm04 : moved a b data data4) by (eapply moved_trans; eassumption).
    assert (Hpred4 : 0 < a -> forall i, a <= i < b -> sort.Less less data4 i (a - 1) = false).
    { intros Hpos. apply (moved_Less_l less a b data data4 (a - 1) false Hm04); [lia|].
      now apply Hpred. }
    destruct (mid - a <? b - mid).
    + (* the part before [mid] first *)
      destruct (IH data4 a mid limit1 true true) as [HmL HfirstL]; try assumption; try lia.
      { intros Hpos i Hi. apply Hpred4; lia. }
      set (dL := sort.pdqsort_loop less depth data4 a mid limit1 true true) in *.
      assert (HlenL : length dL = length data) by (destruct HmL as [-> _]; exact Hlen4).
      assert (HokL : all_ok ok dL) by (eapply moved_all_ok; eassumption).
      assert (HrightL : forall i, mid + 1 <= i < b -> sort.Less less dL i mid = false).
      { intros i Hi. rewrite (moved_Less_outside less a mid data4 dL i mid HmL) by lia.
        apply Hright; lia. }
      destruct (IH dL (mid + 1) b limit1 (Z.quot (b - a) 8 <=? mid - a) already) as [HmR _];
        try assumption; try lia.
      { intros _. replace (mid + 1 - 1) with mid by lia. exact HrightL. }
      set (dR := sort.pdqsort_loop less depth dL (mid + 1) b limit1 _ already) in *.
      split.
      * eapply moved_trans; [exact Hm04|].
        eapply moved_trans; [eapply moved_mono; [| |exact HmL]; lia|].
        eapply moved_mono; [| |exact HmR]; lia.
      * intros -> i Hi.
        apply (sort_partitioned_first dR mid b); try assumption; try lia.
        -- destruct HmR as [-> _]. lia.
        -- eapply moved_all_ok; eassumption.
        -- intros k Hk. rewrite (moved_Less_outside less _ _ dL dR k mid HmR) by lia.
           apply (moved_Less_l less 0 mid data4 dL mid true HmL); [lia| |lia].
           intros j Hj. apply Hleft; lia.
        -- intros k Hk.
           apply (moved_Less_l less (mid + 1) b dL dR mid false HmR); [lia| |lia].
           exact HrightL.
        -- intros k Hk. rewrite (moved_Less_outside less _ _ dL dR k 0 HmR) by lia.
           apply HfirstL; [reflexivity|lia].
    + (* the part after [mid] first *)
      destruct (IH data4 (mid + 1) b limit1 true true) as [HmR _]; try assumption; try lia.
      { intros _ i Hi. replace (mid + 1 - 1) with mid by lia. apply Hright; lia. }
      set (dR := sort.pdqsort_loop less depth data4 (mid + 1) b limit1 true true) in *.
      assert (HlenR : length dR = length data) by (destruct HmR as [-> _]; exact Hlen4).
      assert (HokR : all_ok ok dR) by (eapply moved_all_ok; eassumption).
      destruct (IH dR a mid limit1 (Z.quot (b - a) 8 <=? b - mid) already) as [HmL HfirstL];
        try assumption; try lia.
      { intros Hpos i Hi.
        rewrite (moved_Less_outside less _ _ data4 dR i (a - 1) HmR) by lia.
        apply Hpred4; lia. }
      set (dL := sort.pdqsort_loop less depth dR a mid limit1 _ already) in *.
      split.
      * eapply moved_trans; [exact Hm04|].
        eapply moved_trans; [eapply moved_mono; [| |exact HmR]; lia|].
        eapply moved_mono; [| |exact HmL]; lia.
      * intros -> i Hi.
        apply (sort_partitioned_first dL mid b); try assumption; try lia.
        -- destruct HmL as [-> _]. lia.
        -- eapply moved_all_ok; eassumption.
        -- apply (moved_Less_l less 0 mid dR dL mid true HmL); [lia|].
           intros j Hj. rewrite (moved_Less_outside less _ _ data4 dR j mid HmR) by lia.
           apply Hleft; lia.
        -- intros k Hk. rewrite (moved_Less_outside less _ _ dR dL k mid HmL) by lia.
           apply (moved_Less_l less (mid + 1) b data4 dR mid false HmR); [lia| |lia].
           intros j Hj. apply Hright; lia.
        -- intros k Hk. apply HfirstL; [reflexivity|lia].
Qed.

(** [sort.Slice] leaves in front an element that no element is less than,
    when [less] is a strict weak order on the elements of the slice. *)
Lemma sort_Slice_first (x : list A) :
  Forall ok x ->
  forall i, sort.Less less (sort.Slice less x) i 0 = false.
Proof.
  intros Hall i.
  assert (Hok : all_ok ok x).
  { intros k y Hy. rewrite Forall_forall in Hall. apply Hall.
    unfold sort.index in Hy. destruct (k <? 0); [discriminate|].
    now apply list_elem_of_lookup_2 in Hy. }
  destruct (sort_pdqsort_loop_first (Z.to_nat (Z.of_nat (length x) - 0)) x 0
              (Z.of_nat (length x)) (sort.bits_Len (Z.of_nat (length x))) true true)
    as [Hmoved Hfirst]; try assumption; try lia.
  fold (sort.pdqsort_func less x 0 (Z.of_nat (length x)) (sort.bits_Len (Z.of_nat (length x))))
    in Hmoved, Hfirst.
  change (sort.pdqsort_func less x 0 _ _) with (sort.Slice less x) in Hmoved, Hfirst.
  destruct (decide (0 <= i < Z.of_nat (length x))) as [Hi|Hi]; [now apply Hfirst|].
  unfold sort.Less. rewrite (sort_index_None (sort.Slice less x) i); [reflexivity|].
  destruct Hmoved as [-> _]. exact Hi.
Qed.

End sort_pdqsort.

(** X23. However many candidates there are, when no score is NaN,
    [FindOptimalSlot] returns a candidate with the highest score: the slot
    returned is one of the scored candidates, and no candidate has a higher
    score. *)
Theorem FindOptimalSlot_highest_score (mapRange : MapRange)
    (req : ScheduleRequest.t) (events : Events) (slot : TimeSlot.t) :
  let scored := scoreSlots mapRange (findAvailableSlots mapRange req events) events in
  Forall (fun s => is_nan (TimeSlot.Score s) = false) scored ->
  (FindOptimalSlot mapRange req events).1 = Some slot ->
  slot ∈ scored
  /\ (forall s, s ∈ scored -> (TimeSlot.Score slot <? TimeSlot.Score s)%float = false).
Proof.
  intros scored Hok Hslot.
  rewrite FindOptimalSlot_unfold in Hslot.
  destruct (findAvailableSlots mapRange req events) as [|c l] eqn:Hslots; [discriminate|].
  cbn [fst] in Hslot. fold scored in Hslot.
  pose proof (sort_Slice_perm higherScore scored) as Hperm.
  pose proof (sort_Slice_first higherScore (fun s => is_nan (TimeSlot.Score s) = false)
                higherScore_asym higherScore_negtrans scored Hok) as Hfirst.
  destruct (sort.Slice higherScore scored) as [|h t]; [discriminate|].
  injection Hslot as ->.
  split; [rewrite <- Hperm; left|].
  intros s Hs. rewrite <- Hperm in Hs. apply list_elem_of_lookup in Hs as [k Hk].
  specialize (Hfirst (Z.of_nat k)). unfold sort.Less, sort.index in Hfirst.
  replace (Z.of_nat k <? 0) with false in Hfirst by (symmetry; apply Z.ltb_ge; lia).
  rewrite Nat2Z.id, Hk in Hfirst. exact Hfirst.
Qed.

(** ** The theorems at the repository of the tests *)

Lemma Schedule_response_is_free_and_inside_witness :
  let m := two_users {[ "user1" := [busy (on_2024_09_01 9 0) (on_2024_09_01 10 0) "user1"] ]} in
  let calls := (run (Schedule_at_08_00 request_for_two) m).2 in
  let resp :=
    {| ScheduleResponse.MeetingID := "meeting";
       ScheduleResponse.Title := "New Meeting";
       ScheduleResponse.ParticipantIDs := ["user1"; "user2"];
       ScheduleResponse.StartTime := on_2024_09_01 10 15;
       ScheduleResponse.EndTime := on_2024_09_01 11 15 |} in
  let window := ScheduleRequest.TimeRange request_for_two in
  let start := ScheduleResponse.StartTime resp in
  let end_ := ScheduleResponse.EndTime resp in
  (forall b, b ∈ eventsSeen calls -> isFree start end_ b)
  /\ (exists k : nat, start = Add (TimeRange.Start window) (Z.of_nat k * (15 * Minute)))
  /\ end_ = Add start (ScheduleRequest.DurationMinutes request_for_two * Minute)
  /\ instant end_ < instant (TimeRange.End window)
  /\ instant now_08_00 <= instant start
  /\ instant end_ < instant (addDays now_08_00 1 0 0).
Proof.
  intros m calls resp.
  assert (Hresult : (run (Schedule_at_08_00 request_for_two) m).1.1 = (Some resp, None))
    by (vm_compute; reflexivity).
  apply (Schedule_response_is_free_and_inside mapRange_listing addDays "meeting" eventFor
           now_08_00 request_for_two calls resp None mapRange_listing_ok).
  subst calls. rewrite <- Hresult. apply run_exec.
Defined.

Lemma encodeError_after_Schedule_witness :
  exists statusCode,
    encodeError ErrUserNotFound []
    = [] ++ [Header_Set "Content-Type" "application/json; charset=utf-8";
             WriteHeader statusCode;
             Encode "error" (Error ErrUserNotFound)]
    /\ (statusCode = 409 /\ ErrUserNotFound = ErrNoAvailableSlot
        \/ statusCode = 404 /\ ErrUserNotFound = ErrUserNotFound
        \/ statusCode = 500
           /\ (ErrUserNotFound = ErrInternalError
               \/ validateScheduleRequest addDays now_08_00
                    (request ["user1"; "nonexistent"] 60
                       (on_2024_09_01 9 0) (on_2024_09_01 17 0))
                  = Some ErrUserNotFound)).
Proof.
  pose (req := request ["user1"; "nonexistent"] 60 (on_2024_09_01 9 0) (on_2024_09_01 17 0)).
  assert (Hresult : (run (Schedule_at_08_00 req) (two_users ∅)).1.1
                    = (None, Some ErrUserNotFound))
    by (vm_compute; reflexivity).
  apply (encodeError_after_Schedule mapRange_listing addDays "meeting" eventFor now_08_00 req
           (run (Schedule_at_08_00 req) (two_users ∅)).2 None ErrUserNotFound []).
  rewrite <- Hresult. apply run_exec.
Defined.

Lemma encodeError_after_GetUserCalendar_witness :
  let err := errors_New "no meetings found for the specified user and time window" in
  let calls := (run (GetUserCalendar "user1" (on_2024_09_01 9 0) (on_2024_09_01 17 0))
                    (two_users ∅)).2 in
  exists statusCode,
    encodeError err []
    = [] ++ [Header_Set "Content-Type" "application/json; charset=utf-8";
             WriteHeader statusCode;
             Encode "error" (Error err)]
    /\ (statusCode = 404 /\ err = ErrUserNotFound
          /\ (exists user e, calls = [answered (GetUser "user1") (user, Some e)])
        \/ statusCode = 500 /\ err = ErrInternalError
        \/ statusCode = 500
           /\ err = errors_New "no meetings found for the specified user and time window"
           /\ exists user,
                calls = [answered (GetUser "user1") (user, None);
                         answered (GetUserEvents "user1" (on_2024_09_01 9 0)
                                                 (on_2024_09_01 17 0)) ([], None)]).
Proof.
  intros err calls.
  assert (Hresult : (run (GetUserCalendar "user1" (on_2024_09_01 9 0) (on_2024_09_01 17 0))
                         (two_users ∅)).1.1 = ([], Some err))
    by (vm_compute; reflexivity).
  apply (encodeError_after_GetUserCalendar "user1" (on_2024_09_01 9 0) (on_2024_09_01 17 0)
           calls [] err []).
  subst calls. rewrite <- Hresult. apply run_exec.
Defined.

Lemma Schedule_on_MockRepository_is_free_witness :
  let b := busy (on_2024_09_01 9 0) (on_2024_09_01 10 0) "user1" in
  instant (on_2024_09_01 11 15) < instant (CalendarEvent.StartTime b)
  \/ instant (CalendarEvent.EndTime b) < instant (on_2024_09_01 10 15).
Proof.
  intros b.
  apply (Schedule_on_MockRepository_is_free mapRange_listing addDays "meeting" eventFor
           now_08_00 request_for_two (two_users {[ "user1" := [b] ]})
           {| ScheduleResponse.MeetingID := "meeting";
              ScheduleResponse.Title := "New Meeting";
              ScheduleResponse.ParticipantIDs := ["user1"; "user2"];
              ScheduleResponse.StartTime := on_2024_09_01 10 15;
              ScheduleResponse.EndTime := on_2024_09_01 11 15 |}
           "user1" b mapRange_listing_ok).
  - vm_compute. reflexivity.
  - left.
  - replace (stored (two_users {[ "user1" := [b] ]}) "user1") with [b]
      by (vm_compute; reflexivity).
    left.
  - vm_compute. discriminate.
  - vm_compute. discriminate.
Defined.

(** An event from 08:30 to 09:30 is not seen in a window from 09:00 on, and
    the meeting goes from 09:00 to 10:00. *)
Lemma Schedule_does_not_see_events_across_the_window_witness :
  let b := busy (on_2024_09_01 8 30) (on_2024_09_01 9 30) "user1" in
  let m := two_users ∅ in
  (run (Schedule_at_08_00 request_for_two) (MockRepository.CreateEvent m b).1).1.1
  = (run (Schedule_at_08_00 request_for_two) m).1.1
  /\ (run (Schedule_at_08_00 request_for_two) (MockRepository.CreateEvent m b).1).1.1
     = (Some {| ScheduleResponse.MeetingID := "meeting";
                ScheduleResponse.Title := "New Meeting";
                ScheduleResponse.ParticipantIDs := ["user1"; "user2"];
                ScheduleResponse.StartTime := on_2024_09_01 9 0;
                ScheduleResponse.EndTime := on_2024_09_01 10 0 |}, None).
Proof.
  intros b m. split.
  - apply (Schedule_does_not_see_events_across_the_window mapRange_listing addDays "meeting"
             eventFor now_08_00 request_for_two m b).
    left. vm_compute. reflexivity.
  - vm_compute. reflexivity.
Defined.

Lemma successive_meetings_do_not_overlap_witness :
  instant (on_2024_09_01 11 15) < instant (on_2024_09_01 9 0)
  \/ instant (on_2024_09_01 10 0) < instant (on_2024_09_01 10 15).
Proof.
  apply (successive_meetings_do_not_overlap mapRange_listing mapRange_listing addDays addDays
           "meeting" "meeting" eventFor eventFor now_08_00 now_08_00
           request_for_two request_for_two (two_users ∅)
           {| ScheduleResponse.MeetingID := "meeting";
              ScheduleResponse.Title := "New Meeting";
              ScheduleResponse.ParticipantIDs := ["user1"; "user2"];
              ScheduleResponse.StartTime := on_2024_09_01 9 0;
              ScheduleResponse.EndTime := on_2024_09_01 10 0 |}
           {| ScheduleResponse.MeetingID := "meeting";
              ScheduleResponse.Title := "New Meeting";
              ScheduleResponse.ParticipantIDs := ["user1"; "user2"];
              ScheduleResponse.StartTime := on_2024_09_01 10 15;
              ScheduleResponse.EndTime := on_2024_09_01 11 15 |}
           "user2" mapRange_listing_ok).
  - vm_compute. reflexivity.
  - vm_compute. reflexivity.
  - right. left.
  - right. left.
  - vm_compute. discriminate.
  - vm_compute. discriminate.
Defined.

Lemma GetUserCalendar_after_Schedule_witness :
  let m := two_users {[ "user1" := [busy (on_2024_09_01 9 0) (on_2024_09_01 10 0) "user1"] ]} in
  let after := run (Schedule_at_08_00 request_for_two) m in
  (run (GetUserCalendar "user1" (on_2024_09_01 9 0) (on_2024_09_01 17 0)) after.1.2).1.1
  = ([busy (on_2024_09_01 9 0) (on_2024_09_01 10 0) "user1";
      NewCalendarEvent eventFor "New Meeting" (on_2024_09_01 10 15) (on_2024_09_01 11 15)
        "user1"], None).
Proof.
  intros m after.
  replace [busy (on_2024_09_01 9 0) (on_2024_09_01 10 0) "user1"]
    with (List.filter (MockRepository.within (on_2024_09_01 9 0) (on_2024_09_01 17 0))
                      (stored m "user1")) by (vm_compute; reflexivity).
  apply (GetUserCalendar_after_Schedule mapRange_listing addDays "meeting" eventFor
           now_08_00 request_for_two m
           {| ScheduleResponse.MeetingID := "meeting";
              ScheduleResponse.Title := "New Meeting";
              ScheduleResponse.ParticipantIDs := ["user1"; "user2"];
              ScheduleResponse.StartTime := on_2024_09_01 10 15;
              ScheduleResponse.EndTime := on_2024_09_01 11 15 |}
           "user1" mapRange_listing_ok).
  - vm_compute. reflexivity.
  - left.
Defined.

Lemma findAvailableSlots_antitone_witness :
  let b1 := busy (on_2024_09_01 9 0) (on_2024_09_01 10 0) "user1" in
  let b2 := busy (on_2024_09_01 11 0) (on_2024_09_01 12 0) "user1" in
  let req := request ["user1"] 60 (on_2024_09_01 9 0) (on_2024_09_01 17 0) in
  (forall slot,
     slot ∈ findAvailableSlots mapRange_listing req {[ "user1" := [b1; b2] ]} ->
     slot ∈ findAvailableSlots mapRange_listing req {[ "user1" := [b1] ]})
  /\ ((FindOptimalSlot mapRange_listing req {[ "user1" := [b1] ]}).1 = None ->
      (FindOptimalSlot mapRange_listing req {[ "user1" := [b1; b2] ]}).1 = None).
Proof.
  intros b1 b2 req.
  apply (findAvailableSlots_antitone mapRange_listing mapRange_listing req
           {[ "user1" := [b1] ]} {[ "user1" := [b1; b2] ]}
           mapRange_listing_ok mapRange_listing_ok).
  intros user userEvents b [<- <-]%lookup_singleton_Some Hb.
  exists "user1", [b1; b2]. split; [apply lookup_singleton_eq|].
  apply list_elem_of_singleton in Hb as ->. left.
Defined.

Lemma findAvailableSlots_no_events_witness :
  let req := request ["user1"] 60 (on_2024_09_01 9 0) (on_2024_09_01 17 0) in
  findAvailableSlots mapRange_listing req ∅ = map (candidateAt req) (seq 0 28).
Proof.
  intros req.
  apply (findAvailableSlots_no_events mapRange_listing req ∅ mapRange_listing_ok).
  - intros user userEvents Huser. now rewrite lookup_empty in Huser.
  - vm_compute. discriminate.
Defined.

Lemma FindOptimalSlot_window_too_short_witness :
  let req := request ["user1"] 60 (on_2024_09_01 9 0) (on_2024_09_01 9 30) in
  findAvailableSlots mapRange_listing req ∅ = []
  /\ FindOptimalSlot mapRange_listing req ∅ = (None, None).
Proof.
  intros req. apply (FindOptimalSlot_window_too_short mapRange_listing req ∅).
  right. vm_compute. discriminate.
Defined.

(** Eight candidates between 09:00 and 12:00, four of them with the score
    of the hour from 09:00. *)
Lemma FindOptimalSlot_earliest_of_the_best_witness :
  let req := request ["user1"] 60 (on_2024_09_01 9 0) (on_2024_09_01 12 0) in
  let scored := scoreSlots mapRange_listing (findAvailableSlots mapRange_listing req ∅) ∅ in
  let slot :=
    {| TimeSlot.Start := on_2024_09_01 9 0;
       TimeSlot.End := on_2024_09_01 10 0;
       TimeSlot.Score := 2.8 |} in
  slot ∈ scored
  /\ (forall s, s ∈ scored -> (TimeSlot.Score slot <? TimeSlot.Score s)%float = false)
  /\ (forall s, s ∈ scored ->
        instant (TimeSlot.Start s) < instant (TimeSlot.Start slot) ->
        (TimeSlot.Score s <? TimeSlot.Score slot)%float = true).
Proof.
  intros req scored slot.
  apply (FindOptimalSlot_earliest_of_the_best mapRange_listing req ∅ slot).
  - vm_compute. repeat constructor.
  - vm_compute. repeat constructor.
  - vm_compute. reflexivity.
Defined.

Lemma Schedule_free_participants_witness :
  let result := (run (Schedule_at_08_00 request_for_two) (two_users ∅)).1.1 in
  let fits := instant (on_2024_09_01 9 0) + 60 * Minute in
  (fits < instant (on_2024_09_01 17 0) -> exists resp, result = (Some resp, None))
  /\ (fits = instant (on_2024_09_01 17 0) -> result = (None, Some ErrNoAvailableSlot))
  /\ fits <= instant (on_2024_09_01 17 0).
Proof.
  apply (Schedule_free_participants mapRange_listing addDays "meeting" eventFor now_08_00
           request_for_two (two_users ∅) mapRange_listing_ok).
  - vm_compute. reflexivity.
  - intros id [->|[->|Hid]%elem_of_cons]%elem_of_cons.
    + now exists alice.
    + now exists bob.
    + inversion Hid.
  - intros id b _ Hb. unfold stored in Hb. simpl in Hb. rewrite lookup_empty in Hb.
    inversion Hb.
Defined.

(** Twenty-eight candidates between 09:00 and 17:00, four of them with the
    score of the hour from 09:00. *)
Lemma FindOptimalSlot_highest_score_witness :
  let req := request ["user1"] 60 (on_2024_09_01 9 0) (on_2024_09_01 17 0) in
  let scored := scoreSlots mapRange_listing (findAvailableSlots mapRange_listing req ∅) ∅ in
  let slot :=
    {| TimeSlot.Start := on_2024_09_01 9 0;
       TimeSlot.End := on_2024_09_01 10 0;
       TimeSlot.Score := 2.8 |} in
  slot ∈ scored
  /\ (forall s, s ∈ scored -> (TimeSlot.Score slot <? TimeSlot.Score s)%float = false).
Proof.
  intros req scored slot.
  apply (FindOptimalSlot_highest_score mapRange_listing req ∅ slot).
  - vm_compute. repeat constructor.
  - vm_compute. reflexivity.
Defined.
